(** * Trading journal: the analytics of the dashboard, the trade store and
      the stop-sweep analysis gate

    A shallow embedding of

    - [src/components/Dashboard.tsx]: [stats], [filteredAndSortedTrades],
      [weeklyWinRateData], [dailyTpslData], [cumulativeRRData],
      [performanceByDayData];
    - [src/hooks/useTrades.ts]: [addTrade], [deleteTrade];
    - [src/services/geminiService.ts]: [analyzeSlSweepsWithAI];
    - the [Trade] type of the repository,

    over a model of the fragment of the JavaScript run time they use.

    Modelling conventions.

    - A JavaScript number is a [number]: an exact rational, or one of the
      three non-finite values.  The claims about counts, keys and order are
      stated over [Dashboard], where sums and quotients are exact; the
      claims that turn on the value of a number are stated over
      [Dashboard64], where every operation rounds to binary64.
    - A JavaScript string is a [string]; a character stands for the code unit
      of the same value, so the strings of the model are the strings over the
      code units 0..255.
    - The [date] of a trade is kept as the time value (milliseconds since the
      epoch, UTC) of [new Date(trade.date)], and a calendar day (the text
      before the [T] of [toISOString()]) as its day number since the epoch.
    - What the browser decides is a [Host]: the local time zone (a fixed
      offset [tz], in minutes east of UTC), the collation of
      [localeCompare], and the insertion sort of its engine. *)

From Stdlib Require Import ZArith QArith Qround Qpower Qabs Qreduction Lia Lqa.
From Stdlib Require Import List Bool String Ascii DecimalString.
From Stdlib Require Import Permutation Sorted OrdersEx.
Import ListNotations.

Set Implicit Arguments.

(* ================================================================== *)
(** * The JavaScript run time *)
(* ================================================================== *)

Module JS.

(** ** Numbers *)

Inductive number : Type :=
  | Num (q : Q)
  | Infinity
  | NegInfinity
  | NaN.

Definition Qltb (x y : Q) : bool := negb (Qle_bool y x).

(** [a + b] before it is rounded: the exact sum.  [Binary64.add] rounds it. *)
Definition add (a b : number) : number :=
  match a, b with
  | NaN, _ | _, NaN => NaN
  | Num x, Num y => Num (x + y)
  | Infinity, NegInfinity | NegInfinity, Infinity => NaN
  | Infinity, _ | _, Infinity => Infinity
  | NegInfinity, _ | _, NegInfinity => NegInfinity
  end.

(** [-a] *)
Definition neg (a : number) : number :=
  match a with
  | Num x => Num (- x)
  | Infinity => NegInfinity
  | NegInfinity => Infinity
  | NaN => NaN
  end.

(** [a - b] *)
Definition sub (a b : number) : number := add a (neg b).

(** The sign given to an infinite product or quotient. *)
Definition signed (negative : bool) : number :=
  if negative then NegInfinity else Infinity.

(** [a * b] before it is rounded: the exact product.  [Binary64.mul] rounds it. *)
Definition mul (a b : number) : number :=
  match a, b with
  | NaN, _ | _, NaN => NaN
  | Num x, Num y => Num (x * y)
  | Num x, Infinity | Infinity, Num x =>
      if Qeq_bool x 0 then NaN else signed (Qltb x 0)
  | Num x, NegInfinity | NegInfinity, Num x =>
      if Qeq_bool x 0 then NaN else signed (negb (Qltb x 0))
  | Infinity, Infinity | NegInfinity, NegInfinity => Infinity
  | Infinity, NegInfinity | NegInfinity, Infinity => NegInfinity
  end.

(** [a / b] before it is rounded: the exact quotient; a zero divisor gives
    [NaN] or an infinity, never an error.  [Binary64.div] rounds it. *)
Definition div (a b : number) : number :=
  match a, b with
  | NaN, _ | _, NaN => NaN
  | Num x, Num y =>
      if Qeq_bool y 0
      then (if Qeq_bool x 0 then NaN else signed (Qltb x 0))
      else Num (x / y)
  | Num _, Infinity | Num _, NegInfinity => Num 0
  | Infinity, Num y => signed (Qltb y 0)
  | NegInfinity, Num y => signed (negb (Qltb y 0))
  | _, _ => NaN
  end.

(** [a < b], [a > b], [a >= b], [a <= b]: false as soon as one side is [NaN]. *)
Definition ltb (a b : number) : bool :=
  match a, b with
  | NaN, _ | _, NaN => false
  | Num x, Num y => Qltb x y
  | NegInfinity, NegInfinity => false
  | NegInfinity, _ => true
  | _, Infinity => match a with Infinity => false | _ => true end
  | _, _ => false
  end.

Definition gtb (a b : number) : bool := ltb b a.

Definition leb (a b : number) : bool :=
  match a, b with
  | NaN, _ | _, NaN => false
  | Num x, Num y => Qle_bool x y
  | NegInfinity, _ => true
  | _, Infinity => true
  | _, _ => false
  end.

Definition geb (a b : number) : bool := leb b a.

(** A finite number. *)
Definition finite (a : number) : Prop :=
  match a with Num _ => True | _ => False end.

(** Two numbers denote the same value. *)
Definition same (a b : number) : Prop :=
  match a, b with
  | Num x, Num y => x == y
  | Infinity, Infinity | NegInfinity, NegInfinity | NaN, NaN => True
  | _, _ => False
  end.

(** The number of a count ([array.length]). *)
Definition ofNat (n : nat) : number := Num (inject_Z (Z.of_nat n)).

(** An optional numeric field read as a number: [undefined] converts to
    [NaN]. *)
Definition ofField (o : option Q) : number :=
  match o with Some q => Num q | None => NaN end.

(** Truthiness of an optional numeric field: [undefined] and [0] are falsy. *)
Definition truthy (o : option Q) : bool :=
  match o with Some q => negb (Qeq_bool q 0) | None => false end.

(** Truthiness of an optional string: [undefined] and [''] are falsy. *)
Definition truthyStr (o : option string) : bool :=
  match o with
  | Some s => match s with EmptyString => false | _ => true end
  | None => false
  end.

(** ** Strings *)

Local Open Scope string_scope.

Definition code (c : ascii) : nat := nat_of_ascii c.

(** White space and line terminators among the code units 0..255. *)
Definition isWhiteSpace (c : ascii) : bool :=
  existsb (Nat.eqb (code c)) [9; 10; 11; 12; 13; 32; 160]%nat.

Fixpoint trimStart (s : string) : string :=
  match s with
  | EmptyString => EmptyString
  | String c s' => if isWhiteSpace c then trimStart s' else s
  end.

Fixpoint trimEnd (s : string) : string :=
  match s with
  | EmptyString => EmptyString
  | String c s' =>
      match trimEnd s' with
      | EmptyString => if isWhiteSpace c then EmptyString else String c EmptyString
      | r => String c r
      end
  end.

(** [s.trim()] *)
Definition trim (s : string) : string := trimEnd (trimStart s).

(** [s.split(sep)] for a separator of one character. *)
Fixpoint split (sep : ascii) (s : string) : list string :=
  match s with
  | EmptyString => [EmptyString]
  | String c s' =>
      if Ascii.eqb c sep then EmptyString :: split sep s'
      else match split sep s' with
           | w :: ws => String c w :: ws
           | [] => [String c EmptyString]
           end
  end.

(** [parts.join(sep)] *)
Definition join (sep : string) (parts : list string) : string :=
  String.concat sep parts.

Definition isDigit (c : ascii) : bool :=
  (48 <=? code c)%nat && (code c <=? 57)%nat.

Definition digitValue (c : ascii) : Z := Z.of_nat (code c) - 48.

(** The longest prefix of decimal digits: its value, its length and what
    follows it. *)
Fixpoint digits (s : string) (acc : Z) (count : nat) : Z * nat * string :=
  match s with
  | EmptyString => (acc, count, s)
  | String c s' =>
      if isDigit c then digits s' (10 * acc + digitValue c) (S count)
      else (acc, count, s)
  end.

Definition pow10 (f : nat) : Z := 10 ^ Z.of_nat f.

(** [parseFloat(s)] for decimal literals without an exponent part: leading
    white space, an optional sign, digits, an optional fraction; what
    follows is ignored, and a text with no digit is [NaN]. *)
Definition parseFloat (s : string) : number :=
  let s0 := trimStart s in
  let '(negative, s1) :=
    match s0 with
    | String "-" r => (true, r)
    | String "+" r => (false, r)
    | _ => (false, s0)
    end in
  let '(whole, nw, rest) := digits s1 0 0 in
  let '(frac, nf) :=
    match rest with
    | String "." r => let '(f, k, _) := digits r 0 0 in (f, k)
    | _ => (0%Z, 0%nat)
    end in
  if (nw + nf =? 0)%nat then NaN
  else
    let v := (inject_Z whole + inject_Z frac / inject_Z (pow10 nf))%Q in
    Num (if negative then (- v)%Q else v).

(** The decimal digits of a natural number. *)
Definition decimal (n : Z) : string :=
  NilZero.string_of_uint (N.to_uint (Z.to_N n)).

Fixpoint zeros (k : nat) : string :=
  match k with
  | O => EmptyString
  | S k' => String "0" (zeros k')
  end.

Definition padStart (width : nat) (s : string) : string :=
  zeros (width - String.length s) ++ s.

(** The integer [n] for which [n / 10^f - x] is closest to zero, the larger
    one when there are two. *)
Definition nearest (x : Q) (f : nat) : Z :=
  Qfloor (x * inject_Z (pow10 f) + (1 # 2)).

Definition fixedDigits (x : Q) (f : nat) : string :=
  let n := nearest x f in
  let whole := decimal (n / pow10 f) in
  match f with
  | O => whole
  | S _ => whole ++ "." ++ padStart f (decimal (n mod pow10 f))
  end.

(** [a.toFixed(f)], for numbers below 10^21 in magnitude. *)
Definition toFixed (a : number) (f : nat) : string :=
  match a with
  | NaN => "NaN"
  | Infinity => "Infinity"
  | NegInfinity => "-Infinity"
  | Num x => if Qltb x 0 then "-" ++ fixedDigits (- x) f else fixedDigits x f
  end.

(** ** Arrays *)

(** [Array.prototype.sort(comparefn)] is stable, and sorts by [comparefn]
    when it is a consistent comparator; otherwise the order is left to the
    engine.  Two insertion sorts are modelled; both take the elements from
    left to right and give each one its place among those already placed.

    - [NewIsLess]: the engine asks [comparefn(new, placed) < 0] and puts the
      new element in front of the first placed element for which this holds
      (the test of V8, which finds the place by binary search).
    - [PlacedIsLessOrEqual]: the engine walks back from the last placed
      element and stops at the first one with [comparefn(placed, new) <= 0]
      (the insertion sort of SpiderMonkey). *)
Inductive Engine : Type :=
  | NewIsLess
  | PlacedIsLessOrEqual.

(** The new element goes in front of the first placed element [x] with
    [comparefn(p, x) < 0], or to the end when there is none. *)
Fixpoint insert {A : Type} (comparefn : A -> A -> number) (p : A)
    (placed : list A) : list A :=
  match placed with
  | [] => [p]
  | x :: rest =>
      if ltb (comparefn p x) (Num 0) then p :: placed
      else x :: insert comparefn p rest
  end.

(** The new element goes right behind the last placed element [s] with
    [comparefn(s, p) <= 0], or to the front when there is none. *)
Fixpoint insertFromRight {A : Type} (comparefn : A -> A -> number) (p : A)
    (placed : list A) : list A :=
  match placed with
  | [] => [p]
  | x :: rest =>
      if existsb (fun s => leb (comparefn s p) (Num 0)) placed
      then x :: insertFromRight comparefn p rest
      else p :: placed
  end.

Definition place {A : Type} (e : Engine) (comparefn : A -> A -> number)
    (placed : list A) (p : A) : list A :=
  match e with
  | NewIsLess => insert comparefn p placed
  | PlacedIsLessOrEqual => insertFromRight comparefn p placed
  end.

Definition sort {A : Type} (e : Engine) (comparefn : A -> A -> number)
    (l : list A) : list A :=
  fold_left (place e comparefn) l [].

(** [precedes comparefn x y]: the comparator orders [x] strictly before [y]. *)
Definition precedes {A : Type} (comparefn : A -> A -> number) (x y : A) : Prop :=
  ltb (comparefn x y) (Num 0) = true.

(** [inOrder comparefn x y]: [y] may stay behind [x]. *)
Definition inOrder {A : Type} (comparefn : A -> A -> number) (x y : A)
    : Prop :=
  ltb (comparefn y x) (Num 0) = false.

(** [atMost comparefn x y]: the comparator does not order [x] after [y]. *)
Definition atMost {A : Type} (comparefn : A -> A -> number) (x y : A) : Prop :=
  leb (comparefn x y) (Num 0) = true.

(** [Subsequence l' l]: [l'] is [l] with some elements left out, the others
    unchanged and in the same order. *)
Inductive Subsequence {A : Type} : list A -> list A -> Prop :=
  | sub_nil : Subsequence [] []
  | sub_keep (x : A) (l' l : list A) :
      Subsequence l' l -> Subsequence (x :: l') (x :: l)
  | sub_drop (x : A) (l' l : list A) :
      Subsequence l' l -> Subsequence l' (x :: l).

(** ** Maps and objects with text keys *)

(** A [Map], or an object used as a dictionary, keeps its keys in the order
    they were first written.  The keys of the dashboard are calendar days,
    kept as day numbers. *)
Definition Map (V : Type) : Type := list (Z * V).

Fixpoint get {V : Type} (m : Map V) (k : Z) : option V :=
  match m with
  | [] => None
  | (k', v) :: rest => if (k' =? k)%Z then Some v else get rest k
  end.

Fixpoint set {V : Type} (m : Map V) (k : Z) (v : V) : Map V :=
  match m with
  | [] => [(k, v)]
  | (k', v') :: rest =>
      if (k' =? k)%Z then (k', v) :: rest else (k', v') :: set rest k v
  end.

(** ** Dates *)

Local Open Scope Z_scope.

Definition msPerDay : Z := 86400000.
Definition msPerMinute : Z := 60000.

Definition Day (t : Z) : Z := t / msPerDay.
Definition TimeWithinDay (t : Z) : Z := t mod msPerDay.
Definition MakeDate (day time : Z) : Z := day * msPerDay + time.

(** 1 January 1970 was a Thursday; 0 is Sunday, 6 is Saturday. *)
Definition WeekDay (t : Z) : Z := (Day t + 4) mod 7.

(** The day number of a civil date of the proleptic Gregorian calendar
    ([m] from 1 to 12). *)
Definition dayNumber (y m d : Z) : Z :=
  let y' := if m <=? 2 then y - 1 else y in
  let era := y' / 400 in
  let yoe := y' - era * 400 in
  let doy := (153 * ((m + 9) mod 12) + 2) / 5 + d - 1 in
  let doe := yoe * 365 + yoe / 4 - yoe / 100 + doy in
  era * 146097 + doe - 719468.

(** [new Date("YYYY-MM-DD").getTime()]: a date-only text is UTC midnight. *)
Definition isoDate (y m d : Z) : Z := MakeDate (dayNumber y m d) 0.

Section LocalTimeZone.

(** Minutes east of UTC ([-getTimezoneOffset()]). *)
Variable tz : Z.

Definition LocalTime (t : Z) : Z := t + tz * msPerMinute.
Definition UTC (t : Z) : Z := t - tz * msPerMinute.

(** [d.getUTCDay()] and [d.getDay()] *)
Definition getUTCDay (t : Z) : Z := WeekDay t.
Definition getDay (t : Z) : Z := WeekDay (LocalTime t).

(** [d.toISOString().split('T')[0]] *)
Definition isoDay (t : Z) : Z := Day t.

(** [new Date(d.getUTCFullYear(), d.getUTCMonth(), d.getUTCDate())]: the
    constructor reads its arguments as a local date, at local midnight.
    For the years from 100 on: the constructor reads a year from 0 to 99
    as 1900 to 1999. *)
Definition ofUTCParts (t : Z) : Z := UTC (MakeDate (Day t) 0).

(** [d.setDate(d.getDate() - k)]: the local date moves back [k] days, the
    local time of day stays.  The offset of the zone is fixed: no change
    between summer and winter time falls into the [k] days. *)
Definition setDateBack (t k : Z) : Z :=
  UTC (MakeDate (Day (LocalTime t) - k) (TimeWithinDay (LocalTime t))).

End LocalTimeZone.

(** ** The host *)

(** What the browser supplies: the local time zone (minutes east of UTC),
    the collation of the locale, the text of a number and of a date
    ([String(value)]), and the sort of its engine. *)
Record Host : Type := {
  tz : Z;
  localeCompare : string -> string -> Z;
  numberText : Q -> string;
  dateText : Z -> string;
  engine : Engine
}.

End JS.

(* ================================================================== *)
(** * Binary64: the arithmetic of the numbers *)
(* ================================================================== *)

(** The value of every arithmetic operation of JavaScript is the exact
    result rounded to the nearest number of the format binary64, the one
    with an even significand when two are as near.  A finite number of the
    format is kept as its exact rational value, in lowest terms.  The two
    zeros are one [Num 0]: they compare alike, no operation of the program
    divides by a zero, and [-0] is printed as [0]. *)
Module Binary64.
Import JS.
Local Open Scope Z_scope.

(** [2^k] for an integer [k]. *)
Definition pow2 (k : Z) : Q := (2 ^ k)%Q.

(** The exponent of a positive rational [x]: the [e] with
    [2^e <= x < 2^(e+1)]. *)
Definition exponent (x : Q) : Z :=
  let e0 := Z.log2 (Qnum x) - Z.log2 (Zpos (Qden x)) in
  if Qle_bool (pow2 e0) x then e0 else e0 - 1.

(** The integer nearest to [y], the even one when two are as near. *)
Definition nearestEven (y : Q) : Z :=
  let f := Qfloor y in
  match (y - inject_Z f ?= 1 # 2)%Q with
  | Lt => f
  | Gt => f + 1
  | Eq => if Z.even f then f else f + 1
  end.

(** The exponent of the unit in the last place of the numbers around [x]:
    53 binary digits, and no unit below [2^-1074]. *)
Definition unitExponent (x : Q) : Z := Z.max (exponent x) (-1022) - 52.

(** A positive rational rounded: the nearest whole number of units, or
    [Infinity] from [2^1024] on. *)
Definition roundPositive (x : Q) : number :=
  let u := unitExponent x in
  let v := Qred (inject_Z (nearestEven (x * pow2 (- u))) * pow2 u) in
  if Qle_bool (pow2 1024) v then Infinity else Num v.

Definition round (q : Q) : number :=
  let x := Qred q in
  match Qnum x with
  | 0 => Num 0
  | Zpos _ => roundPositive x
  | Zneg _ => neg (roundPositive (- x))
  end.

(** The number of the format for the value of an exact operation. *)
Definition rounded (a : number) : number :=
  match a with
  | Num q => round q
  | _ => a
  end.

(** [a + b], [a - b], [a * b], [a / b] *)
Definition add (a b : number) : number := rounded (JS.add a b).
Definition sub (a b : number) : number := rounded (JS.sub a b).
Definition mul (a b : number) : number := rounded (JS.mul a b).
Definition div (a b : number) : number := rounded (JS.div a b).

(** The number that a numeric field holds: the number of the format
    nearest to the decimal text, [NaN] for [undefined]. *)
Definition ofField (o : option Q) : number := rounded (JS.ofField o).

(** Truthiness of a numeric field: [undefined], [0] and [NaN] are falsy. *)
Definition truthy (o : option Q) : bool :=
  match ofField o with
  | Num q => negb (Qeq_bool q 0)
  | NaN => false
  | _ => true
  end.

(** The largest finite number of the format. *)
Definition maxValue : Q := inject_Z (2 ^ 53 - 1) * pow2 971.

(** A number of the format: not finite, or finite and not beyond
    [maxValue]. *)
Definition inRange (a : number) : Prop :=
  match a with
  | Num q => (Qabs q <= maxValue)%Q
  | _ => True
  end.

(** The numbers of the format that are whole: additions of whole numbers
    are exact up to [2^53]. *)
Definition whole (a : number) : Prop := exists z : Z, a = Num (inject_Z z).

Definition magnitude (a : number) : Z :=
  match a with
  | Num q => Z.abs (Qnum q)
  | _ => 0
  end.

(** The whole number that a finite number carries in its numerator. *)
Definition wholePart (a : number) : Z :=
  match a with
  | Num q => Qnum q
  | _ => 0
  end.

End Binary64.

(* ================================================================== *)
(** * The record model ([Trade], [Outcome], [TradeType]) *)
(* ================================================================== *)

Module Types.

Inductive TradeType : Type := BUY | SELL.

Inductive Outcome : Type := TP | SL | BE | NO_TRADE.

Record Images : Type := {
  before : option string;
  after : option string;
  metatrader : option string
}.

(** [Omit<Trade, 'id'>]: what the form hands to [addTrade]. *)
Record TradeData : Type := {
  date : Z;
  type : option TradeType;
  outcome : Outcome;
  slSize : option Q;
  tpSize : option Q;
  rr : option Q;
  rangeSize : option Q;
  notes : string;
  activationTime : option string;
  slSweepNotes : option string;
  images : option Images
}.

Record Trade : Type := {
  id : string;
  data :> TradeData
}.

Definition Outcome_eqb (a b : Outcome) : bool :=
  match a, b with
  | TP, TP | SL, SL | BE, BE | NO_TRADE, NO_TRADE => true
  | _, _ => false
  end.

Definition TradeType_eqb (a b : TradeType) : bool :=
  match a, b with
  | BUY, BUY | SELL, SELL => true
  | _, _ => false
  end.

(** The text of the enumeration members. *)
Definition Outcome_text (o : Outcome) : string :=
  match o with
  | TP => "TP"
  | SL => "SL"
  | BE => "BE"
  | NO_TRADE => "NO_TRADE"
  end.

Definition TradeType_text (t : TradeType) : string :=
  match t with
  | BUY => "BUY"
  | SELL => "SELL"
  end.

End Types.

(* ================================================================== *)
(** * [src/hooks/useTrades.ts] *)
(* ================================================================== *)

Module UseTrades.
Import JS Types.

(** [addTrade]: [freshId] is the text [new Date().toISOString() +
    Math.random()] that the clock and the random source give at the call. *)
Definition addTrade (h : Host) (freshId : string) (tradeData : TradeData)
    (prevTrades : list Trade) : list Trade :=
  let newTrade := {| id := freshId; data := tradeData |} in
  sort (engine h) (fun a b : Trade => Num (inject_Z (date b - date a)))
       (prevTrades ++ [newTrade]).

Definition deleteTrade (id0 : string) (prevTrades : list Trade)
    : list Trade :=
  filter (fun trade => negb (String.eqb (id trade) id0)) prevTrades.

(** The order the store keeps: newest first. *)
Definition newestFirst (a b : Trade) : Prop := (date b <= date a)%Z.

(** The records that [deleteTrade id0] is asked to remove. *)
Definition matching (id0 : string) (t : Trade) : bool :=
  String.eqb (id t) id0.

End UseTrades.

(* ================================================================== *)
(** * [src/services/geminiService.ts] *)
(* ================================================================== *)

Module GeminiService.
Import JS Types.
Local Open Scope string_scope.

(** What the function needs from outside: the credential of the process
    environment and the analysis service.  [generateContent contents] is the
    text of the response, or [None] when the call fails.  The model name and
    the system instruction of the request are constants and are not carried. *)
Record Env : Type := {
  API_KEY : option string;
  generateContent : string -> option string
}.

(** How a call ends: the promise resolves with a text, or rejects with an
    error. *)
Inductive completion : Type :=
  | Resolved (text : string)
  | Rejected (message : string).

(** A run: how it ended and the requests it sent to the service, in order. *)
Record Run : Type := {
  result : completion;
  sent : list string
}.

Definition notEnoughNotes : string :=
  "There aren't enough 'SL Sweep Notes' to perform a meaningful analysis. Please add more detailed notes to your losing trades to use this feature.".

Definition sweepFailure : string :=
  "Sorry, I encountered an error while analyzing your SL sweep notes. Please check the console for details.".

Definition newline : string := String (ascii_of_nat 10) EmptyString.

(** The test of the [filter]: the note is truthy and not blank. *)
Definition hasSweepNote (trade : Trade) : bool :=
  truthyStr (slSweepNotes trade) &&
  match slSweepNotes trade with
  | Some s => negb (String.eqb (trim s) "")
  | None => false
  end.

(** The template [`- ${trade.slSweepNotes}`]. *)
Definition bullet (trade : Trade) : string :=
  "- " ++ match slSweepNotes trade with
          | Some s => s
          | None => "undefined"
          end.

Definition fullPrompt (slSweepNotes : list string) : string :=
  "Here are the trader's notes on the candles that triggered their stop losses:"
  ++ newline ++ newline ++ join newline slSweepNotes
  ++ newline ++ newline ++ "Please analyze these for recurring patterns.".

Definition analyzeSlSweepsWithAI (env : Env) (trades : list Trade) : Run :=
  if negb (truthyStr (API_KEY env)) then
    {| result := Rejected "API_KEY environment variable not set";
       sent := [] |}
  else
    let slSweepNotes := map bullet (filter hasSweepNote trades) in
    if (List.length slSweepNotes <? 3)%nat then
      {| result := Resolved notEnoughNotes; sent := [] |}
    else
      let contents := fullPrompt slSweepNotes in
      match generateContent env contents with
      | Some text => {| result := Resolved text; sent := [contents] |}
      | None => {| result := Resolved sweepFailure; sent := [contents] |}
      end.

End GeminiService.

(* ================================================================== *)
(** * [src/components/Dashboard.tsx] *)
(* ================================================================== *)

Module Dashboard.
Import JS Types.
Local Open Scope string_scope.

(** ** [stats] *)

Record Stats : Type := {
  totalTrades : nat;
  wins : nat;
  losses : nat;
  breakEvens : nat;
  winRate : string;
  totalRREarned : number;
  averageRR : number
}.

Definition isTaken (t : Trade) : bool :=
  negb (Outcome_eqb (outcome t) NO_TRADE).

(** The callback of the [reduce] that builds [totalRREarned]. *)
Definition rrReducer (acc : number) (trade : Trade) : number :=
  match rr trade with
  | Some r =>
      add acc (if Outcome_eqb (outcome trade) SL then Num (-1) else Num r)
  | None =>
      if Outcome_eqb (outcome trade) TP && truthy (slSize trade)
         && truthy (tpSize trade) && gtb (ofField (slSize trade)) (Num 0)
      then add acc (div (ofField (tpSize trade)) (ofField (slSize trade)))
      else if Outcome_eqb (outcome trade) SL then sub acc (Num 1)
      else acc
  end.

Definition stats (trades : list Trade) : Stats :=
  let totalTrades := List.length (filter isTaken trades) in
  let wins :=
    List.length (filter (fun t : Trade => Outcome_eqb (outcome t) TP) trades) in
  let losses :=
    List.length (filter (fun t : Trade => Outcome_eqb (outcome t) SL) trades) in
  let breakEvens :=
    List.length (filter (fun t : Trade => Outcome_eqb (outcome t) BE) trades) in
  let winRate :=
    if (0 <? totalTrades)%nat && (0 <? wins + losses)%nat
    then toFixed (mul (div (ofNat wins) (ofNat (wins + losses))) (Num 100)) 1
    else "0.0" in
  let totalRREarned := fold_left rrReducer (filter isTaken trades) (Num 0) in
  let averageRR :=
    if (0 <? totalTrades)%nat then div totalRREarned (ofNat totalTrades)
    else Num 0 in
  {| totalTrades := totalTrades;
     wins := wins;
     losses := losses;
     breakEvens := breakEvens;
     winRate := winRate;
     totalRREarned := totalRREarned;
     averageRR := averageRR |}.

(** ** [filteredAndSortedTrades] *)

(** The filter state.  [startDate] and [endDate] are [None] for the empty
    text and otherwise the time value of the chosen date; the other filters
    keep the text of their [select]. *)
Record Filters : Type := {
  startDate : option Z;
  endDate : option Z;
  f_outcome : string;
  f_type : string;
  f_rangeSize : string;
  f_dayOfWeek : string
}.

Inductive SortableTradeKeys : Type :=
  | K_id | K_date | K_type | K_outcome | K_slSize | K_tpSize | K_rr
  | K_rangeSize | K_notes | K_activationTime | K_slSweepNotes | K_images.

Inductive Direction : Type := ascending | descending.

Record SortConfig : Type := {
  key : SortableTradeKeys;
  direction : Direction
}.

(** The value of a property of a trade. *)
Inductive value : Type :=
  | undefined
  | numberV (q : Q)
  | stringV (s : string)
  | dateV (t : Z)
  | objectV.

Definition optional {A : Type} (inj : A -> value) (o : option A) : value :=
  match o with
  | Some a => inj a
  | None => undefined
  end.

(** [trade[key]]; the date text is kept as its time value. *)
Definition property (k : SortableTradeKeys) (t : Trade) : value :=
  match k with
  | K_id => stringV (id t)
  | K_date => dateV (date t)
  | K_type => optional (fun x => stringV (TradeType_text x)) (type t)
  | K_outcome => stringV (Outcome_text (outcome t))
  | K_slSize => optional numberV (slSize t)
  | K_tpSize => optional numberV (tpSize t)
  | K_rr => optional numberV (rr t)
  | K_rangeSize => optional numberV (rangeSize t)
  | K_notes => stringV (notes t)
  | K_activationTime => optional stringV (activationTime t)
  | K_slSweepNotes => optional stringV (slSweepNotes t)
  | K_images => optional (fun _ => objectV) (images t)
  end.

(** [String(v)] *)
Definition String_ (h : Host) (v : value) : string :=
  match v with
  | undefined => "undefined"
  | numberV q => numberText h q
  | stringV s => s
  | dateV t => dateText h t
  | objectV => "[object Object]"
  end.

Definition isDateKey (k : SortableTradeKeys) : bool :=
  match k with K_date => true | _ => false end.

(** The comparator handed to [sort]. *)
Definition compareTrades (h : Host) (sortConfig : SortConfig) (a b : Trade)
    : number :=
  let aValue := property (key sortConfig) a in
  let bValue := property (key sortConfig) b in
  match aValue, bValue with
  | undefined, _ => Num 1
  | _, undefined => Num (-1)
  | _, _ =>
      let comparison :=
        if isDateKey (key sortConfig)
        then Num (inject_Z (date a - date b))
        else match aValue, bValue with
             | numberV x, numberV y => sub (Num x) (Num y)
             | _, _ =>
                 Num (inject_Z
                        (localeCompare h (String_ h aValue) (String_ h bValue)))
             end in
      match direction sortConfig with
      | descending => neg comparison
      | ascending => comparison
      end
  end.


(** The bounds read from the text of a bucket:
    [const [minStr, maxStr] = filters.rangeSize.split('-')], then [min] and
    [max]. *)
Definition bounds (bucket : string) : number * number :=
  let parts := split "-" bucket in
  let min := match nth_error parts 0 with
             | Some minStr => parseFloat minStr
             | None => NaN
             end in
  let max := match nth_error parts 1 with
             | Some EmptyString | None => Infinity
             | Some maxStr => parseFloat maxStr
             end in
  (min, max).

(** The callback of the range filter. *)
Definition within (min max : number) (t : Trade) : bool :=
  match rangeSize t with
  | None => false
  | Some r => geb (Num r) min && ltb (Num r) max
  end.

Definition inRange (bucket : string) (t : Trade) : bool :=
  let (min, max) := bounds bucket in within min max t.

(** The test of the weekday filter. *)
Definition onDayOfWeek (h : Host) (dayOfWeek : string) (t : Trade) : bool :=
  let utcDate := ofUTCParts (tz h) (date t) in
  String.eqb (decimal (getUTCDay utcDate)) dayOfWeek.

Definition unlessAll (choice : string) (test : Trade -> bool)
    (l : list Trade) : list Trade :=
  if String.eqb choice "all" then l else filter test l.

Definition filteredAndSortedTrades (h : Host) (trades : list Trade)
    (filters : Filters) (sortConfig : SortConfig) : list Trade :=
  let l0 := trades in
  let l1 := match startDate filters with
            | Some s => filter (fun t : Trade => (s <=? date t)%Z) l0
            | None => l0
            end in
  let l2 := match endDate filters with
            | Some e => filter (fun t : Trade => (date t <=? e)%Z) l1
            | None => l1
            end in
  let l3 := unlessAll (f_outcome filters)
              (fun t : Trade => String.eqb (Outcome_text (outcome t)) (f_outcome filters))
              l2 in
  let l4 := unlessAll (f_type filters)
              (fun t : Trade => match type t with
                        | Some x => String.eqb (TradeType_text x) (f_type filters)
                        | None => false
                        end)
              l3 in
  let l5 := unlessAll (f_rangeSize filters) (inRange (f_rangeSize filters)) l4 in
  let l6 := unlessAll (f_dayOfWeek filters)
              (onDayOfWeek h (f_dayOfWeek filters)) l5 in
  sort (engine h) (compareTrades h sortConfig) l6.

(** ** [weeklyWinRateData] *)

Record WeekCount : Type := {
  wk_wins : nat;
  wk_losses : nat;
  wk_total : nat
}.

(** A bar of the chart; the name is the week key. *)
Record WeekBar : Type := {
  wb_name : Z;
  wb_winRate : number;
  wb_wins : nat;
  wb_losses : nat
}.

Definition isTPorSL (t : Trade) : bool :=
  Outcome_eqb (outcome t) TP || Outcome_eqb (outcome t) SL.

(** The time value of a key, [new Date(name).getTime()]. *)
Definition keyTime (name : Z) : Z := MakeDate name 0.

Definition byKey {A : Type} (name : A -> Z) (a b : A) : number :=
  Num (inject_Z (keyTime (name a) - keyTime (name b))).

(** The percentage of wins, with its guard. *)
Definition winPercent (wins losses : nat) : number :=
  if (0 <? wins + losses)%nat
  then mul (div (ofNat wins) (ofNat (wins + losses))) (Num 100)
  else Num 0.

Definition weekKey (h : Host) (trade : Trade) : Z :=
  let date := date trade in
  let firstDay := setDateBack (tz h) date (getDay (tz h) date) in
  isoDay firstDay.

Definition countWeek (h : Host) (weeks : Map WeekCount) (trade : Trade)
    : Map WeekCount :=
  if isTPorSL trade then
    let k := weekKey h trade in
    let c := match get weeks k with
             | Some c => c
             | None => {| wk_wins := 0; wk_losses := 0; wk_total := 0 |}
             end in
    set weeks k
      (if Outcome_eqb (outcome trade) TP then
         {| wk_wins := S (wk_wins c); wk_losses := wk_losses c;
            wk_total := wk_total c |}
       else if Outcome_eqb (outcome trade) SL then
         {| wk_wins := wk_wins c; wk_losses := S (wk_losses c);
            wk_total := wk_total c |}
       else c)
  else weeks.

Definition weeklyWinRateData (h : Host) (trades : list Trade)
    : list WeekBar :=
  let weeks := fold_left (countWeek h) trades [] in
  sort (engine h) (byKey wb_name)
    (map (fun e : Z * WeekCount =>
            let (week, data) := e in
            {| wb_name := week;
               wb_winRate := winPercent (wk_wins data) (wk_losses data);
               wb_wins := wk_wins data;
               wb_losses := wk_losses data |})
         weeks).

(** ** [dailyTpslData] *)

Record DayCount : Type := {
  dc_TP : nat;
  dc_SL : nat
}.

Record DayBar : Type := {
  db_name : Z;
  db_TP : nat;
  db_SL : nat
}.

Definition dayKey (trade : Trade) : Z := isoDay (date trade).

Definition countDay (dailyData : Map DayCount) (trade : Trade)
    : Map DayCount :=
  if isTPorSL trade then
    let k := dayKey trade in
    let c := match get dailyData k with
             | Some c => c
             | None => {| dc_TP := 0; dc_SL := 0 |}
             end in
    set dailyData k
      (if Outcome_eqb (outcome trade) TP then
         {| dc_TP := S (dc_TP c); dc_SL := dc_SL c |}
       else if Outcome_eqb (outcome trade) SL then
         {| dc_TP := dc_TP c; dc_SL := S (dc_SL c) |}
       else c)
  else dailyData.

Definition dailyTpslData (h : Host) (trades : list Trade) : list DayBar :=
  let dailyData := fold_left countDay trades [] in
  sort (engine h) (byKey db_name)
    (map (fun e : Z * DayCount =>
            let (day, data) := e in
            {| db_name := day; db_TP := dc_TP data; db_SL := dc_SL data |})
         dailyData).

(** ** [cumulativeRRData] *)

(** The name of a point of the curve: the text [Start], or a day. *)
Inductive PointName : Type :=
  | Start
  | OnDay (day : Z).

Record CurvePoint : Type := {
  cp_name : PointName;
  cp_cumulativeRR : number
}.

(** The local [tradeRR] of the loop. *)
Definition tradeRR (trade : Trade) : number :=
  match rr trade with
  | Some r => if Outcome_eqb (outcome trade) SL then Num (-1) else Num r
  | None =>
      if Outcome_eqb (outcome trade) TP && truthy (tpSize trade)
         && truthy (slSize trade) && gtb (ofField (slSize trade)) (Num 0)
      then div (ofField (tpSize trade)) (ofField (slSize trade))
      else if Outcome_eqb (outcome trade) SL then Num (-1)
      else Num 0
  end.

(** [v || 0] for a number that may be missing. *)
Definition orZero (o : option number) : number :=
  match o with
  | None | Some NaN => Num 0
  | Some (Num q) => if Qeq_bool q 0 then Num 0 else Num q
  | Some v => v
  end.

Definition addToDay (dailyData : Map number) (trade : Trade) : Map number :=
  let k := dayKey trade in
  let currentDailyRR := orZero (get dailyData k) in
  set dailyData k (add currentDailyRR (tradeRR trade)).

(** The loop that accumulates [cumulativeRR] over the entries of the map. *)
Fixpoint chartData (cumulativeRR : number) (entries : Map number)
    : list CurvePoint :=
  match entries with
  | [] => []
  | (day, dailyRR) :: rest =>
      let cumulativeRR' := add cumulativeRR dailyRR in
      {| cp_name := OnDay day; cp_cumulativeRR := cumulativeRR' |}
        :: chartData cumulativeRR' rest
  end.

Definition cumulativeRRData (h : Host) (trades : list Trade)
    : list CurvePoint :=
  let sortedTrades :=
    sort (engine h) (fun a b : Trade => Num (inject_Z (date a - date b)))
         (filter isTaken trades) in
  if (List.length sortedTrades =? 0)%nat then []
  else
    let dailyData := fold_left addToDay sortedTrades [] in
    {| cp_name := Start; cp_cumulativeRR := Num 0 |}
      :: chartData (Num 0) dailyData.

(** ** [performanceByDayData] *)

Record DayStats : Type := {
  ds_wins : nat;
  ds_losses : nat;
  ds_trades : nat
}.

Record DayPerformance : Type := {
  dp_name : string;
  dp_winRate : number;
  dp_trades : nat
}.

Definition days : list string :=
  ["Sunday"; "Monday"; "Tuesday"; "Wednesday"; "Thursday"; "Friday";
   "Saturday"].

Definition orderedDays : list string :=
  ["Monday"; "Tuesday"; "Wednesday"; "Thursday"; "Friday"].

Definition noStats : DayStats :=
  {| ds_wins := 0; ds_losses := 0; ds_trades := 0 |}.

(** An object keyed by the day names. *)
Definition lookup (dailyStats : list (string * DayStats)) (day : string)
    : DayStats :=
  match find (fun e => String.eqb (fst e) day) dailyStats with
  | Some e => snd e
  | None => noStats
  end.

Definition update (dailyStats : list (string * DayStats)) (day : string)
    (f : DayStats -> DayStats) : list (string * DayStats) :=
  map (fun e => if String.eqb (fst e) day then (fst e, f (snd e)) else e)
      dailyStats.

(** The index of the day bucket of a trade. *)
Definition dayIndex (h : Host) (trade : Trade) : Z :=
  let utcDate := ofUTCParts (tz h) (date trade) in
  getUTCDay utcDate.

Definition countByDay (h : Host) (dailyStats : list (string * DayStats))
    (trade : Trade) : list (string * DayStats) :=
  if Outcome_eqb (outcome trade) NO_TRADE then dailyStats
  else
    let dayName := nth (Z.to_nat (dayIndex h trade)) days "undefined" in
    update dailyStats dayName
      (fun s =>
         {| ds_wins := if Outcome_eqb (outcome trade) TP
                       then S (ds_wins s) else ds_wins s;
            ds_losses := if Outcome_eqb (outcome trade) TP then ds_losses s
                         else if Outcome_eqb (outcome trade) SL
                         then S (ds_losses s) else ds_losses s;
            ds_trades := S (ds_trades s) |}).

Definition performanceByDayData (h : Host) (trades : list Trade)
    : list DayPerformance :=
  let dailyStats :=
    fold_left (countByDay h) trades (map (fun day => (day, noStats)) days) in
  map (fun day =>
         let s := lookup dailyStats day in
         {| dp_name := substring 0 3 day;
            dp_winRate := winPercent (ds_wins s) (ds_losses s);
            dp_trades := ds_trades s |})
      orderedDays.

End Dashboard.

(* ================================================================== *)
(** * [src/components/Dashboard.tsx], the values in binary64 *)
(* ================================================================== *)

(** The functions of the dashboard that compute with the numbers of the
    records, read with the arithmetic of [Binary64].  The counts, the keys
    and the order are those of [Dashboard]. *)
Module Dashboard64.
Import JS Types Dashboard.
Import Binary64.
Local Open Scope string_scope.

(** ** [stats] *)

(** The callback of the [reduce] that builds [totalRREarned]. *)
Definition rrReducer (acc : number) (trade : Trade) : number :=
  match rr trade with
  | Some _ =>
      add acc (if Outcome_eqb (outcome trade) SL then Num (-1)
               else ofField (rr trade))
  | None =>
      if Outcome_eqb (outcome trade) TP && truthy (slSize trade)
         && truthy (tpSize trade) && gtb (ofField (slSize trade)) (Num 0)
      then add acc (div (ofField (tpSize trade)) (ofField (slSize trade)))
      else if Outcome_eqb (outcome trade) SL then sub acc (Num 1)
      else acc
  end.

Definition stats (trades : list Trade) : Stats :=
  let totalTrades := List.length (filter isTaken trades) in
  let wins :=
    List.length (filter (fun t : Trade => Outcome_eqb (outcome t) TP) trades) in
  let losses :=
    List.length (filter (fun t : Trade => Outcome_eqb (outcome t) SL) trades) in
  let breakEvens :=
    List.length (filter (fun t : Trade => Outcome_eqb (outcome t) BE) trades) in
  let winRate :=
    if (0 <? totalTrades)%nat && (0 <? wins + losses)%nat
    then toFixed (mul (div (ofNat wins) (ofNat (wins + losses))) (Num 100)) 1
    else "0.0" in
  let totalRREarned := fold_left rrReducer (filter isTaken trades) (Num 0) in
  let averageRR :=
    if (0 <? totalTrades)%nat then div totalRREarned (ofNat totalTrades)
    else Num 0 in
  {| totalTrades := totalTrades;
     wins := wins;
     losses := losses;
     breakEvens := breakEvens;
     winRate := winRate;
     totalRREarned := totalRREarned;
     averageRR := averageRR |}.

(** ** The percentage of the weekly and of the day-of-week chart *)

Definition winPercent (wins losses : nat) : number :=
  if (0 <? wins + losses)%nat
  then mul (div (ofNat wins) (ofNat (wins + losses))) (Num 100)
  else Num 0.

Definition weeklyWinRateData (h : Host) (trades : list Trade)
    : list WeekBar :=
  let weeks := fold_left (countWeek h) trades [] in
  sort (engine h) (byKey wb_name)
    (map (fun e : Z * WeekCount =>
            let (week, data) := e in
            {| wb_name := week;
               wb_winRate := winPercent (wk_wins data) (wk_losses data);
               wb_wins := wk_wins data;
               wb_losses := wk_losses data |})
         weeks).

Definition performanceByDayData (h : Host) (trades : list Trade)
    : list DayPerformance :=
  let dailyStats :=
    fold_left (countByDay h) trades (map (fun day => (day, noStats)) days) in
  map (fun day =>
         let s := lookup dailyStats day in
         {| dp_name := substring 0 3 day;
            dp_winRate := winPercent (ds_wins s) (ds_losses s);
            dp_trades := ds_trades s |})
      orderedDays.

(** ** [cumulativeRRData] *)

(** The local [tradeRR] of the loop. *)
Definition tradeRR (trade : Trade) : number :=
  match rr trade with
  | Some _ =>
      if Outcome_eqb (outcome trade) SL then Num (-1) else ofField (rr trade)
  | None =>
      if Outcome_eqb (outcome trade) TP && truthy (tpSize trade)
         && truthy (slSize trade) && gtb (ofField (slSize trade)) (Num 0)
      then div (ofField (tpSize trade)) (ofField (slSize trade))
      else if Outcome_eqb (outcome trade) SL then Num (-1)
      else Num 0
  end.

Definition addToDay (dailyData : Map number) (trade : Trade) : Map number :=
  let k := dayKey trade in
  let currentDailyRR := orZero (get dailyData k) in
  set dailyData k (add currentDailyRR (tradeRR trade)).

(** The loop that accumulates [cumulativeRR] over the entries of the map. *)
Fixpoint chartData (cumulativeRR : number) (entries : Map number)
    : list CurvePoint :=
  match entries with
  | [] => []
  | (day, dailyRR) :: rest =>
      let cumulativeRR' := add cumulativeRR dailyRR in
      {| cp_name := OnDay day; cp_cumulativeRR := cumulativeRR' |}
        :: chartData cumulativeRR' rest
  end.

Definition cumulativeRRData (h : Host) (trades : list Trade)
    : list CurvePoint :=
  let sortedTrades :=
    sort (engine h) (fun a b : Trade => Num (inject_Z (date a - date b)))
         (filter isTaken trades) in
  if (List.length sortedTrades =? 0)%nat then []
  else
    let dailyData := fold_left addToDay sortedTrades [] in
    {| cp_name := Start; cp_cumulativeRR := Num 0 |}
      :: chartData (Num 0) dailyData.

(** The sum of the magnitudes of the risk multiples of a list of records. *)
Definition totalMagnitude (l : list Trade) : Z :=
  fold_right (fun t s => (magnitude (tradeRR t) + s)%Z) 0%Z l.

(** The sum of the risk multiples of a list of records, read as whole
    numbers. *)
Definition totalWhole (l : list Trade) : Z :=
  fold_right (fun t s => (wholePart (tradeRR t) + s)%Z) 0%Z l.

(** The sum of the values of a map, read as whole numbers, and the sum of
    their magnitudes. *)
Definition mapWhole (m : Map number) : Z :=
  fold_right (fun e s => (wholePart (snd e) + s)%Z) 0%Z m.

Definition mapMagnitude (m : Map number) : Z :=
  fold_right (fun e s => (magnitude (snd e) + s)%Z) 0%Z m.

Definition allWhole (m : Map number) : Prop :=
  Forall (fun e => whole (snd e)) m.

(** Two records count alike when they have the same date and outcome and
    the same risk multiple. *)
Definition countAlike (a b : Trade) : Prop :=
  date a = date b /\ outcome a = outcome b /\ tradeRR a = tradeRR b
  /\ forall acc, rrReducer acc a = rrReducer acc b.

End Dashboard64.

(* ================================================================== *)
(** * The first point of the curve, and sample records *)
(* ================================================================== *)

Module Spec.
Import JS Types.

(** The synthetic first point of the equity curve. *)
Definition startPoint : Dashboard.CurvePoint :=
  {| Dashboard.cp_name := Dashboard.Start;
     Dashboard.cp_cumulativeRR := Num 0 |}.

End Spec.

Module Examples.
Import JS Types.
Local Open Scope string_scope.

Definition trade (i : string) (d : Z) (o : Outcome) (tp sl r : option Q)
    : Trade :=
  {| id := i;
     data := {| date := d; type := Some BUY; outcome := o;
                slSize := sl; tpSize := tp; rr := r; rangeSize := None;
                notes := ""; activationTime := None; slSweepNotes := None;
                images := None |} |}.

Definition noTradeDay (i : string) (d : Z) : Trade :=
  {| id := i;
     data := {| date := d; type := None; outcome := NO_TRADE;
                slSize := None; tpSize := None; rr := None;
                rangeSize := None; notes := ""; activationTime := None;
                slSweepNotes := None; images := None |} |}.

(** Monday 3 June 2024: a take profit of 20 against a stop of 10. *)
Definition monday : Trade :=
  trade "a" (isoDate 2024 6 3) TP (Some 20) (Some 10) None.

(** Tuesday 4 June 2024: a stop loss. *)
Definition tuesday : Trade := trade "b" (isoDate 2024 6 4) SL None None None.

(** Wednesday 5 June 2024: no trade. *)
Definition wednesday : Trade := noTradeDay "c" (isoDate 2024 6 5).

(** A stop loss entered with a risk multiple of 3. *)
Definition overridden : Trade :=
  trade "d" (isoDate 2024 6 6) SL None None (Some 3).

Definition journal : list Trade := [monday; tuesday; wednesday].

(** One win and two losses. *)
Definition oneInThree : list Trade :=
  [monday; tuesday; trade "e" (isoDate 2024 6 7) SL None None None].

(** Three trades on three days with the risk multiples 0.1, 0.2 and 0.3
    entered, newest first: the newest one and the two before it. *)
Definition newestTenth : Trade :=
  trade "h" (isoDate 2024 6 5) TP None None (Some (1 # 10)).

Definition olderTenths : list Trade :=
  [trade "g" (isoDate 2024 6 4) TP None None (Some (2 # 10));
   trade "f" (isoDate 2024 6 3) TP None None (Some (3 # 10))].

Definition tenths : list Trade := newestTenth :: olderTenths.

(** 23 wins and 57 losses. *)
Definition twentyThreeInEighty : list Trade :=
  repeat monday 23 ++ repeat tuesday 57.

(** Two break-evens entered with -1e308 and a take profit of 1e308 against
    a stop of 1e-10. *)
Definition overflowing : list Trade :=
  [trade "i" (isoDate 2024 6 3) BE None None
         (Some (- inject_Z (10 ^ 308)));
   trade "j" (isoDate 2024 6 4) BE None None
         (Some (- inject_Z (10 ^ 308)));
   trade "k" (isoDate 2024 6 5) TP (Some (inject_Z (10 ^ 308)))
         (Some (1 # 10000000000)) None].

(** Two break-evens, entered with the negative number of the format that
    is nearest to 0, which is -2^-1074, and with 0. *)
Definition underflowing : list Trade :=
  [trade "l" (isoDate 2024 6 4) BE None None (Some (-1 # 2 ^ 1074));
   trade "m" (isoDate 2024 6 3) BE None None (Some 0)].


(** A record with a stop-sweep note. *)
Definition noted (i : string) (note : option string) : Trade :=
  {| id := i;
     data := {| date := isoDate 2024 6 4; type := Some BUY; outcome := SL;
                slSize := None; tpSize := None; rr := None;
                rangeSize := None; notes := ""; activationTime := None;
                slSweepNotes := note; images := None |} |}.

(** The order of the code units, as a collation. *)
Definition codeUnitOrder (a b : string) : Z :=
  match String_as_OT.compare a b with
  | Lt => -1
  | Eq => 0
  | Gt => 1
  end.

(** A browser two hours east of UTC, and one five hours west of it, with
    the order of the code units as collation. *)
Definition browser (offset : Z) (e : Engine) : Host :=
  {| tz := offset;
     localeCompare := codeUnitOrder;
     numberText := fun q => toFixed (Num q) 0;
     dateText := decimal;
     engine := e |}.

Definition berlin : Host := browser 120 NewIsLess.

Definition newYork : Host := browser (-300) NewIsLess.

(** The same place, with the other engine. *)
Definition berlinOther : Host := browser 120 PlacedIsLessOrEqual.

(** No filter but the weekday. *)
Definition onlyDayOfWeek (k : string) : Dashboard.Filters :=
  {| Dashboard.startDate := None; Dashboard.endDate := None;
     Dashboard.f_outcome := "all"; Dashboard.f_type := "all";
     Dashboard.f_rangeSize := "all"; Dashboard.f_dayOfWeek := k |}.

(** No filter at all. *)
Definition noFilter : Dashboard.Filters := onlyDayOfWeek "all".

(** The sort the dashboard starts with. *)
Definition byDateDescending : Dashboard.SortConfig :=
  {| Dashboard.key := Dashboard.K_date;
     Dashboard.direction := Dashboard.descending |}.

Definition byRR : Dashboard.SortConfig :=
  {| Dashboard.key := Dashboard.K_rr;
     Dashboard.direction := Dashboard.ascending |}.

(** A process with a credential and a service that answers, and a process
    without a credential. *)
Definition configured : GeminiService.Env :=
  {| GeminiService.API_KEY := Some "key";
     GeminiService.generateContent := fun _ => Some "analysis" |}.

Definition unconfigured : GeminiService.Env :=
  {| GeminiService.API_KEY := None;
     GeminiService.generateContent := fun _ => Some "analysis" |}.

(** Two notes that count, a blank note and a record without a note. *)
Definition twoNotes : list Trade :=
  [noted "n1" (Some "wick through the low"); noted "n2" (Some "   ");
   noted "n3" None; noted "n4" (Some "news spike")].

Definition threeNotes : list Trade :=
  twoNotes ++ [noted "n5" (Some "London open sweep")].

End Examples.

(* ================================================================== *)
(** * More of [src/components/Dashboard.tsx]: the sort request, the reset
      of the filters, the pie chart, the cards and the R/R cell *)
(* ================================================================== *)

Module DashboardView.
Import JS Types Dashboard.
Local Open Scope string_scope.

(** ** [requestSort] *)

(** [sortConfig.key === key] *)
Definition sameKey (a b : SortableTradeKeys) : bool :=
  match a, b with
  | K_id, K_id | K_date, K_date | K_type, K_type | K_outcome, K_outcome
  | K_slSize, K_slSize | K_tpSize, K_tpSize | K_rr, K_rr
  | K_rangeSize, K_rangeSize | K_notes, K_notes
  | K_activationTime, K_activationTime | K_slSweepNotes, K_slSweepNotes
  | K_images, K_images => true
  | _, _ => false
  end.

Definition isAscending (d : Direction) : bool :=
  match d with
  | ascending => true
  | descending => false
  end.

(** The state [useState] starts with. *)
Definition initialSortConfig : SortConfig :=
  {| key := K_date; direction := descending |}.

(** The sort state after [requestSort(key)]. *)
Definition requestSort (sortConfig : SortConfig) (k : SortableTradeKeys)
    : SortConfig :=
  let direction :=
    if sameKey (key sortConfig) k && isAscending (direction sortConfig)
    then descending else ascending in
  {| key := k; direction := direction |}.

(** ** [resetFilters] *)

(** The filter state after [resetFilters()], which is the initial state. *)
Definition resetFilters : Filters :=
  {| startDate := None; endDate := None; f_outcome := "all";
     f_type := "all"; f_rangeSize := "all"; f_dayOfWeek := "all" |}.

(** The tests of [filteredAndSortedTrades] that the filter state turns on,
    taken together. *)
Definition passes (h : Host) (filters : Filters) (t : Trade) : bool :=
  match startDate filters with
  | Some s => (s <=? date t)%Z
  | None => true
  end
  && match endDate filters with
     | Some e => (date t <=? e)%Z
     | None => true
     end
  && (String.eqb (f_outcome filters) "all"
      || String.eqb (Outcome_text (outcome t)) (f_outcome filters))
  && (String.eqb (f_type filters) "all"
      || match type t with
         | Some x => String.eqb (TradeType_text x) (f_type filters)
         | None => false
         end)
  && (String.eqb (f_rangeSize filters) "all"
      || inRange (f_rangeSize filters) t)
  && (String.eqb (f_dayOfWeek filters) "all"
      || onDayOfWeek h (f_dayOfWeek filters) t).

(** A record has a value for the sort key ([aValue == null] is false). *)
Definition hasValue (k : SortableTradeKeys) (t : Trade) : bool :=
  match property k t with
  | undefined => false
  | _ => true
  end.

(** The records with a value for the key come first in a list. *)
Definition valuedFirst (k : SortableTradeKeys) (l : list Trade) : Prop :=
  exists vs ns,
    l = (vs ++ ns)%list /\ Forall (fun t => hasValue k t = true) vs
    /\ Forall (fun t => hasValue k t = false) ns.

(** ** [outcomeData] *)

Record Slice : Type := {
  slice_name : string;
  slice_value : nat
}.

Definition outcomeData (trades : list Trade) : list Slice :=
  filter (fun d => (0 <? slice_value d)%nat)
    [ {| slice_name := "Take Profit"; slice_value := wins (stats trades) |};
      {| slice_name := "Stop Loss"; slice_value := losses (stats trades) |};
      {| slice_name := "Break Even";
         slice_value := breakEvens (stats trades) |};
      {| slice_name := "No Trade Days";
         slice_value :=
           List.length
             (filter (fun t : Trade => Outcome_eqb (outcome t) NO_TRADE)
                     trades) |} ].

(** ** The colours of the cards *)

Definition colorClass (good : bool) : string :=
  if good then "text-success" else "text-danger".

(** [parseFloat(stats.winRate) >= 50 ? 'text-success' : 'text-danger'] *)
Definition winRateColor (s : Stats) : string :=
  colorClass (geb (parseFloat (winRate s)) (Num 50)).

(** [stats.totalRREarned >= 0 ? ...] and [stats.averageRR >= 0 ? ...] *)
Definition totalColor (s : Stats) : string :=
  colorClass (geb (totalRREarned s) (Num 0)).

Definition averageColor (s : Stats) : string :=
  colorClass (geb (averageRR s) (Num 0)).

(** ** The R/R cell of the table *)

Definition rrCell (trade : Trade) : string :=
  if truthy (rr trade) then toFixed (ofField (rr trade)) 2 ++ "R"
  else if truthy (tpSize trade) && truthy (slSize trade)
          && gtb (ofField (slSize trade)) (Num 0)
  then toFixed (div (ofField (tpSize trade)) (ofField (slSize trade))) 2
       ++ "R"
  else "N/A".

End DashboardView.

(* ================================================================== *)
(** * The R/R cell and the colours of the cards, the values in binary64 *)
(* ================================================================== *)

Module DashboardView64.
Import JS Types Dashboard.
Import Binary64.
Local Open Scope string_scope.

(** ** The R/R cell of the table *)

Definition rrCell (trade : Trade) : string :=
  if truthy (rr trade) then toFixed (ofField (rr trade)) 2 ++ "R"
  else if truthy (tpSize trade) && truthy (slSize trade)
          && gtb (ofField (slSize trade)) (Num 0)
  then toFixed (div (ofField (tpSize trade)) (ofField (slSize trade))) 2
       ++ "R"
  else "N/A".

(** ** The colours of the cards of the total and of the average *)

Definition totalColor (s : Stats) : string :=
  DashboardView.colorClass (geb (totalRREarned s) (Num 0)).

Definition averageColor (s : Stats) : string :=
  DashboardView.colorClass (geb (averageRR s) (Num 0)).

End DashboardView64.

(* ================================================================== *)
(** * More of [src/services/geminiService.ts]: [dataURIToPart] and
      [analyzeTradesWithAI] *)
(* ================================================================== *)

Module GeminiChat.
Import JS Types GeminiService.
Local Open Scope string_scope.

(** ** [dataURIToPart] *)

(** The characters that [.] of a regular expression does not match, among
    the code units 0..255. *)
Definition isLineTerminator (c : ascii) : bool :=
  (code c =? 10)%nat || (code c =? 13)%nat.

Fixpoint anyLineTerminator (s : string) : bool :=
  match s with
  | EmptyString => false
  | String c s' => isLineTerminator c || anyLineTerminator s'
  end.

(** [s] without the prefix [p], when it starts with it. *)
Fixpoint dropPrefix (p s : string) : option string :=
  match p, s with
  | EmptyString, _ => Some s
  | String a p', String b s' =>
      if Ascii.eqb a b then dropPrefix p' s' else None
  | String _ _, EmptyString => None
  end.

Definition marker : string := ";base64,".

(** The last place where the marker occurs with something behind it: what
    is in front of it and what is behind it.  The first group of the
    pattern is greedy, so this is the occurrence the match uses. *)
Fixpoint lastMarker (s : string) : option (string * string) :=
  match s with
  | EmptyString => None
  | String c s' =>
      match lastMarker s' with
      | Some (front, back) => Some (String c front, back)
      | None =>
          match dropPrefix marker s with
          | Some (String b back) => Some (EmptyString, String b back)
          | _ => None
          end
      end
  end.

(** The object [{ mimeType, data }]. *)
Record InlineData : Type := {
  mimeType : string;
  imageData : string
}.

(** [dataURI.match(/^data:(.+);base64,(.+)$/)], then the two groups. *)
Definition dataURIToPart (dataURI : string) : option InlineData :=
  match dropPrefix "data:" dataURI with
  | Some rest =>
      if anyLineTerminator rest then None
      else match lastMarker rest with
           | Some (String c front, back) =>
               Some {| mimeType := String c front; imageData := back |}
           | _ => None
           end
  | None => None
  end.

(** The data URI of a type and a payload. *)
Definition dataURI (mime payload : string) : string :=
  "data:" ++ mime ++ marker ++ payload.

(** Every character of a text passes a test. *)
Fixpoint allChars (test : ascii -> bool) (s : string) : bool :=
  match s with
  | EmptyString => true
  | String c s' => test c && allChars test s'
  end.

(** The characters of a base64 text: letters, digits, [+], [/] and the
    padding [=]. *)
Definition isBase64Char (c : ascii) : bool :=
  ((65 <=? code c)%nat && (code c <=? 90)%nat)
  || ((97 <=? code c)%nat && (code c <=? 122)%nat)
  || ((48 <=? code c)%nat && (code c <=? 57)%nat)
  || (code c =? 43)%nat || (code c =? 47)%nat || (code c =? 61)%nat.

(** ** [analyzeTradesWithAI] *)

(** A part of the request: a text, or an inline image. *)
Inductive Part : Type :=
  | TextPart (text : string)
  | InlinePart (inlineData : InlineData).

(** The credential, [JSON.stringify(tradesForAI, null, 2)], the text of the
    [date] field of a record as it is stored (the record model keeps its
    time value) and the analysis service; [generate parts] is the text of
    the response, or [None] when the call fails. *)
Record ChatEnv : Type := {
  chat_API_KEY : option string;
  stringify : list (Trade * string) -> string;
  dateString : Trade -> string;
  generate : list Part -> option string
}.

Record ChatRun : Type := {
  chat_result : completion;
  chat_sent : list (list Part)
}.

Definition chatFailure : string :=
  "Sorry, I encountered an error while analyzing your trades. Please check the console for details.".

Definition noImages : string := "No images provided for this trade.".

Definition quote : string := String (ascii_of_nat 34) EmptyString.

(** [Object.entries(images)]: the keys are in the order in which the form
    writes them. *)
Definition entries (i : Images) : list (string * string) :=
  match before i with Some v => [("before", v)] | None => [] end
  ++ match after i with Some v => [("after", v)] | None => [] end
  ++ match metatrader i with Some v => [("metatrader", v)] | None => [] end.

(** The entries of a trade that has images:
    [images && typeof images === 'object' && Object.keys(images).length > 0]. *)
Definition attached (trade : Trade) : list (string * string) :=
  match images trade with
  | Some i => entries i
  | None => []
  end.

(** [c.toUpperCase()] for the letters a to z. *)
Definition toUpperCase (c : ascii) : ascii :=
  if (97 <=? code c)%nat && (code c <=? 122)%nat
  then ascii_of_nat (code c - 32) else c.

(** The label of an image. *)
Definition label (key : string) : string :=
  if String.eqb key "metatrader" then "MetaTrader Screen"
  else match key with
       | EmptyString => EmptyString
       | String c rest => String (toUpperCase c) rest
       end.

(** [const { images, ...tradeData } = trade] *)
Definition withoutImages (trade : Trade) : Trade :=
  {| id := id trade;
     data := {| date := date trade; type := type trade;
                outcome := outcome trade; slSize := slSize trade;
                tpSize := tpSize trade; rr := rr trade;
                rangeSize := rangeSize trade; notes := notes trade;
                activationTime := activationTime trade;
                slSweepNotes := slSweepNotes trade; images := None |} |}.

Definition image_references (trade : Trade) : string :=
  match attached trade with
  | [] => noImages
  | es =>
      "See accompanying images for trade ID " ++ id trade ++ " ("
      ++ join ", " (map fst es) ++ ")"
  end.

(** An element of [tradesForAI]: the trade without its images, and the
    reference text. *)
Definition forAI (trade : Trade) : Trade * string :=
  (withoutImages trade, image_references trade).

(** The parts that one image adds. *)
Definition imageParts (entry : string * string) : list Part :=
  let (key, imgData) := entry in
  match imgData with
  | EmptyString => []
  | _ =>
      match dataURIToPart imgData with
      | Some imagePart =>
          [TextPart ("--- " ++ label key ++ " ---"); InlinePart imagePart]
      | None => []
      end
  end.

(** The parts that one trade adds. *)
Definition tradeParts (env : ChatEnv) (trade : Trade) : list Part :=
  match attached trade with
  | [] => []
  | es =>
      TextPart ("Images for trade ID " ++ id trade ++ " on "
                ++ dateString env trade ++ ":")
        :: flat_map imageParts es
  end.

Definition textPromptPart (env : ChatEnv) (prompt : string)
    (trades : list Trade) : string :=
  "Here is the trader's history:" ++ newline
  ++ stringify env (map forAI trades) ++ newline ++ newline
  ++ "Based on this data and any accompanying images, please answer the following question: "
  ++ quote ++ prompt ++ quote.

Definition contentParts (env : ChatEnv) (prompt : string)
    (trades : list Trade) : list Part :=
  TextPart (textPromptPart env prompt trades)
    :: flat_map (tradeParts env) trades.

Definition analyzeTradesWithAI (env : ChatEnv) (prompt : string)
    (trades : list Trade) : ChatRun :=
  if negb (truthyStr (chat_API_KEY env)) then
    {| chat_result := Rejected "API_KEY environment variable not set";
       chat_sent := [] |}
  else
    let parts := contentParts env prompt trades in
    match generate env parts with
    | Some text => {| chat_result := Resolved text; chat_sent := [parts] |}
    | None =>
        {| chat_result := Resolved chatFailure; chat_sent := [parts] |}
    end.

(** The inline images of a request. *)
Fixpoint inlineImages (parts : list Part) : list InlineData :=
  match parts with
  | [] => []
  | TextPart _ :: rest => inlineImages rest
  | InlinePart d :: rest => d :: inlineImages rest
  end.

(** The images of a trade that are not empty and are well-formed data
    URIs, decoded. *)
Definition usableImages (trade : Trade) : list InlineData :=
  flat_map (fun e : string * string =>
              match snd e with
              | EmptyString => []
              | _ => match dataURIToPart (snd e) with
                     | Some d => [d]
                     | None => []
                     end
              end)
           (attached trade).

(** Every inline image comes right after a text. *)
Fixpoint imagesFollowText (afterText : bool) (parts : list Part) : bool :=
  match parts with
  | [] => true
  | TextPart _ :: rest => imagesFollowText true rest
  | InlinePart _ :: rest => afterText && imagesFollowText false rest
  end.

End GeminiChat.

(* ================================================================== *)
(** * [SlSweepAnalyzer] and [ChatAnalyzer]: the callers of the service *)
(* ================================================================== *)

Module SlSweepAnalyzer.
Import JS Types GeminiService.
Local Open Scope string_scope.

Record State : Type := {
  analysis : option string;
  isLoading : bool;
  error : option string
}.

(** [err.message || "An unexpected error occurred."] *)
Definition errorText (message : string) : string :=
  match message with
  | EmptyString => "An unexpected error occurred."
  | _ => message
  end.

(** The state when [handleAnalyze] has run to its end, and the requests it
    sent. *)
Definition handleAnalyze (env : Env) (trades : list Trade) (st : State)
    : State * list string :=
  let run := analyzeSlSweepsWithAI env trades in
  (match result run with
   | Resolved text =>
       {| analysis := Some text; isLoading := false; error := None |}
   | Rejected message =>
       {| analysis := None; isLoading := false;
          error := Some (errorText message) |}
   end, sent run).

(** What the component renders. *)
Inductive Screen : Type :=
  | Spinner
  | Results (text : string)
  | StartPage (shownError : option string).

Definition screen (st : State) : Screen :=
  if isLoading st then Spinner
  else if truthyStr (analysis st) then
    Results match analysis st with Some text => text | None => "" end
  else StartPage (if truthyStr (error st) then error st else None).

End SlSweepAnalyzer.

Module ChatAnalyzer.
Import JS Types GeminiService GeminiChat.
Local Open Scope string_scope.

Inductive Sender : Type := user | ai.

Record Message : Type := {
  sender : Sender;
  text : string
}.

Record State : Type := {
  prompt : string;
  messages : list Message;
  isLoading : bool
}.

Definition connectionTrouble : string :=
  "I'm having trouble connecting to my analysis server. Please try again later.".

(** The state when [handleSubmit] has run to its end, and the requests it
    sent. *)
Definition handleSubmit (env : ChatEnv) (trades : list Trade)
    (st : State) : State * list (list Part) :=
  if String.eqb (trim (prompt st)) "" || isLoading st then (st, [])
  else
    let userMessage := {| sender := user; text := prompt st |} in
    let run := analyzeTradesWithAI env (prompt st) trades in
    let aiMessage :=
      match chat_result run with
      | Resolved aiResponse => {| sender := ai; text := aiResponse |}
      | Rejected _ => {| sender := ai; text := connectionTrouble |}
      end in
    ({| prompt := "";
        messages := (messages st ++ [userMessage]) ++ [aiMessage];
        isLoading := false |}, chat_sent run).

End ChatAnalyzer.

(* ================================================================== *)
(** * [TradeForm]: the weekday shown and [handleSubmit] *)
(* ================================================================== *)

Module TradeForm.
Import JS Types.
Local Open Scope string_scope.

(** The state of the form.  The date input is required: its text
    "YYYY-MM-DD" is kept as the day number of the calendar day chosen.  The
    images are the entries of [images] that are not [null]. *)
Record Form : Type := {
  f_day : Z;
  f_outcome : Outcome;
  f_type : option TradeType;
  f_slSize : string;
  f_tpSize : string;
  f_rangeSize : string;
  f_rr : string;
  f_activationTime : string;
  f_slSweepNotes : string;
  f_images : Images;
  f_isUploading : bool;
  f_notes : string
}.

(** [text ? parseFloat(text) : undefined], for the texts that a number
    input holds: empty, or a decimal literal, whose number is finite. *)
Definition numberOf (text : string) : option Q :=
  match text with
  | EmptyString => None
  | _ => match parseFloat text with
         | Num q => Some q
         | _ => None
         end
  end.

(** [text || undefined] *)
Definition textOf (text : string) : option string :=
  match text with
  | EmptyString => None
  | _ => Some text
  end.

(** The weekday shown beside the date: the local weekday of
    [new Date(date + 'T00:00:00')], which is local midnight of the day. *)
Definition dayOfWeek (h : Host) (f : Form) : string :=
  let day := UTC (tz h) (MakeDate (f_day f) 0) in
  nth (Z.to_nat (getDay (tz h) day)) Dashboard.days "".

(** The data that [handleSubmit] hands to [addTrade]; [None] while images
    are still being read, when it only warns.  The date text is stored as
    it is; its time value is UTC midnight of the day. *)
Definition handleSubmit (f : Form) : option TradeData :=
  if f_isUploading f then None
  else
    let isNoTradeDay := Outcome_eqb (f_outcome f) NO_TRADE in
    Some
      {| date := MakeDate (f_day f) 0;
         outcome := f_outcome f;
         notes := f_notes f;
         rangeSize := numberOf (f_rangeSize f);
         images := Some (f_images f);
         type := if isNoTradeDay then None else f_type f;
         slSize := if isNoTradeDay then None else numberOf (f_slSize f);
         tpSize := if isNoTradeDay then None else numberOf (f_tpSize f);
         rr := if isNoTradeDay then None else numberOf (f_rr f);
         activationTime :=
           if isNoTradeDay then None else textOf (f_activationTime f);
         slSweepNotes :=
           if isNoTradeDay then None else textOf (f_slSweepNotes f) |}.

(** The effect that runs when the outcome or the type has changed: a form
    for a day without a trade loses the fields of a trade and its images,
    another form without a type gets [BUY]. *)
Definition effect (f : Form) : Form :=
  if Outcome_eqb (f_outcome f) NO_TRADE then
    {| f_day := f_day f; f_outcome := f_outcome f; f_type := None;
       f_slSize := ""; f_tpSize := ""; f_rangeSize := f_rangeSize f;
       f_rr := ""; f_activationTime := ""; f_slSweepNotes := "";
       f_images := {| before := None; after := None; metatrader := None |};
       f_isUploading := f_isUploading f; f_notes := f_notes f |}
  else
    match f_type f with
    | None =>
        {| f_day := f_day f; f_outcome := f_outcome f; f_type := Some BUY;
           f_slSize := f_slSize f; f_tpSize := f_tpSize f;
           f_rangeSize := f_rangeSize f; f_rr := f_rr f;
           f_activationTime := f_activationTime f;
           f_slSweepNotes := f_slSweepNotes f; f_images := f_images f;
           f_isUploading := f_isUploading f; f_notes := f_notes f |}
    | Some _ => f
    end.

(** The data of a form as it would be read without the test for a day
    without a trade: the first branch of [handleSubmit]. *)
Definition fieldsAsEntered (f : Form) : TradeData :=
  {| date := MakeDate (f_day f) 0;
     outcome := f_outcome f;
     notes := f_notes f;
     rangeSize := numberOf (f_rangeSize f);
     images := Some (f_images f);
     type := f_type f;
     slSize := numberOf (f_slSize f);
     tpSize := numberOf (f_tpSize f);
     rr := numberOf (f_rr f);
     activationTime := textOf (f_activationTime f);
     slSweepNotes := textOf (f_slSweepNotes f) |}.

(** The store after the form is submitted. *)
Definition submit (h : Host) (freshId : string) (f : Form)
    (trades : list Trade) : list Trade :=
  match handleSubmit f with
  | Some tradeData => UseTrades.addTrade h freshId tradeData trades
  | None => trades
  end.

End TradeForm.

(* ================================================================== *)
(** * The store over time: what the journal does to it *)
(* ================================================================== *)

Module Store.
Import JS Types UseTrades.

(** A call of [addTrade], with the identifier it makes up, or of
    [deleteTrade]. *)
Inductive Action : Type :=
  | Add (freshId : string) (tradeData : TradeData)
  | Delete (id0 : string).

Definition step (h : Host) (trades : list Trade) (a : Action) : list Trade :=
  match a with
  | Add freshId tradeData => addTrade h freshId tradeData trades
  | Delete id0 => deleteTrade id0 trades
  end.

(** The store after a sequence of calls. *)
Definition run (h : Host) (actions : list Action) (trades : list Trade)
    : list Trade :=
  fold_left (step h) actions trades.

(** The records at least as new as [d], and the older ones. *)
Definition notOlder (d : Z) (t : Trade) : bool := (d <=? date t)%Z.
Definition older (d : Z) (t : Trade) : bool := (date t <? d)%Z.

End Store.

(* ================================================================== *)
(** * The charts: what a bar counts *)
(* ================================================================== *)

Module Series.
Import JS Types Dashboard.

(** The number of records of a list that pass a test. *)
Definition countWhere (test : Trade -> bool) (l : list Trade) : nat :=
  List.length (filter test l).

Definition isTP (t : Trade) : bool := Outcome_eqb (outcome t) TP.
Definition isSL (t : Trade) : bool := Outcome_eqb (outcome t) SL.

Definition onDay (k : Z) (t : Trade) : bool := (dayKey t =? k)%Z.

(** The loops of [weeklyWinRateData] and [dailyTpslData] have one shape:
    a record that counts is added to the entry of its key, which starts
    from [zero]. *)
Section Tally.

Variable C : Type.
Variable zero : C.
Variable key : Trade -> Z.
Variable counted : Trade -> bool.
Variable bump : Trade -> C -> C.

Definition orElse (o : option C) : C :=
  match o with
  | Some c => c
  | None => zero
  end.

Definition tally (m : Map C) (t : Trade) : Map C :=
  if counted t then set m (key t) (bump t (orElse (get m (key t)))) else m.

(** What a record does to the entry of the key [k]. *)
Definition entryAfter (k : Z) (o : option C) (t : Trade) : option C :=
  if counted t && (key t =? k)%Z then Some (bump t (orElse o)) else o.

End Tally.



Definition noDay : DayCount := {| dc_TP := 0; dc_SL := 0 |}.

Definition bumpDay (trade : Trade) (c : DayCount) : DayCount :=
  if Outcome_eqb (outcome trade) TP then
    {| dc_TP := S (dc_TP c); dc_SL := dc_SL c |}
  else if Outcome_eqb (outcome trade) SL then
    {| dc_TP := dc_TP c; dc_SL := S (dc_SL c) |}
  else c.

(** What [countByDay] does to the statistics of a day. *)
Definition bumpStats (trade : Trade) (s : DayStats) : DayStats :=
  {| ds_wins := if Outcome_eqb (outcome trade) TP
                then S (ds_wins s) else ds_wins s;
     ds_losses := if Outcome_eqb (outcome trade) TP then ds_losses s
                  else if Outcome_eqb (outcome trade) SL
                  then S (ds_losses s) else ds_losses s;
     ds_trades := S (ds_trades s) |}.

(** The days of the curve, without its starting point. *)
Fixpoint curveDays (points : list CurvePoint) : list Z :=
  match points with
  | [] => []
  | p :: rest =>
      match cp_name p with
      | Start => curveDays rest
      | OnDay d => d :: curveDays rest
      end
  end.

End Series.

(* ================================================================== *)
(** * Forms for the examples *)
(* ================================================================== *)

Module FormExamples.
Import JS Types TradeForm.
Local Open Scope string_scope.

Definition noImages : Images :=
  {| before := None; after := None; metatrader := None |}.

(** A won trade on Monday 3 June 2024. *)
Definition mondayForm : Form :=
  {| f_day := dayNumber 2024 6 3; f_outcome := TP; f_type := Some BUY;
     f_slSize := "10"; f_tpSize := "20"; f_rangeSize := ""; f_rr := "";
     f_activationTime := "10:30"; f_slSweepNotes := "";
     f_images := noImages; f_isUploading := false; f_notes := "" |}.

Definition mondayData : TradeData :=
  {| date := isoDate 2024 6 3; type := Some BUY; outcome := TP;
     slSize := Some 10; tpSize := Some 20; rr := None; rangeSize := None;
     notes := ""; activationTime := Some "10:30"; slSweepNotes := None;
     images := Some noImages |}.

(** A day without a trade, entered while the fields of a trade still hold
    a text. *)
Definition dayOffForm : Form :=
  {| f_day := dayNumber 2024 6 5; f_outcome := NO_TRADE; f_type := Some BUY;
     f_slSize := "10"; f_tpSize := "20"; f_rangeSize := "7.5"; f_rr := "2";
     f_activationTime := "10:30"; f_slSweepNotes := "wick";
     f_images := noImages; f_isUploading := false; f_notes := "holiday" |}.

End FormExamples.

(* ================================================================== *)
(** * Properties of the run-time model *)
(* ================================================================== *)

Module JSFacts.
Import JS.

(** ** Numbers *)

Lemma Qltb_lt (x y : Q) : Qltb x y = true <-> x < y.
Proof.
  unfold Qltb. rewrite negb_true_iff.
  split; intro H.
  - apply Qnot_le_lt. intro C. apply Qle_bool_iff in C. congruence.
  - destruct (Qle_bool y x) eqn:E; [|reflexivity].
    apply Qle_bool_iff in E. exfalso. apply (Qlt_not_le _ _ H E).
Qed.

Lemma Qltb_false (x y : Q) : Qltb x y = false <-> y <= x.
Proof.
  unfold Qltb. rewrite negb_false_iff. apply Qle_bool_iff.
Qed.

Lemma Qeq_bool_false (x y : Q) : Qeq_bool x y = false <-> ~ x == y.
Proof.
  split.
  - intros E C. apply Qeq_bool_iff in C. congruence.
  - intro N. destruct (Qeq_bool x y) eqn:E; [|reflexivity].
    apply Qeq_bool_iff in E. contradiction.
Qed.

Lemma same_refl (a : number) : same a a.
Proof. destruct a; simpl; auto. reflexivity. Qed.

Lemma same_sym (a b : number) : same a b -> same b a.
Proof. destruct a, b; simpl; auto. intro H. symmetry. exact H. Qed.

Lemma same_trans (a b c : number) : same a b -> same b c -> same a c.
Proof.
  destruct a, b, c; simpl; auto; try contradiction.
  intros H1 H2. rewrite H1. exact H2.
Qed.

Lemma ltb_inject_Z (z : Z) : ltb (Num (inject_Z z)) (Num 0) = true <-> (z < 0)%Z.
Proof.
  simpl. rewrite Qltb_lt. unfold Qlt. simpl. lia.
Qed.

Lemma ltb_inject_Z_false (z : Z) :
  ltb (Num (inject_Z z)) (Num 0) = false <-> (0 <= z)%Z.
Proof.
  simpl. rewrite Qltb_false. unfold Qle. simpl. lia.
Qed.

Lemma StronglySorted_weaken (A : Type) (R S : A -> A -> Prop) (l : list A) :
  (forall x y, R x y -> S x y) -> StronglySorted R l -> StronglySorted S l.
Proof.
  intros RS. induction 1 as [|x l _ IH F]; constructor.
  - exact IH.
  - eapply Forall_impl; [|exact F]. intros y. apply RS.
Qed.

Lemma leb_inject_Z (z : Z) :
  leb (Num (inject_Z z)) (Num 0) = true <-> (z <= 0)%Z.
Proof.
  simpl. rewrite Qle_bool_iff. unfold Qle. simpl. lia.
Qed.

Lemma ltb_neg_inject_Z (z : Z) :
  ltb (neg (Num (inject_Z z))) (Num 0) = true <-> (0 < z)%Z.
Proof.
  simpl. rewrite Qltb_lt. unfold Qlt. simpl. lia.
Qed.

Lemma ltb_sub (a b : Q) : ltb (sub (Num a) (Num b)) (Num 0) = true <-> a < b.
Proof.
  simpl. rewrite Qltb_lt. split; intro H.
  - apply Qlt_minus_iff. apply Qlt_minus_iff in H.
    setoid_replace (b + - a) with (0 + - (a + - b)) by ring. exact H.
  - apply Qlt_minus_iff. apply Qlt_minus_iff in H.
    setoid_replace (0 + - (a + - b)) with (b + - a) by ring. exact H.
Qed.

Lemma ltb_neg_sub (a b : Q) :
  ltb (neg (sub (Num a) (Num b))) (Num 0) = true <-> b < a.
Proof.
  simpl. rewrite Qltb_lt. split; intro H.
  - apply Qlt_minus_iff. apply Qlt_minus_iff in H.
    setoid_replace (a + - b) with (0 + - - (a + - b)) by ring. exact H.
  - apply Qlt_minus_iff. apply Qlt_minus_iff in H.
    setoid_replace (0 + - - (a + - b)) with (a + - b) by ring. exact H.
Qed.

(** ** [sort] *)

Section Sorting.

Variable A : Type.
Variable comparefn : A -> A -> number.

Local Abbreviation precedes := (JS.precedes comparefn).
Local Abbreviation inOrder := (JS.inOrder comparefn).
Local Abbreviation atMost := (JS.atMost comparefn).

(** *** Both engines rearrange *)

Lemma insert_perm (p : A) (l : list A) :
  Permutation (insert comparefn p l) (p :: l).
Proof.
  induction l as [|x l IH]; simpl.
  - apply Permutation_refl.
  - destruct (ltb (comparefn p x) (Num 0)).
    + apply Permutation_refl.
    + eapply perm_trans; [apply perm_skip, IH | apply perm_swap].
Qed.

Lemma insertFromRight_perm (p : A) (l : list A) :
  Permutation (insertFromRight comparefn p l) (p :: l).
Proof.
  induction l as [|x l IH]; [apply Permutation_refl|].
  cbn [insertFromRight]. destruct (existsb _ (x :: l)).
  - eapply perm_trans; [apply perm_skip, IH | apply perm_swap].
  - apply Permutation_refl.
Qed.

Lemma place_perm (e : Engine) (placed : list A) (p : A) :
  Permutation (place e comparefn placed p) (p :: placed).
Proof.
  destruct e; [apply insert_perm | apply insertFromRight_perm].
Qed.

Lemma fold_place_perm (e : Engine) (l placed : list A) :
  Permutation (fold_left (place e comparefn) l placed) (placed ++ l).
Proof.
  revert placed. induction l as [|p l IH]; intro placed; simpl.
  - rewrite app_nil_r. apply Permutation_refl.
  - eapply perm_trans; [apply IH|].
    eapply perm_trans; [apply Permutation_app_tail, place_perm|].
    simpl. apply Permutation_middle.
Qed.

Theorem sort_perm (e : Engine) (l : list A) :
  Permutation (sort e comparefn l) l.
Proof. exact (fold_place_perm e l []). Qed.

(** *** The engine that asks whether the new element is less *)

(** An element goes to the end of a list none of whose elements it
    precedes. *)
Lemma insert_last (p : A) (l : list A) :
  Forall (fun x => inOrder x p) l -> insert comparefn p l = l ++ [p].
Proof.
  induction 1 as [|x l Hx _ IH]; simpl.
  - reflexivity.
  - unfold JS.inOrder in Hx. rewrite Hx, IH. reflexivity.
Qed.

Lemma fold_insert_sorted_id (l placed : list A) :
  StronglySorted inOrder (placed ++ l) ->
  fold_left (place NewIsLess comparefn) l placed = placed ++ l.
Proof.
  revert placed. induction l as [|p l IH]; intros placed S; simpl.
  - rewrite app_nil_r. reflexivity.
  - assert (Hp : Forall (fun x => inOrder x p) placed).
    { clear IH. induction placed as [|x placed IHp]; [constructor|].
      simpl in S. inversion S as [|? ? S' F]; subst.
      constructor.
      - rewrite Forall_forall in F. apply F.
        apply in_or_app. right. left. reflexivity.
      - apply IHp. exact S'. }
    rewrite (insert_last Hp).
    rewrite IH; rewrite <- app_assoc; simpl; [reflexivity | exact S].
Qed.

(** A list that is in order is left as it is. *)
Theorem sort_sorted_id (l : list A) :
  StronglySorted inOrder l -> sort NewIsLess comparefn l = l.
Proof. intro S. exact (fold_insert_sorted_id l [] S). Qed.

Section StrictOrder.

(** Under the test [< 0] the comparator is a strict order. *)
Hypothesis precedes_asym : forall x y, precedes x y -> precedes y x -> False.
Hypothesis precedes_trans :
  forall x y z, precedes x y -> precedes y z -> precedes x z.

Lemma insert_In (p x : A) (l : list A) :
  In x (insert comparefn p l) -> x = p \/ In x l.
Proof.
  intro H. apply (Permutation_in _ (insert_perm p l)) in H.
  destruct H as [H|H]; [left; symmetry; exact H | right; exact H].
Qed.

Lemma insert_sorted (p : A) (l : list A) :
  StronglySorted inOrder l -> StronglySorted inOrder (insert comparefn p l).
Proof.
  induction 1 as [|x l S IH F]; simpl.
  - constructor; constructor.
  - destruct (ltb (comparefn p x) (Num 0)) eqn:E.
    + constructor; [constructor; assumption|].
      constructor.
      * unfold JS.inOrder.
        destruct (ltb (comparefn x p) (Num 0)) eqn:E'; auto.
        exfalso. exact (precedes_asym E E').
      * rewrite Forall_forall in *. intros y Hy. unfold JS.inOrder.
        destruct (ltb (comparefn y p) (Num 0)) eqn:E'; auto.
        assert (B : precedes y x) by exact (precedes_trans E' E).
        specialize (F y Hy). unfold JS.inOrder in F.
        unfold JS.precedes in B. congruence.
    + constructor; [exact IH|].
      rewrite Forall_forall in *. intros y Hy.
      apply insert_In in Hy. destruct Hy as [->|Hy].
      * exact E.
      * apply F. exact Hy.
Qed.

Lemma fold_insert_sorted (l placed : list A) :
  StronglySorted inOrder placed ->
  StronglySorted inOrder (fold_left (place NewIsLess comparefn) l placed).
Proof.
  revert placed. induction l as [|p l IH]; intros placed S; simpl.
  - exact S.
  - apply IH, insert_sorted, S.
Qed.

Theorem sort_sorted (l : list A) :
  StronglySorted inOrder (sort NewIsLess comparefn l).
Proof. apply fold_insert_sorted. constructor. Qed.

Theorem sort_idempotent (l : list A) :
  sort NewIsLess comparefn (sort NewIsLess comparefn l)
  = sort NewIsLess comparefn l.
Proof. apply sort_sorted_id, sort_sorted. Qed.

End StrictOrder.

(** *** The engine that asks whether a placed element is less or equal *)

Section TotalPreorder.

(** Under the test [<= 0] the comparator is a total preorder. *)
Hypothesis atMost_total : forall x y, atMost x y \/ atMost y x.
Hypothesis atMost_trans : forall x y z, atMost x y -> atMost y z -> atMost x z.

Lemma insertFromRight_sorted (p : A) (l : list A) :
  StronglySorted atMost l ->
  StronglySorted atMost (insertFromRight comparefn p l).
Proof.
  induction 1 as [|x l S IH F]; [constructor; constructor|].
  cbn [insertFromRight].
  destruct (existsb (fun s => leb (comparefn s p) (Num 0)) (x :: l)) eqn:E.
  - constructor; [exact IH|].
    apply existsb_exists in E. destruct E as (s & Hs & Hsp).
    assert (Hxp : atMost x p).
    { destruct Hs as [<-|Hs]; [exact Hsp|].
      rewrite Forall_forall in F. exact (atMost_trans (F s Hs) Hsp). }
    rewrite Forall_forall in *. intros y Hy.
    apply (Permutation_in _ (insertFromRight_perm p l)) in Hy.
    destruct Hy as [<-|Hy]; [exact Hxp | exact (F y Hy)].
  - constructor; [constructor; assumption|].
    rewrite Forall_forall. intros s Hs.
    destruct (atMost_total p s) as [H|H]; [exact H|].
    exfalso.
    assert (C : existsb (fun s => leb (comparefn s p) (Num 0)) (x :: l) = true)
      by (apply existsb_exists; exists s; split; assumption).
    congruence.
Qed.

Lemma fold_insertFromRight_sorted (l placed : list A) :
  StronglySorted atMost placed ->
  StronglySorted atMost
    (fold_left (place PlacedIsLessOrEqual comparefn) l placed).
Proof.
  revert placed. induction l as [|p l IH]; intros placed S; simpl.
  - exact S.
  - apply IH, insertFromRight_sorted, S.
Qed.

Theorem sort_from_right_sorted (l : list A) :
  StronglySorted atMost (sort PlacedIsLessOrEqual comparefn l).
Proof. apply fold_insertFromRight_sorted. constructor. Qed.

End TotalPreorder.

(** *** The engines agree on a consistent comparator *)

Section Consistent.

Hypothesis tests_agree :
  forall x y,
    ltb (comparefn x y) (Num 0) = negb (leb (comparefn y x) (Num 0)).
Hypothesis atMost_trans : forall x y z, atMost x y -> atMost y z -> atMost x z.

Lemma atMost_total (x y : A) : atMost x y \/ atMost y x.
Proof.
  unfold JS.atMost.
  destruct (leb (comparefn y x) (Num 0)) eqn:E; [right; reflexivity|].
  left. pose proof (tests_agree x y) as H. rewrite E in H. simpl in H.
  destruct (comparefn x y) as [q| | |]; simpl in *; try discriminate.
  - apply Qle_bool_iff. apply Qltb_lt in H. apply Qlt_le_weak, H.
  - reflexivity.
Qed.

Lemma insertFromRight_insert (p : A) (l : list A) :
  StronglySorted atMost l ->
  insertFromRight comparefn p l = insert comparefn p l.
Proof.
  induction 1 as [|x l S IH F]; [reflexivity|].
  cbn [insertFromRight insert]. rewrite tests_agree.
  cbn [existsb]. destruct (leb (comparefn x p) (Num 0)) eqn:E; simpl.
  - rewrite IH. reflexivity.
  - destruct (existsb (fun s => leb (comparefn s p) (Num 0)) l) eqn:E';
      [|reflexivity].
    exfalso. apply existsb_exists in E'. destruct E' as (s & Hs & Hsp).
    rewrite Forall_forall in F.
    pose proof (atMost_trans (F s Hs) Hsp) as C.
    unfold JS.atMost in C. congruence.
Qed.

Lemma fold_place_agree (l placed : list A) :
  StronglySorted atMost placed ->
  fold_left (place PlacedIsLessOrEqual comparefn) l placed
  = fold_left (place NewIsLess comparefn) l placed.
Proof.
  revert placed. induction l as [|p l IH]; intros placed S; [reflexivity|].
  simpl. rewrite <- (insertFromRight_insert p S).
  apply IH. apply insertFromRight_sorted; [exact atMost_total | | exact S].
  exact atMost_trans.
Qed.

Theorem engines_agree (l : list A) :
  sort PlacedIsLessOrEqual comparefn l = sort NewIsLess comparefn l.
Proof. apply fold_place_agree. constructor. Qed.

End Consistent.

End Sorting.

End JSFacts.

(* ================================================================== *)
(** * Properties of the rounding to binary64 *)
(* ================================================================== *)

Module Binary64Facts.
Import JS Binary64.
Local Open Scope Q_scope.

(** ** Powers of two *)

Lemma two_nonzero : ~ 2 == 0.
Proof. discriminate. Qed.

Lemma pow2_pos (k : Z) : 0 < pow2 k.
Proof. apply Qpower_0_lt. reflexivity. Qed.

Lemma pow2_plus (a b : Z) : pow2 (a + b) == pow2 a * pow2 b.
Proof. apply Qpower_plus, two_nonzero. Qed.

Lemma pow2_cancel (k : Z) : pow2 (- k) * pow2 k == 1.
Proof.
  rewrite <- pow2_plus. replace (- k + k)%Z with 0%Z by lia. reflexivity.
Qed.

Lemma pow2_le (a b : Z) : (a <= b)%Z -> pow2 a <= pow2 b.
Proof. intro H. apply Qpower_le_compat_l; [exact H | discriminate]. Qed.

Lemma pow2_lt (a b : Z) : (a < b)%Z -> pow2 a < pow2 b.
Proof. intro H. apply Qpower_lt_compat_l; [exact H | reflexivity]. Qed.

Lemma pow2_lt_inv (a b : Z) : pow2 a < pow2 b -> (a < b)%Z.
Proof. intro H. apply (Qpower_lt_compat_l_inv 2); [exact H | reflexivity]. Qed.

Lemma pow2_Z (k : Z) : (0 <= k)%Z -> pow2 k == inject_Z (2 ^ k).
Proof. intro H. unfold pow2. rewrite Zpower_Qpower by exact H. reflexivity. Qed.

(** ** The exponent *)

Lemma Qmake_le_mult (a : Q) (p : Z) (d : positive) :
  a * inject_Z (Zpos d) <= inject_Z p -> a <= p # d.
Proof.
  intro H. rewrite (Qmake_Qdiv p d).
  apply Qle_shift_div_l; [reflexivity | exact H].
Qed.

Lemma Qmake_lt_mult (a : Q) (p : Z) (d : positive) :
  inject_Z p < a * inject_Z (Zpos d) -> p # d < a.
Proof.
  intro H. rewrite (Qmake_Qdiv p d).
  apply Qlt_shift_div_r; [reflexivity | exact H].
Qed.

Lemma log2_bounds (n : Z) :
  (0 < n)%Z ->
  pow2 (Z.log2 n) <= inject_Z n /\ inject_Z n < pow2 (Z.log2 n + 1).
Proof.
  intro H. destruct (Z.log2_spec n H) as [L U].
  pose proof (Z.log2_nonneg n) as N.
  rewrite !pow2_Z by lia. split.
  - rewrite <- Zle_Qle. exact L.
  - rewrite <- Zlt_Qlt. replace (Z.log2 n + 1)%Z with (Z.succ (Z.log2 n)) by lia.
    exact U.
Qed.

Lemma exponent_le (x : Q) : 0 < x -> pow2 (exponent x) <= x.
Proof.
  intro P. unfold exponent.
  destruct (Qle_bool (pow2 (Z.log2 (Qnum x) - Z.log2 (Zpos (Qden x)))) x)
    eqn:E; [apply Qle_bool_iff, E|].
  destruct x as [p d]. cbn [Qnum Qden] in *.
  assert (Hp : (0 < p)%Z) by (unfold Qlt in P; simpl in P; lia).
  destruct (log2_bounds Hp) as [Lp _].
  destruct (log2_bounds (n := Zpos d) eq_refl) as [_ Ud].
  apply Qmake_le_mult.
  eapply Qle_trans; [|exact Lp].
  eapply Qle_trans.
  - apply Qmult_le_l; [apply pow2_pos|]. apply Qlt_le_weak, Ud.
  - rewrite <- pow2_plus.
    replace (Z.log2 p - Z.log2 (Z.pos d) - 1 + (Z.log2 (Z.pos d) + 1))%Z
      with (Z.log2 p) by lia.
    apply Qle_refl.
Qed.

Lemma exponent_lt (x : Q) : 0 < x -> x < pow2 (exponent x + 1).
Proof.
  intro P. unfold exponent.
  destruct (Qle_bool (pow2 (Z.log2 (Qnum x) - Z.log2 (Zpos (Qden x)))) x)
    eqn:E.
  - destruct x as [p d]. cbn [Qnum Qden] in *.
    assert (Hp : (0 < p)%Z) by (unfold Qlt in P; simpl in P; lia).
    destruct (log2_bounds Hp) as [_ Up].
    destruct (log2_bounds (n := Zpos d) eq_refl) as [Ld _].
    apply Qmake_lt_mult.
    eapply Qlt_le_trans; [exact Up|].
    eapply Qle_trans.
    + assert (X : pow2 (Z.log2 p + 1)
                  == pow2 (Z.log2 p - Z.log2 (Z.pos d) + 1)
                     * pow2 (Z.log2 (Z.pos d))).
      { rewrite <- pow2_plus. apply Qpower_comp; [reflexivity | lia]. }
      rewrite X. apply Qle_refl.
    + apply Qmult_le_l; [apply pow2_pos | exact Ld].
  - replace (Z.log2 (Qnum x) - Z.log2 (Z.pos (Qden x)) - 1 + 1)%Z
      with (Z.log2 (Qnum x) - Z.log2 (Z.pos (Qden x)))%Z by lia.
    apply Qnot_le_lt. intro C. apply Qle_bool_iff in C. congruence.
Qed.

(** A positive rational below [2^(k+1)] has an exponent of at most [k]. *)
Lemma exponent_below (x : Q) (k : Z) :
  0 < x -> x < pow2 (k + 1) -> (exponent x <= k)%Z.
Proof.
  intros P H.
  assert (L : pow2 (exponent x) < pow2 (k + 1)).
  { eapply Qle_lt_trans; [apply exponent_le, P | exact H]. }
  apply pow2_lt_inv in L. lia.
Qed.

Lemma exponent_above (x : Q) (k : Z) :
  0 < x -> pow2 k <= x -> (k <= exponent x)%Z.
Proof.
  intros P H.
  assert (L : pow2 k < pow2 (exponent x + 1)).
  { eapply Qle_lt_trans; [exact H | apply exponent_lt, P]. }
  apply pow2_lt_inv in L. lia.
Qed.

(** ** The nearest integer *)

Lemma nearestEven_cases (y : Q) :
  let f := Qfloor y in
  (nearestEven y = f /\ y - inject_Z f <= 1 # 2)
  \/ (nearestEven y = (f + 1)%Z /\ 1 # 2 <= y - inject_Z f).
Proof.
  intro f. unfold nearestEven. fold f.
  destruct (y - inject_Z f ?= 1 # 2) eqn:C.
  - apply Qeq_alt in C. destruct (Z.even f).
    + left. split; [reflexivity | rewrite C; apply Qle_refl].
    + right. split; [reflexivity | rewrite C; apply Qle_refl].
  - apply Qlt_alt in C. left. split; [reflexivity | apply Qlt_le_weak, C].
  - apply Qgt_alt in C. right. split; [reflexivity | apply Qlt_le_weak, C].
Qed.

Lemma floor_bounds (y : Q) :
  inject_Z (Qfloor y) <= y /\ y < inject_Z (Qfloor y) + 1.
Proof.
  pose proof (Qfloor_le y) as L. pose proof (Qlt_floor y) as U.
  rewrite inject_Z_plus in U. change (inject_Z 1) with 1 in U.
  split; assumption.
Qed.

(** The nearest integer is within a half. *)
Lemma nearestEven_near (y : Q) :
  Qabs (inject_Z (nearestEven y) - y) <= 1 # 2.
Proof.
  destruct (floor_bounds y) as [L U].
  apply Qabs_Qle_condition.
  destruct (nearestEven_cases y) as [[-> H]|[-> H]].
  - split; lra.
  - rewrite inject_Z_plus. change (inject_Z 1) with 1. split; lra.
Qed.

(** It is not above an integer that the number is not above. *)
Lemma nearestEven_le (y : Q) (M : Z) :
  y <= inject_Z M -> (nearestEven y <= M)%Z.
Proof.
  intro H.
  assert (F : (Qfloor y <= M)%Z).
  { rewrite <- (Qfloor_Z M). apply Qfloor_resp_le, H. }
  destruct (nearestEven_cases y) as [[-> _]|[-> G]]; [exact F|].
  destruct (Z.eq_dec (Qfloor y) M) as [E|E]; [|lia].
  exfalso. rewrite E in G. lra.
Qed.

Lemma nearestEven_ge (y : Q) (M : Z) :
  inject_Z M <= y -> (M <= nearestEven y)%Z.
Proof.
  intro H.
  assert (F : (M <= Qfloor y)%Z).
  { rewrite <- (Qfloor_Z M). apply Qfloor_resp_le, H. }
  destruct (nearestEven_cases y) as [[-> _]|[-> _]]; lia.
Qed.

Lemma nearestEven_Z (y : Q) (z : Z) : y == inject_Z z -> nearestEven y = z.
Proof.
  intro E. apply Z.le_antisymm.
  - apply nearestEven_le. rewrite E. apply Qle_refl.
  - apply nearestEven_ge. rewrite E. apply Qle_refl.
Qed.

(** ** The rounding of a positive rational *)

(** Either [Infinity], from [2^1024] on, or the nearest whole number of
    units. *)
Lemma roundPositive_cases (x : Q) :
  let u := unitExponent x in
  let v := inject_Z (nearestEven (x * pow2 (- u))) * pow2 u in
  (roundPositive x = Infinity /\ pow2 1024 <= v)
  \/ (roundPositive x = Num (Qred v) /\ v < pow2 1024).
Proof.
  intros u v. unfold roundPositive. fold u. fold v.
  destruct (Qle_bool (pow2 1024) (Qred v)) eqn:E.
  - left. split; [reflexivity|]. apply Qle_bool_iff in E.
    rewrite Qred_correct in E. exact E.
  - right. split; [reflexivity|]. apply Qnot_le_lt. intro C.
    rewrite <- (Qred_correct v) in C. apply Qle_bool_iff in C. congruence.
Qed.

(** Below a whole number of units that is itself below [2^1024], the
    rounded number is finite and not above it. *)
Lemma roundPositive_le (x : Q) (m t : Z) :
  0 < x -> x <= inject_Z m * pow2 t ->
  (unitExponent x <= t)%Z ->
  inject_Z m * pow2 t < pow2 1024 ->
  exists v, roundPositive x = Num v /\ 0 <= v /\ v <= inject_Z m * pow2 t.
Proof.
  intros P H U B.
  set (u := unitExponent x) in *.
  set (n := nearestEven (x * pow2 (- u))).
  assert (Hn : (n <= m * 2 ^ (t - u))%Z).
  { apply nearestEven_le. rewrite inject_Z_mult, <- pow2_Z by lia.
    replace (t - u)%Z with (t + - u)%Z by lia. rewrite pow2_plus.
    rewrite Qmult_assoc. apply Qmult_le_compat_r; [exact H|].
    apply Qlt_le_weak, pow2_pos. }
  assert (N0 : (0 <= n)%Z).
  { apply nearestEven_ge. simpl. apply Qmult_le_0_compat.
    - apply Qlt_le_weak, P.
    - apply Qlt_le_weak, pow2_pos. }
  assert (V : inject_Z n * pow2 u <= inject_Z m * pow2 t).
  { eapply Qle_trans.
    - apply Qmult_le_compat_r; [rewrite <- Zle_Qle; exact Hn|].
      apply Qlt_le_weak, pow2_pos.
    - rewrite inject_Z_mult, <- pow2_Z by lia.
      rewrite <- Qmult_assoc, <- pow2_plus.
      replace (t - u + u)%Z with t by lia. apply Qle_refl. }
  pose proof (roundPositive_cases x) as RC. cbv zeta in RC.
  fold u in RC. fold n in RC. destruct RC as [[_ O]|[E _]].
  - exfalso. apply (Qlt_irrefl (pow2 1024)).
    eapply Qle_lt_trans; [exact O|]. eapply Qle_lt_trans; [exact V | exact B].
  - eexists. split; [exact E|]. rewrite Qred_correct. split; [|exact V].
    apply Qmult_le_0_compat.
    + rewrite <- (Zle_Qle 0). exact N0.
    + apply Qlt_le_weak, pow2_pos.
Qed.

(** The rounded number is within half a unit. *)
Lemma roundPositive_near (x v : Q) :
  roundPositive x = Num v -> Qabs (v - x) <= pow2 (unitExponent x - 1).
Proof.
  intro E.
  destruct (roundPositive_cases x) as [[C _]|[C _]]; [congruence|].
  set (u := unitExponent x) in *.
  set (y := x * pow2 (- u)) in *.
  assert (V : v == inject_Z (nearestEven y) * pow2 u).
  { rewrite <- (Qred_correct (inject_Z (nearestEven y) * pow2 u)).
    assert (X : Num v = Num (Qred (inject_Z (nearestEven y) * pow2 u)))
      by congruence.
    assert (X' : v = Qred (inject_Z (nearestEven y) * pow2 u))
      by congruence.
    rewrite X'. reflexivity. }
  assert (X : v - x == (inject_Z (nearestEven y) - y) * pow2 u).
  { rewrite V. unfold y.
    setoid_replace ((inject_Z (nearestEven (x * pow2 (- u)))
                     - x * pow2 (- u)) * pow2 u)
      with (inject_Z (nearestEven (x * pow2 (- u))) * pow2 u
            - x * (pow2 (- u) * pow2 u)) by ring.
    rewrite pow2_cancel. ring. }
  rewrite X, Qabs_Qmult.
  rewrite (Qabs_pos (pow2 u)) by (apply Qlt_le_weak, pow2_pos).
  replace (u - 1)%Z with (-1 + u)%Z by lia. rewrite pow2_plus.
  apply Qmult_le_compat_r; [|apply Qlt_le_weak, pow2_pos].
  apply nearestEven_near.
Qed.

(** ** The rounding of a rational *)

Lemma round_Qeq (x y : Q) : x == y -> round x = round y.
Proof. intro H. unfold round. rewrite (Qred_complete x y H). reflexivity. Qed.

Lemma round_positive (x : Q) : 0 < x -> round x = roundPositive (Qred x).
Proof.
  intro P. unfold round.
  assert (R : 0 < Qred x) by (rewrite Qred_correct; exact P).
  destruct (Qred x) as [p d]. unfold Qlt in R. simpl in R.
  destruct p; try lia. reflexivity.
Qed.

Lemma round_negative (x : Q) :
  x < 0 -> round x = neg (roundPositive (Qred (- x))).
Proof.
  intro P. unfold round. rewrite Qred_opp.
  assert (R : Qred x < 0) by (rewrite Qred_correct; exact P).
  destruct (Qred x) as [p d]. unfold Qlt in R. simpl in R.
  destruct p; try lia. reflexivity.
Qed.

Lemma round_zero (x : Q) : x == 0 -> round x = Num 0.
Proof. intro H. rewrite (round_Qeq H). reflexivity. Qed.

Lemma Qred_inject_Z (z : Z) : Qred (inject_Z z) = inject_Z z.
Proof.
  unfold Qred, inject_Z.
  pose proof (Z.ggcd_gcd z 1) as G.
  pose proof (Z.ggcd_correct_divisors z 1) as D.
  destruct (Z.ggcd z 1) as (g, (r1, r2)). simpl in *.
  rewrite Z.gcd_1_r in G. subst g. destruct D as [D1 D2].
  assert (E1 : r1 = z) by lia. assert (E2 : r2 = 1%Z) by lia.
  rewrite E1, E2. reflexivity.
Qed.

Lemma exponent_unique (x : Q) (k : Z) :
  0 < x -> pow2 k <= x -> x < pow2 (k + 1) -> exponent x = k.
Proof.
  intros P L U. apply Z.le_antisymm.
  - apply exponent_below; assumption.
  - apply exponent_above; assumption.
Qed.

(** ** Whole numbers *)

Lemma roundPositive_whole (z : Z) :
  (0 < z < 2 ^ 53)%Z -> roundPositive (inject_Z z) = Num (inject_Z z).
Proof.
  intro H.
  assert (P : 0 < inject_Z z) by (rewrite <- (Zlt_Qlt 0); lia).
  destruct (log2_bounds (n := z)) as [L U]; [lia|].
  assert (K : (0 <= Z.log2 z < 53)%Z).
  { split; [apply Z.log2_nonneg|]. apply Z.log2_lt_pow2; lia. }
  assert (E : exponent (inject_Z z) = Z.log2 z)
    by (apply exponent_unique; assumption).
  assert (Un : unitExponent (inject_Z z) = (Z.log2 z - 52)%Z).
  { unfold unitExponent. rewrite E. lia. }
  pose proof (roundPositive_cases (inject_Z z)) as RC. cbv zeta in RC.
  rewrite Un in RC.
  assert (N : nearestEven (inject_Z z * pow2 (- (Z.log2 z - 52)))
              = (z * 2 ^ (52 - Z.log2 z))%Z).
  { apply nearestEven_Z. rewrite inject_Z_mult, <- pow2_Z by lia.
    replace (- (Z.log2 z - 52))%Z with (52 - Z.log2 z)%Z by lia.
    reflexivity. }
  rewrite N in RC.
  assert (V : inject_Z (z * 2 ^ (52 - Z.log2 z)) * pow2 (Z.log2 z - 52)
              == inject_Z z).
  { rewrite inject_Z_mult, <- pow2_Z by lia.
    rewrite <- Qmult_assoc, <- pow2_plus.
    replace (52 - Z.log2 z + (Z.log2 z - 52))%Z with 0%Z by lia.
    unfold pow2. simpl. ring. }
  destruct RC as [[_ O]|[R _]].
  - exfalso. rewrite V in O.
    assert (B : inject_Z z < pow2 53).
    { rewrite pow2_Z by lia. rewrite <- Zlt_Qlt. lia. }
    assert (M : pow2 53 < pow2 1024) by (apply pow2_lt; lia).
    lra.
  - rewrite R. f_equal. rewrite (Qred_complete _ _ V). apply Qred_inject_Z.
Qed.

(** The whole numbers up to [2^53] are numbers of the format. *)
Lemma round_whole (z : Z) :
  (Z.abs z <= 2 ^ 53)%Z -> round (inject_Z z) = Num (inject_Z z).
Proof.
  intro H.
  assert (Top : roundPositive (inject_Z (2 ^ 53)) = Num (inject_Z (2 ^ 53)))
    by (vm_compute; reflexivity).
  destruct (Z.lt_trichotomy z 0) as [N|[Z0|P]].
  - rewrite round_negative
      by (change 0 with (inject_Z 0); rewrite <- Zlt_Qlt; exact N).
    rewrite <- inject_Z_opp, Qred_inject_Z.
    assert (R : roundPositive (inject_Z (- z)) = Num (inject_Z (- z))).
    { destruct (Z.eq_dec (- z) (2 ^ 53)) as [E|E].
      - rewrite E. exact Top.
      - apply roundPositive_whole. lia. }
    rewrite R. simpl. unfold inject_Z, Qopp. simpl.
    rewrite Z.opp_involutive. reflexivity.
  - subst z. reflexivity.
  - rewrite round_positive
      by (change 0 with (inject_Z 0); rewrite <- Zlt_Qlt; exact P).
    rewrite Qred_inject_Z.
    destruct (Z.eq_dec z (2 ^ 53)) as [E|E].
    + rewrite E. exact Top.
    + apply roundPositive_whole. lia.
Qed.

(** The sum of two whole numbers is exact up to [2^53]. *)
Lemma add_whole (a b : Z) :
  (Z.abs (a + b) <= 2 ^ 53)%Z ->
  add (Num (inject_Z a)) (Num (inject_Z b)) = Num (inject_Z (a + b)).
Proof.
  intro H. unfold add. simpl.
  rewrite (round_Qeq (y := inject_Z (a + b)))
    by (rewrite inject_Z_plus; reflexivity).
  apply round_whole, H.
Qed.

(** ** The range of the format *)

Lemma maxValue_below : maxValue < pow2 1024.
Proof.
  apply Qnot_le_lt. intro C. apply Qle_bool_iff in C.
  vm_compute in C. discriminate.
Qed.

Lemma maxValue_above : pow2 1023 <= maxValue.
Proof. apply Qle_bool_iff. vm_compute. reflexivity. Qed.

Lemma unitExponent_le (x : Q) (k : Z) :
  0 < x -> x < pow2 (k + 1) -> (-1022 <= k)%Z ->
  (unitExponent x <= k - 52)%Z.
Proof.
  intros P H K. pose proof (exponent_below k P H). unfold unitExponent. lia.
Qed.

(** The significand has at most 53 binary digits. *)
Lemma significand_le (x : Q) :
  0 < x ->
  (0 <= nearestEven (x * pow2 (- unitExponent x)) <= 2 ^ 53)%Z.
Proof.
  intro P. split.
  - apply nearestEven_ge. simpl. apply Qmult_le_0_compat.
    + apply Qlt_le_weak, P.
    + apply Qlt_le_weak, pow2_pos.
  - apply nearestEven_le. rewrite <- pow2_Z by lia.
    pose proof (exponent_lt P) as U.
    assert (L : pow2 (- unitExponent x) <= pow2 (52 - exponent x)).
    { apply pow2_le. unfold unitExponent. lia. }
    eapply Qle_trans.
    + apply Qmult_le_compat_r; [apply Qlt_le_weak, U|].
      apply Qlt_le_weak, pow2_pos.
    + eapply Qle_trans.
      * apply Qmult_le_l; [apply pow2_pos | exact L].
      * rewrite <- pow2_plus.
        replace (exponent x + 1 + (52 - exponent x))%Z with 53%Z by lia.
        apply Qle_refl.
Qed.

(** A finite rounded number is not beyond the largest number. *)
Lemma roundPositive_inRange (x v : Q) :
  0 < x -> roundPositive x = Num v -> 0 <= v /\ v <= maxValue.
Proof.
  intros P E.
  pose proof (roundPositive_cases x) as RC. cbv zeta in RC.
  destruct RC as [[C _]|[C B]]; [congruence|].
  destruct (significand_le P) as [N0 N53].
  set (u := unitExponent x) in *.
  set (n := nearestEven (x * pow2 (- u))) in *.
  assert (V : v == inject_Z n * pow2 u).
  { assert (X : v = Qred (inject_Z n * pow2 u)) by congruence.
    rewrite X. apply Qred_correct. }
  rewrite V. split.
  - apply Qmult_le_0_compat.
    + rewrite <- (Zle_Qle 0). exact N0.
    + apply Qlt_le_weak, pow2_pos.
  - destruct (Z_le_gt_dec u 970) as [S|S].
    + eapply Qle_trans; [|apply maxValue_above].
      eapply Qle_trans.
      * apply Qmult_le_compat_r; [rewrite <- Zle_Qle; exact N53|].
        apply Qlt_le_weak, pow2_pos.
      * rewrite <- pow2_Z by lia. rewrite <- pow2_plus.
        apply pow2_le. lia.
    + assert (I : inject_Z n * pow2 u
                  == inject_Z (n * 2 ^ (u - 971)) * pow2 971).
      { rewrite inject_Z_mult, <- pow2_Z by lia.
        rewrite <- Qmult_assoc, <- pow2_plus.
        replace (u - 971 + 971)%Z with u by lia. reflexivity. }
      rewrite I in B |- *. unfold maxValue.
      apply Qmult_le_compat_r; [|apply Qlt_le_weak, pow2_pos].
      rewrite <- Zle_Qle.
      assert (L : inject_Z (n * 2 ^ (u - 971)) < inject_Z (2 ^ 53)).
      { rewrite <- pow2_Z by lia.
        apply (Qmult_lt_r _ _ (pow2 971)); [apply pow2_pos|].
        rewrite <- pow2_plus. exact B. }
      rewrite <- Zlt_Qlt in L. lia.
Qed.

(** Up to the largest number the rounded number is finite. *)
Lemma roundPositive_finite (x : Q) :
  0 < x -> x <= maxValue ->
  exists v, roundPositive x = Num v /\ 0 <= v /\ v <= maxValue.
Proof.
  intros P H.
  apply (roundPositive_le (m := 2 ^ 53 - 1) (t := 971) P H).
  - replace 971%Z with (1023 - 52)%Z by lia.
    apply unitExponent_le; [exact P | | lia].
    eapply Qle_lt_trans; [exact H | apply maxValue_below].
  - apply maxValue_below.
Qed.

Lemma round_inRange (q : Q) : inRange (round q).
Proof.
  destruct (Q_dec q 0) as [[N|P]|Z0].
  - rewrite (round_negative N).
    assert (P' : 0 < Qred (- q)) by (rewrite Qred_correct; lra).
    destruct (roundPositive (Qred (- q))) as [v| | |] eqn:E;
      cbn [neg inRange]; auto.
    destruct (roundPositive_inRange P' E) as [V0 V1].
    rewrite Qabs_opp, Qabs_pos; assumption.
  - rewrite (round_positive P).
    assert (P' : 0 < Qred q) by (rewrite Qred_correct; lra).
    destruct (roundPositive (Qred q)) as [v| | |] eqn:E;
      cbn [inRange]; auto.
    destruct (roundPositive_inRange P' E) as [V0 V1].
    rewrite Qabs_pos; assumption.
  - rewrite (round_zero Z0). cbn [inRange]. apply Qle_bool_iff. vm_compute.
    reflexivity.
Qed.

Lemma round_finite (q : Q) :
  Qabs q <= maxValue -> exists v, round q = Num v /\ Qabs v <= maxValue.
Proof.
  intro H. apply Qabs_Qle_condition in H. destruct H as [L U].
  destruct (Q_dec q 0) as [[N|P]|Z0].
  - rewrite (round_negative N).
    assert (P' : 0 < Qred (- q)) by (rewrite Qred_correct; lra).
    assert (H' : Qred (- q) <= maxValue) by (rewrite Qred_correct; lra).
    destruct (roundPositive_finite P' H') as (v & -> & V0 & V1).
    exists (- v). split; [reflexivity|].
    rewrite Qabs_opp, Qabs_pos; assumption.
  - rewrite (round_positive P).
    assert (P' : 0 < Qred q) by (rewrite Qred_correct; lra).
    assert (H' : Qred q <= maxValue) by (rewrite Qred_correct; lra).
    destruct (roundPositive_finite P' H') as (v & -> & V0 & V1).
    exists v. split; [reflexivity|]. rewrite Qabs_pos; assumption.
  - rewrite (round_zero Z0). exists 0. split; [reflexivity|].
    apply Qle_bool_iff. vm_compute. reflexivity.
Qed.

(** Every operation gives a number of the format. *)
Lemma rounded_inRange (a : number) : inRange (rounded a).
Proof. destruct a; cbn [rounded inRange]; auto. apply round_inRange. Qed.

(** ** The sign *)

Lemma round_nonneg (q v : Q) : 0 <= q -> round q = Num v -> 0 <= v.
Proof.
  intros H E. destruct (Q_dec q 0) as [[N|P]|Z0].
  - lra.
  - rewrite (round_positive P) in E.
    assert (P' : 0 < Qred q) by (rewrite Qred_correct; lra).
    apply (roundPositive_inRange P' E).
  - rewrite (round_zero Z0) in E. injection E as <-. apply Qle_refl.
Qed.

End Binary64Facts.

(* ================================================================== *)
(** * The trade store *)
(* ================================================================== *)

Module StoreFacts.
Import JS JSFacts Types UseTrades.

Lemma Subsequence_filter (A : Type) (f : A -> bool) (l : list A) :
  Subsequence (filter f l) l.
Proof.
  induction l as [|x l IH]; simpl.
  - constructor.
  - destruct (f x); constructor; exact IH.
Qed.

Lemma Subsequence_length_filter (A : Type) (f : A -> bool) (l' l : list A) :
  Subsequence l' l -> Forall (fun x => f x = true) l' ->
  (List.length l' <= List.length (filter f l))%nat.
Proof.
  induction 1 as [|x l' l _ IH|x l' l _ IH]; intro F; simpl.
  - lia.
  - inversion F as [|? ? Hx F']; subst. rewrite Hx. simpl.
    specialize (IH F'). lia.
  - specialize (IH F). destruct (f x); simpl; lia.
Qed.

(** Only one subsequence keeps every element that passes the test and no
    other. *)
Lemma Subsequence_filter_unique (A : Type) (f : A -> bool) (l' l : list A) :
  Subsequence l' l -> Forall (fun x => f x = true) l' ->
  List.length l' = List.length (filter f l) -> l' = filter f l.
Proof.
  induction 1 as [|x l' l _ IH|x l' l S IH]; intros F L; simpl in *.
  - reflexivity.
  - inversion F as [|? ? Hx F']; subst. rewrite Hx in *. simpl in L.
    f_equal. apply IH; [exact F' | lia].
  - destruct (f x) eqn:E.
    + pose proof (Subsequence_length_filter f S F). simpl in L. lia.
    + apply IH; assumption.
Qed.

(** C9.  [deleteTrade id0] removes exactly the records whose [id] is [id0]:
    what is left is a subsequence of the collection (the records that stay
    are unchanged and keep their order), none of its records has the
    identifier, it holds every record of the collection that has another
    identifier, and it is the only list of that kind. *)
Theorem deleteTrade_frame (id0 : string) (trades : list Trade) :
  Subsequence (deleteTrade id0 trades) trades /\
  (forall t, In t (deleteTrade id0 trades) <-> In t trades /\ id t <> id0) /\
  (List.length (deleteTrade id0 trades)
    + List.length (filter (matching id0) trades) = List.length trades)%nat /\
  (forall rest,
      Subsequence rest trades ->
      Forall (fun t => id t <> id0) rest ->
      (List.length rest + List.length (filter (matching id0) trades)
        = List.length trades)%nat ->
      rest = deleteTrade id0 trades).
Proof.
  unfold deleteTrade.
  assert (L : forall l : list Trade,
             (List.length (filter (fun t => negb (String.eqb (id t) id0)) l)
              + List.length (filter (matching id0) l) = List.length l)%nat).
  { induction l as [|x l IH]; simpl; [reflexivity|].
    unfold matching at 1. destruct (String.eqb (id x) id0); simpl; lia. }
  split; [apply Subsequence_filter|].
  split.
  { intro t. rewrite filter_In, negb_true_iff.
    split; intros [H1 H2]; split; try exact H1.
    - intro E. apply String.eqb_eq in E. congruence.
    - destruct (String.eqb (id t) id0) eqn:E; [|reflexivity].
      apply String.eqb_eq in E. contradiction. }
  split; [apply L|].
  intros rest S F Len.
  apply Subsequence_filter_unique.
  - exact S.
  - eapply Forall_impl; [|exact F]. intros t N. simpl in N.
    apply negb_true_iff.
    destruct (String.eqb (id t) id0) eqn:E; [|reflexivity].
    apply String.eqb_eq in E. contradiction.
  - specialize (L trades). lia.
Qed.

(** C10.  After [addTrade] the collection holds the records it held before
    and the new record, which carries the fresh identifier and the data of
    the form, and it is ordered by date, newest first, whatever the order of
    the collection was before and whichever engine sorts. *)
Theorem addTrade_keeps_all_newest_first (h : Host) (freshId : string)
    (tradeData : TradeData) (prevTrades : list Trade) :
  let newTrade := {| id := freshId; data := tradeData |} in
  Permutation (addTrade h freshId tradeData prevTrades)
              (newTrade :: prevTrades)
  /\ StronglySorted newestFirst (addTrade h freshId tradeData prevTrades).
Proof.
  intro newTrade. unfold addTrade. fold newTrade. split.
  - eapply perm_trans; [apply sort_perm|].
    apply Permutation_sym, Permutation_cons_append.
  - destruct (engine h).
    + eapply StronglySorted_weaken; [|apply sort_sorted].
      * intros x y H. unfold inOrder in H.
        apply ltb_inject_Z_false in H. unfold newestFirst. lia.
      * intros x y B1 B2. unfold precedes in *.
        apply ltb_inject_Z in B1. apply ltb_inject_Z in B2. lia.
      * intros x y z B1 B2. unfold precedes in *.
        apply ltb_inject_Z. apply ltb_inject_Z in B1.
        apply ltb_inject_Z in B2. lia.
    + eapply StronglySorted_weaken; [|apply sort_from_right_sorted].
      * intros x y H. unfold atMost in H.
        apply leb_inject_Z in H. unfold newestFirst. lia.
      * intros x y. unfold atMost. rewrite !leb_inject_Z. lia.
      * intros x y z. unfold atMost. rewrite !leb_inject_Z. lia.
Qed.

End StoreFacts.

(* ================================================================== *)
(** * A stop loss counts for -1 *)
(* ================================================================== *)

Module TotalFacts.
Import JS JSFacts Types Dashboard.
Import Binary64 Binary64Facts Dashboard64.

(** ** Lists that agree record by record *)

Section Alike.
Variable A : Type.
Variable R : A -> A -> Prop.

Lemma alike_app (l1 l1' l2 l2' : list A) :
  Forall2 R l1 l1' -> Forall2 R l2 l2' -> Forall2 R (l1 ++ l2) (l1' ++ l2').
Proof. apply Forall2_app. Qed.

Lemma alike_filter (f : A -> bool) (l l' : list A) :
  (forall x x', R x x' -> f x = f x') ->
  Forall2 R l l' -> Forall2 R (filter f l) (filter f l').
Proof.
  intros Hf. induction 1 as [|x x' l l' Hx _ IH]; simpl; [constructor|].
  rewrite <- (Hf _ _ Hx). destruct (f x); [constructor|]; assumption.
Qed.

Lemma alike_fold (B : Type) (g : B -> A -> B) (l l' : list A) :
  (forall x x', R x x' -> forall b, g b x = g b x') ->
  Forall2 R l l' -> forall b, fold_left g l b = fold_left g l' b.
Proof.
  intros Hg. induction 1 as [|x x' l l' Hx _ IH]; intro b; simpl;
    [reflexivity|].
  rewrite (Hg _ _ Hx). apply IH.
Qed.

Variable comparefn : A -> A -> number.
Hypothesis comparefn_alike :
  forall x x' y y', R x x' -> R y y' -> comparefn x y = comparefn x' y'.

Lemma alike_insert (p p' : A) (l l' : list A) :
  R p p' -> Forall2 R l l' ->
  Forall2 R (insert comparefn p l) (insert comparefn p' l').
Proof.
  intros Hp. induction 1 as [|x x' l l' Hx Hl IH]; simpl.
  - repeat constructor. exact Hp.
  - rewrite <- (comparefn_alike Hp Hx).
    destruct (ltb (comparefn p x) (Num 0)); repeat constructor; assumption.
Qed.

Lemma alike_existsb (p p' : A) (l l' : list A) :
  R p p' -> Forall2 R l l' ->
  existsb (fun s => leb (comparefn s p) (Num 0)) l
  = existsb (fun s => leb (comparefn s p') (Num 0)) l'.
Proof.
  intros Hp. induction 1 as [|x x' l l' Hx Hl IH]; simpl; [reflexivity|].
  rewrite <- (comparefn_alike Hx Hp), IH. reflexivity.
Qed.

Lemma alike_insertFromRight (p p' : A) (l l' : list A) :
  R p p' -> Forall2 R l l' ->
  Forall2 R (insertFromRight comparefn p l) (insertFromRight comparefn p' l').
Proof.
  intros Hp. induction 1 as [|x x' l l' Hx Hl IH].
  - repeat constructor. exact Hp.
  - cbn [insertFromRight].
    rewrite <- (@alike_existsb p p' (x :: l) (x' :: l') Hp
                  (Forall2_cons _ _ Hx Hl)).
    destruct (existsb _ (x :: l)); repeat constructor; assumption.
Qed.

Lemma alike_sort (e : Engine) (l l' : list A) :
  Forall2 R l l' -> Forall2 R (sort e comparefn l) (sort e comparefn l').
Proof.
  unfold sort. intro H.
  assert (G : forall placed placed', Forall2 R placed placed' ->
              Forall2 R (fold_left (place e comparefn) l placed)
                        (fold_left (place e comparefn) l' placed')).
  { induction H as [|x x' l l' Hx _ IH]; intros placed placed' Hp; simpl;
      [exact Hp|].
    apply IH. destruct e; simpl.
    - apply alike_insert; assumption.
    - apply alike_insertFromRight; assumption. }
  apply G. constructor.
Qed.

End Alike.

Lemma countAlike_refl (a : Trade) : countAlike a a.
Proof. repeat split. Qed.

Lemma countAlike_all (l : list Trade) : Forall2 countAlike l l.
Proof.
  induction l; constructor; [apply countAlike_refl | assumption].
Qed.

Lemma rrReducer_stop (t : Trade) (acc : number) :
  outcome t = SL -> rrReducer acc t = add acc (Num (-1)).
Proof.
  intro H. unfold rrReducer. rewrite H.
  destruct (rr t); simpl; reflexivity.
Qed.

Lemma tradeRR_stop (t : Trade) : outcome t = SL -> tradeRR t = Num (-1).
Proof.
  intro H. unfold tradeRR. rewrite H. destruct (rr t); reflexivity.
Qed.

Lemma stops_countAlike (t t' : Trade) :
  outcome t = SL -> outcome t' = SL -> date t' = date t -> countAlike t' t.
Proof.
  intros H H' D. repeat split.
  - exact D.
  - congruence.
  - rewrite !tradeRR_stop by assumption. reflexivity.
  - intro acc. rewrite !rrReducer_stop by assumption. reflexivity.
Qed.

Lemma stats_alike (l l' : list Trade) :
  Forall2 countAlike l l' -> stats l = stats l'.
Proof.
  intro H.
  assert (T : Forall2 countAlike (filter isTaken l) (filter isTaken l')).
  { apply alike_filter; [|exact H].
    intros x x' (_ & O & _). unfold isTaken. rewrite O. reflexivity. }
  assert (C : forall o,
             List.length (filter (fun t : Trade => Outcome_eqb (outcome t) o) l)
             = List.length
                 (filter (fun t : Trade => Outcome_eqb (outcome t) o) l')).
  { intro o. apply (Forall2_length (R := countAlike)).
    apply alike_filter; [|exact H].
    intros x x' (_ & O & _). rewrite O. reflexivity. }
  unfold stats.
  rewrite (Forall2_length T), (C TP), (C SL), (C BE).
  rewrite (@alike_fold _ countAlike _ rrReducer _ _
             (fun x x' Hx => proj2 (proj2 (proj2 Hx))) T).
  reflexivity.
Qed.

Lemma cumulativeRRData_alike (h : Host) (l l' : list Trade) :
  Forall2 countAlike l l' -> cumulativeRRData h l = cumulativeRRData h l'.
Proof.
  intro H.
  assert (T : Forall2 countAlike (filter isTaken l) (filter isTaken l')).
  { apply alike_filter; [|exact H].
    intros x x' (_ & O & _). unfold isTaken. rewrite O. reflexivity. }
  unfold cumulativeRRData.
  set (byDate := fun a b : Trade => Num (inject_Z (date a - date b))).
  assert (S : Forall2 countAlike (sort (engine h) byDate (filter isTaken l))
                      (sort (engine h) byDate (filter isTaken l'))).
  { apply alike_sort; [|exact T].
    intros x x' y y' (Dx & _) (Dy & _). unfold byDate.
    rewrite Dx, Dy. reflexivity. }
  cbv zeta. rewrite (Forall2_length S).
  rewrite (@alike_fold _ countAlike _ addToDay _ _ ltac:(
             intros x x' (D & _ & V & _) m; unfold addToDay, dayKey;
             rewrite D, V; reflexivity) S).
  reflexivity.
Qed.

(** C1.  A record whose outcome is [SL] counts for exactly -1 in
    [totalRREarned] and in the equity curve, with or without an entered risk
    multiple and whatever its value: the reducer of [stats] adds -1 to the
    running sum, so [totalRREarned] of a collection is the sum up to the
    record, plus -1, continued over the records behind it; the [tradeRR] of
    the curve is -1; [stats] and [cumulativeRRData] of a collection do not
    change when the record is replaced by any other [SL] record of the same
    date; and a collection of the record alone has [totalRREarned] -1 and a
    curve from 0 to -1. *)
Theorem stop_loss_is_minus_one (h : Host) (t : Trade) :
  outcome t = SL ->
  (forall acc, rrReducer acc t = add acc (Num (-1)))
  /\ tradeRR t = Num (-1)
  /\ (forall before after : list Trade,
         totalRREarned (stats (before ++ t :: after))
         = fold_left rrReducer (filter isTaken after)
             (add (totalRREarned (stats before)) (Num (-1))))
  /\ (forall (t' : Trade) (before after : list Trade),
         outcome t' = SL -> date t' = date t ->
         stats (before ++ t' :: after) = stats (before ++ t :: after)
         /\ cumulativeRRData h (before ++ t' :: after)
            = cumulativeRRData h (before ++ t :: after))
  /\ totalRREarned (stats [t]) = Num (-1)
  /\ cumulativeRRData h [t]
     = [ {| cp_name := Start; cp_cumulativeRR := Num 0 |};
         {| cp_name := OnDay (dayKey t); cp_cumulativeRR := Num (-1) |} ].
Proof.
  intro H.
  assert (K : isTaken t = true) by (unfold isTaken; rewrite H; reflexivity).
  split; [intro acc; apply rrReducer_stop, H|].
  split; [apply tradeRR_stop, H|].
  split; [|split; [|split]].
  - intros before after. unfold stats. cbn [totalRREarned].
    rewrite filter_app. cbn [filter]. rewrite K.
    rewrite fold_left_app. cbn [fold_left].
    rewrite rrReducer_stop by exact H. reflexivity.
  - intros t' before after H' D.
    assert (A : Forall2 countAlike (before ++ t' :: after)
                        (before ++ t :: after)).
    { apply Forall2_app; [apply countAlike_all|].
      constructor; [apply stops_countAlike; assumption|apply countAlike_all]. }
    split; [apply stats_alike, A | apply cumulativeRRData_alike, A].
  - unfold stats. cbn [totalRREarned filter]. rewrite K. cbn [fold_left].
    rewrite rrReducer_stop by exact H. reflexivity.
  - unfold cumulativeRRData. cbn [filter]. rewrite K.
    destruct (engine h); cbn; rewrite tradeRR_stop by exact H; reflexivity.
Qed.

Lemma stop_loss_is_minus_one_witness :
  rr Examples.overridden = Some 3
  /\ totalRREarned (stats [Examples.overridden]) = Num (-1)
  /\ rrReducer (Num 2) Examples.overridden = Num 1.
Proof.
  split; [reflexivity|].
  destruct (stop_loss_is_minus_one Examples.berlin Examples.overridden)
    as (H1 & _ & _ & _ & H2 & _); [reflexivity|].
  split; [exact H2|]. rewrite (H1 (Num 2)). reflexivity.
Defined.

End TotalFacts.

(* ================================================================== *)
(** * The equity curve and the total *)
(* ================================================================== *)

Module EquityFacts.
Import JS JSFacts Types Dashboard Spec.
Import Binary64 Binary64Facts Dashboard64.
Local Open Scope Z_scope.

Lemma last_cons (A : Type) (x d : A) (l : list A) :
  last (x :: l) d = last l x.
Proof.
  revert x d. induction l as [|y l IH]; intros x d; [reflexivity|].
  change (last (x :: y :: l) d) with (last (y :: l) d).
  rewrite (IH y d), (IH y x). reflexivity.
Qed.

Lemma no_taken_trade (trades : list Trade) :
  Forall (fun t : Trade => outcome t = NO_TRADE) trades ->
  filter isTaken trades = [].
Proof.
  induction 1 as [|t l Ht _ IH]; simpl; [reflexivity|].
  unfold isTaken at 1. rewrite Ht. exact IH.
Qed.

Lemma some_taken_trade (trades : list Trade) :
  Exists (fun t : Trade => outcome t <> NO_TRADE) trades ->
  filter isTaken trades <> [].
Proof.
  induction 1 as [t l Ht|t l _ IH]; simpl; unfold isTaken at 1.
  - destruct (outcome t); simpl; try discriminate. congruence.
  - destruct (negb (Outcome_eqb (outcome t) NO_TRADE)); [discriminate|].
    exact IH.
Qed.

Lemma whole_wholePart (a : number) :
  whole a -> a = Num (inject_Z (wholePart a)).
Proof. intros [z ->]. reflexivity. Qed.

Lemma magnitude_wholePart (a : number) :
  magnitude a = Z.abs (wholePart a).
Proof. destruct a; reflexivity. Qed.

Lemma magnitude_nonneg (a : number) : 0 <= magnitude a.
Proof. rewrite magnitude_wholePart. apply Z.abs_nonneg. Qed.

Lemma totalMagnitude_nonneg (l : list Trade) : 0 <= totalMagnitude l.
Proof.
  induction l as [|t l IH]; simpl; [lia|].
  pose proof (magnitude_nonneg (tradeRR t)). lia.
Qed.

Lemma mapMagnitude_nonneg (m : Map number) : 0 <= mapMagnitude m.
Proof.
  induction m as [|e m IH]; simpl; [lia|].
  pose proof (magnitude_nonneg (snd e)). lia.
Qed.

Lemma mapWhole_le (m : Map number) : Z.abs (mapWhole m) <= mapMagnitude m.
Proof.
  induction m as [|e m IH]; simpl; [lia|].
  rewrite magnitude_wholePart. lia.
Qed.

Lemma totalWhole_perm (l l' : list Trade) :
  Permutation l l' -> totalWhole l = totalWhole l'.
Proof.
  induction 1 as [|x l l' _ IH|x y l|l l' l'' _ IH1 _ IH2]; simpl; lia.
Qed.

Lemma totalMagnitude_perm (l l' : list Trade) :
  Permutation l l' -> totalMagnitude l = totalMagnitude l'.
Proof.
  induction 1 as [|x l l' _ IH|x y l|l l' l'' _ IH1 _ IH2]; simpl; lia.
Qed.

(** The reducer of [stats] adds the risk multiple of the curve, except that
    it leaves the sum alone where the curve adds 0. *)
Lemma rrReducer_tradeRR (acc : number) (t : Trade) :
  rrReducer acc t = add acc (tradeRR t)
  \/ (rrReducer acc t = acc /\ tradeRR t = Num 0).
Proof.
  unfold rrReducer, tradeRR.
  destruct (rr t) as [r|]; [left; reflexivity|].
  destruct (Outcome_eqb (outcome t) TP), (truthy (slSize t)),
    (truthy (tpSize t)), (gtb (ofField (slSize t)) (Num 0)); cbn [andb];
    try (left; reflexivity).
  all: destruct (Outcome_eqb (outcome t) SL); [left; reflexivity|].
  all: right; split; reflexivity.
Qed.

Lemma rrReducer_whole (a : Z) (t : Trade) :
  whole (tradeRR t) ->
  Z.abs (a + wholePart (tradeRR t)) <= 2 ^ 53 ->
  rrReducer (Num (inject_Z a)) t
  = Num (inject_Z (a + wholePart (tradeRR t))).
Proof.
  intros W B. destruct (rrReducer_tradeRR (Num (inject_Z a)) t) as [E|[E Z0]].
  - rewrite E. rewrite (whole_wholePart W) at 1. apply add_whole, B.
  - rewrite E, Z0. simpl. rewrite Z.add_0_r. reflexivity.
Qed.

Lemma fold_rrReducer_whole (l : list Trade) (a : Z) :
  Forall (fun t => whole (tradeRR t)) l ->
  Z.abs a + totalMagnitude l <= 2 ^ 53 ->
  fold_left rrReducer l (Num (inject_Z a))
  = Num (inject_Z (a + totalWhole l)).
Proof.
  intro F. revert a. induction F as [|t l W _ IH]; intros a B; simpl.
  - rewrite Z.add_0_r. reflexivity.
  - cbn [totalMagnitude fold_right] in B. fold (totalMagnitude l) in B.
    rewrite magnitude_wholePart in B.
    pose proof (totalMagnitude_nonneg l).
    rewrite (@rrReducer_whole a t W) by lia.
    rewrite IH by lia. f_equal. f_equal. lia.
Qed.

Lemma orZero_whole (z : Z) :
  orZero (Some (Num (inject_Z z))) = Num (inject_Z z).
Proof.
  simpl. destruct (Qeq_bool (inject_Z z) 0) eqn:E; [|reflexivity].
  apply Qeq_bool_iff in E. unfold Qeq in E. simpl in E.
  replace z with 0 by lia. reflexivity.
Qed.

(** Writing [current + r] under a key keeps the values whole and adds [r]
    to their sum. *)
Lemma set_whole (m : Map number) (k : Z) (r : Z) :
  allWhole m ->
  mapMagnitude m + Z.abs r <= 2 ^ 53 ->
  let m' := set m k (add (orZero (get m k)) (Num (inject_Z r))) in
  allWhole m' /\ mapWhole m' = mapWhole m + r
  /\ mapMagnitude m' <= mapMagnitude m + Z.abs r.
Proof.
  unfold allWhole. intro F. induction F as [|[k' v] m Hv F IH]; intro B.
  - cbn [get set orZero]. change (Num 0) with (Num (inject_Z 0)).
    rewrite (@add_whole 0 r) by (simpl in B; lia).
    cbn. repeat split.
    + repeat constructor. exists r. reflexivity.
    + lia.
    + lia.
  - cbn [get set]. cbn [mapMagnitude fold_right snd] in B.
    fold (mapMagnitude m) in B.
    pose proof (mapMagnitude_nonneg m) as P.
    destruct (k' =? k).
    + simpl in Hv. destruct Hv as [z ->]. rewrite orZero_whole.
      change (magnitude (Num (inject_Z z))) with (Z.abs z) in B.
      rewrite add_whole by lia.
      cbn. repeat split.
      * constructor; [exists (z + r); reflexivity | exact F].
      * fold (mapWhole m). lia.
      * fold (mapMagnitude m). lia.
    + pose proof (magnitude_nonneg v) as Pv.
      destruct IH as (I1 & I2 & I3); [lia|].
      cbn. repeat split.
      * constructor; [exact Hv | exact I1].
      * fold (mapWhole m).
        change (fold_right (fun e s => wholePart (snd e) + s) 0
                  (set m k (add (orZero (get m k)) (Num (inject_Z r)))))
          with (mapWhole (set m k (add (orZero (get m k))
                                       (Num (inject_Z r))))).
        lia.
      * fold (mapMagnitude m).
        change (fold_right (fun e s => magnitude (snd e) + s) 0
                  (set m k (add (orZero (get m k)) (Num (inject_Z r)))))
          with (mapMagnitude (set m k (add (orZero (get m k))
                                           (Num (inject_Z r))))).
        lia.
Qed.

Lemma fold_addToDay_whole (l : list Trade) (m : Map number) :
  allWhole m ->
  Forall (fun t => whole (tradeRR t)) l ->
  mapMagnitude m + totalMagnitude l <= 2 ^ 53 ->
  let m' := fold_left addToDay l m in
  allWhole m' /\ mapWhole m' = mapWhole m + totalWhole l
  /\ mapMagnitude m' <= mapMagnitude m + totalMagnitude l.
Proof.
  intros Fm Fl. revert m Fm. induction Fl as [|t l W _ IH]; intros m Fm B.
  - simpl. repeat split; [exact Fm | lia | lia].
  - cbn [fold_left]. cbn [totalMagnitude fold_right] in B.
    fold (totalMagnitude l) in B.
    pose proof (totalMagnitude_nonneg l) as P.
    cbn [totalWhole totalMagnitude fold_right].
    fold (totalWhole l). fold (totalMagnitude l).
    destruct W as [z Ez].
    assert (A : addToDay m t
                = set m (dayKey t)
                    (add (orZero (get m (dayKey t))) (Num (inject_Z z))))
      by (unfold addToDay; rewrite Ez; reflexivity).
    rewrite A. rewrite Ez in *.
    change (magnitude (Num (inject_Z z))) with (Z.abs z) in *.
    change (wholePart (Num (inject_Z z))) with z.
    destruct (@set_whole m (dayKey t) z Fm) as (S1 & S2 & S3); [lia|].
    destruct (IH _ S1) as (I1 & I2 & I3); [lia|].
    cbv zeta. repeat split; [exact I1 | lia | lia].
Qed.

(** With whole values, the last point of the loop carries the start value
    plus the sum of the map. *)
Lemma chartData_whole (m : Map number) (c : Z) (d : PointName) :
  allWhole m ->
  Z.abs c + mapMagnitude m <= 2 ^ 53 ->
  cp_cumulativeRR
    (last (chartData (Num (inject_Z c)) m)
          {| cp_name := d; cp_cumulativeRR := Num (inject_Z c) |})
  = Num (inject_Z (c + mapWhole m)).
Proof.
  unfold allWhole. intro F. revert c d.
  induction F as [|[k v] m Hv F IH]; intros c d B.
  - simpl. rewrite Z.add_0_r. reflexivity.
  - simpl in Hv. destruct Hv as [z ->]. cbn [chartData].
    cbn [mapMagnitude fold_right snd] in B. fold (mapMagnitude m) in B.
    change (magnitude (Num (inject_Z z))) with (Z.abs z) in B.
    pose proof (mapMagnitude_nonneg m) as P.
    rewrite add_whole by lia. rewrite last_cons.
    rewrite IH by lia.
    cbn [mapWhole fold_right snd wholePart inject_Z Qnum].
    fold (mapWhole m). f_equal. f_equal. lia.
Qed.

(** C2, as amended.  When no record of the collection is a trade (the
    collection is empty, or holds [NO_TRADE] records only) the curve has no
    point at all.  When some record is a trade, the first point of the curve
    is [Start] with the value 0; the value of its last point is
    [totalRREarned] of the same collection when every risk multiple is a
    whole number and their magnitudes add up to at most 2^53, so that no
    addition rounds.  The two are sums of the same risk multiples in a
    different order, and they differ when an addition rounds: for the risk
    multiples 0.1, 0.2 and 0.3 on three days, newest first, the curve ends at
    0.6 and [totalRREarned] is 0.6000000000000001. *)
Theorem curve_starts_at_zero_ends_at_total (h : Host) (trades : list Trade) :
  (Forall (fun t : Trade => outcome t = NO_TRADE) trades ->
   cumulativeRRData h trades = [])
  /\
  (Exists (fun t : Trade => outcome t <> NO_TRADE) trades ->
   hd_error (cumulativeRRData h trades) = Some startPoint
   /\ (Forall (fun t : Trade => whole (tradeRR t)) (filter isTaken trades) ->
       totalMagnitude (filter isTaken trades) <= 2 ^ 53 ->
       cp_cumulativeRR (last (cumulativeRRData h trades) startPoint)
       = totalRREarned (stats trades)))
  /\
  (cp_cumulativeRR (last (cumulativeRRData h Examples.tenths) startPoint)
   = Num (5404319552844595 # 9007199254740992)
   /\ totalRREarned (stats Examples.tenths)
      = Num (1351079888211149 # 2251799813685248)).
Proof.
  split; [|split].
  - intro H. unfold cumulativeRRData. rewrite (no_taken_trade H). reflexivity.
  - intro H. apply some_taken_trade in H. unfold cumulativeRRData.
    set (byDate := fun a b : Trade => Num (inject_Z (date a - date b))).
    pose proof (sort_perm byDate (engine h) (filter isTaken trades)) as P.
    destruct (sort (engine h) byDate (filter isTaken trades))
      as [|t sorted] eqn:E.
    + apply Permutation_nil in P. contradiction.
    + simpl List.length. cbv iota beta zeta. simpl Nat.eqb. cbv iota.
      split; [reflexivity|].
      intros W B. rewrite last_cons.
      assert (W' : Forall (fun t : Trade => whole (tradeRR t)) (t :: sorted)).
      { rewrite Forall_forall in *. intros x Hx. apply W.
        apply (Permutation_in _ P), Hx. }
      rewrite <- (totalMagnitude_perm P) in B.
      destruct (@fold_addToDay_whole (t :: sorted) [] (Forall_nil _) W')
        as (F1 & F2 & F3);
        [change (mapMagnitude []) with 0; lia|].
      change (mapMagnitude []) with 0 in F3.
      change (mapWhole []) with 0 in F2.
      change (Num 0) with (Num (inject_Z 0)).
      change startPoint
        with {| cp_name := Start; cp_cumulativeRR := Num (inject_Z 0) |}.
      rewrite chartData_whole; [|exact F1|simpl Z.abs; lia].
      rewrite F2. unfold stats. cbn [totalRREarned].
      change (Num 0) with (Num (inject_Z 0)).
      rewrite fold_rrReducer_whole.
      * rewrite (totalWhole_perm P). reflexivity.
      * exact W.
      * rewrite <- (totalMagnitude_perm P). simpl Z.abs. lia.
  - split; destruct h as [tz lc nt dt e]; destruct e; vm_compute; reflexivity.
Qed.

Lemma curve_starts_at_zero_ends_at_total_witness :
  hd_error (cumulativeRRData Examples.berlin Examples.journal)
  = Some startPoint
  /\ cp_cumulativeRR
       (last (cumulativeRRData Examples.berlin Examples.journal) startPoint)
     = totalRREarned (stats Examples.journal).
Proof.
  destruct (curve_starts_at_zero_ends_at_total Examples.berlin
              Examples.journal) as (_ & H & _).
  destruct H as [H1 H2]; [apply Exists_cons_hd; discriminate|].
  split; [exact H1|].
  apply H2; [|vm_compute; discriminate].
  repeat constructor; eexists; vm_compute; reflexivity.
Defined.

(** C2, as stated, fails: the curve of the empty collection, and of a
    collection of [NO_TRADE] records, has no first point; and the curve of
    the risk multiples 0.1, 0.2 and 0.3 does not end at [totalRREarned]. *)
Lemma curve_of_no_trade_is_empty :
  hd_error (cumulativeRRData Examples.berlin []) <> Some startPoint
  /\ hd_error (cumulativeRRData Examples.berlin [Examples.wednesday])
     <> Some startPoint
  /\ cp_cumulativeRR
       (last (cumulativeRRData Examples.berlin Examples.tenths) startPoint)
     <> totalRREarned (stats Examples.tenths).
Proof.
  split; [|split]; vm_compute; discriminate.
Qed.

End EquityFacts.

(* ================================================================== *)
(** * Counts, quotients and the text of a rate *)
(* ================================================================== *)

Module GuardFacts.
Import JS JSFacts Types Dashboard.
Local Open Scope string_scope.

Lemma decided_are_taken (trades : list Trade) :
  (List.length (filter (fun t : Trade => Outcome_eqb (outcome t) TP) trades)
   + List.length (filter (fun t : Trade => Outcome_eqb (outcome t) SL) trades)
   <= List.length (filter isTaken trades))%nat.
Proof.
  induction trades as [|t l IH]; simpl; [lia|].
  unfold isTaken at 1. destruct (outcome t); simpl; lia.
Qed.

Lemma ofNat_nonzero (n : nat) :
  n <> 0%nat -> Qeq_bool (inject_Z (Z.of_nat n)) 0 = false.
Proof.
  intro H. apply Qeq_bool_false. unfold Qeq. simpl. lia.
Qed.

Lemma div_ofNat (a : Q) (n : nat) :
  n <> 0%nat -> div (Num a) (ofNat n) = Num (a / inject_Z (Z.of_nat n)).
Proof.
  intro H. unfold div, ofNat. rewrite (ofNat_nonzero H). reflexivity.
Qed.

(** The text of a digit is not padded. *)
Lemma padStart_digit (d : Z) :
  (0 <= d < 10)%Z -> padStart 1 (decimal d) = decimal d.
Proof.
  intro H.
  assert (C : (d = 0 \/ d = 1 \/ d = 2 \/ d = 3 \/ d = 4 \/ d = 5 \/ d = 6
               \/ d = 7 \/ d = 8 \/ d = 9)%Z) by lia.
  repeat (destruct C as [-> | C]; [reflexivity|]). subst d. reflexivity.
Qed.

(** [toFixed(1)] of a number that is not negative: the tenths nearest to it,
    written with one decimal. *)
Lemma toFixed_one_decimal (x : Q) :
  0 <= x ->
  toFixed (Num x) 1
  = decimal (nearest x 1 / 10) ++ "." ++ decimal (nearest x 1 mod 10).
Proof.
  intro H. unfold toFixed.
  replace (Qltb x 0) with false
    by (symmetry; apply Qltb_false; exact H).
  unfold fixedDigits. change (pow10 1) with 10%Z.
  rewrite padStart_digit; [reflexivity|].
  apply Z.mod_pos_bound. lia.
Qed.

(** The rounding of [toFixed(1)] moves a number by at most a twentieth. *)
Lemma nearest_tenth (x : Q) :
  - (1 # 20) < inject_Z (nearest x 1) / 10 - x <= 1 # 20.
Proof.
  unfold nearest. change (pow10 1) with 10%Z.
  set (y := x * inject_Z 10 + (1 # 2)).
  pose proof (Qfloor_le y) as Hle.
  pose proof (Qlt_floor y) as Hlt.
  rewrite inject_Z_plus in Hlt.
  set (n := inject_Z (Qfloor y)) in *.
  change (inject_Z 1) with 1 in Hlt.
  assert (Hy : y == 10 * x + (1 # 2)) by (unfold y; ring).
  rewrite Hy in Hle, Hlt.
  split.
  - apply Qlt_minus_iff. apply Qlt_minus_iff in Hlt.
    setoid_replace (n / 10 - x + - - (1 # 20))
      with ((n + 1 + - (10 * x + (1 # 2))) / 10) by field.
    apply Qlt_shift_div_l; [reflexivity|]. rewrite Qmult_0_l. exact Hlt.
  - apply Qle_minus_iff. apply Qle_minus_iff in Hle.
    setoid_replace ((1 # 20) + - (n / 10 - x))
      with ((10 * x + (1 # 2) + - n) / 10) by field.
    apply Qle_shift_div_l; [reflexivity|]. rewrite Qmult_0_l. exact Hle.
Qed.

Lemma percentage_nonneg (w d : nat) :
  0 <= inject_Z (Z.of_nat w) / inject_Z (Z.of_nat d) * 100.
Proof.
  apply Qmult_le_0_compat; [|discriminate].
  apply Qmult_le_0_compat.
  - unfold Qle. simpl. lia.
  - apply Qinv_le_0_compat. unfold Qle. simpl. lia.
Qed.

(** The index of the day bucket of a trade is the index of a day name. *)
Lemma dayIndex_range (h : Host) (t : Trade) : (0 <= dayIndex h t < 7)%Z.
Proof.
  unfold dayIndex, getUTCDay, WeekDay. apply Z.mod_pos_bound. lia.
Qed.

End GuardFacts.

(* ================================================================== *)
(** * Every statistic is guarded *)
(* ================================================================== *)

Module DefinedFacts.
Import JS JSFacts Types Dashboard Spec GuardFacts.
Import Binary64 Binary64Facts Dashboard64.
Local Open Scope Q_scope.

Lemma div_by_count_finite (q : Q) (n : nat) :
  Qabs q <= maxValue -> n <> 0%nat ->
  exists v, Binary64.div (Num q) (ofNat n) = Num v /\ Qabs v <= maxValue.
Proof.
  intros H N. unfold Binary64.div. rewrite (div_ofNat _ N). cbn [rounded].
  apply round_finite.
  assert (D : 1 <= inject_Z (Z.of_nat n)).
  { change 1 with (inject_Z 1). rewrite <- Zle_Qle. lia. }
  apply Qabs_Qle_condition in H. destruct H as [L U].
  assert (M0 : 0 <= maxValue) by (apply Qle_bool_iff; vm_compute; reflexivity).
  assert (G : 0 <= maxValue * (inject_Z (Z.of_nat n) - 1)).
  { apply Qmult_le_0_compat; lra. }
  apply Qabs_Qle_condition. split.
  - apply Qle_shift_div_l; [lra|]. lra.
  - apply Qle_shift_div_r; [lra|]. lra.
Qed.

Lemma pow2_0 : pow2 0 == 1.
Proof. reflexivity. Qed.

Lemma pow2_m53 : pow2 (-53) == 1 # 9007199254740992.
Proof. reflexivity. Qed.

Lemma pow2_m47 : pow2 (-47) == 1 # 140737488355328.
Proof. reflexivity. Qed.

Lemma pow2_m45 : pow2 (-45) == 1 # 35184372088832.
Proof. reflexivity. Qed.

(** The rounding of a rational between 0 and a whole number [m] up to
    [2^52]: between 0 and [m], within [2^(k-53)] when [m < 2^(k+1)]. *)
Lemma round_between (x : Q) (m k : Z) :
  0 <= x -> x <= inject_Z m -> (m < 2 ^ (k + 1))%Z -> (0 <= k <= 51)%Z ->
  exists v, round x = Num v /\ 0 <= v /\ v <= inject_Z m
            /\ Qabs (v - x) <= pow2 (k - 53).
Proof.
  intros X0 Xm M K.
  destruct (Q_dec x 0) as [[N|P]|Z0]; [lra | |].
  - rewrite (round_positive P).
    assert (P' : 0 < Qred x) by (rewrite Qred_correct; exact P).
    assert (B : Qred x < pow2 (k + 1)).
    { rewrite Qred_correct. eapply Qle_lt_trans; [exact Xm|].
      rewrite pow2_Z by lia. rewrite <- Zlt_Qlt. exact M. }
    assert (U : (unitExponent (Qred x) <= k - 52)%Z)
      by (apply unitExponent_le; [exact P' | exact B | lia]).
    destruct (@roundPositive_le (Qred x) m 0 P') as (v & E & V0 & V1).
    + rewrite Qred_correct, pow2_0. lra.
    + lia.
    + rewrite pow2_0.
      assert (T : inject_Z m < pow2 (k + 1)).
      { rewrite pow2_Z by lia. rewrite <- Zlt_Qlt. exact M. }
      assert (T' : pow2 (k + 1) < pow2 1024) by (apply pow2_lt; lia).
      lra.
    + exists v. split; [exact E|]. split; [exact V0|].
      rewrite pow2_0 in V1. split; [lra|].
      pose proof (@roundPositive_near _ _ E) as R.
      setoid_replace (v - x) with (v - Qred x)
        by (rewrite Qred_correct; reflexivity).
      eapply Qle_trans; [exact R|]. apply pow2_le. lia.
  - rewrite (round_zero Z0). exists 0. split; [reflexivity|].
    split; [lra|]. split; [lra|].
    setoid_replace (0 - x) with 0 by lra.
    apply Qlt_le_weak, pow2_pos.
Qed.

(** The percentage of [w] in [d]: a finite number between 0 and 100,
    within [2^-45] of the exact percentage. *)
Lemma percentage_in_binary64 (w d : nat) :
  (0 < d)%nat -> (w <= d)%nat ->
  exists q,
    Binary64.mul (Binary64.div (ofNat w) (ofNat d)) (Num 100) = Num q
    /\ 0 <= q /\ q <= 100
    /\ Qabs (q - inject_Z (Z.of_nat w) / inject_Z (Z.of_nat d) * 100)
       <= pow2 (-45).
Proof.
  intros D W.
  assert (N : d <> 0%nat) by lia.
  unfold Binary64.div. change (ofNat w) with (Num (inject_Z (Z.of_nat w))).
  rewrite (div_ofNat _ N). cbn [rounded].
  set (x := inject_Z (Z.of_nat w) / inject_Z (Z.of_nat d)).
  assert (Dp : 0 < inject_Z (Z.of_nat d)).
  { change 0 with (inject_Z 0). rewrite <- Zlt_Qlt. lia. }
  assert (X0 : 0 <= x).
  { unfold x. apply Qle_shift_div_l; [exact Dp|].
    rewrite Qmult_0_l. change 0 with (inject_Z 0). rewrite <- Zle_Qle. lia. }
  assert (X1 : x <= inject_Z 1).
  { unfold x. apply Qle_shift_div_r; [exact Dp|].
    change (inject_Z 1) with 1. rewrite Qmult_1_l. rewrite <- Zle_Qle. lia. }
  destruct (@round_between x 1 0 X0 X1) as (r & -> & R0 & R1 & Rn);
    [reflexivity | lia |].
  change (inject_Z 1) with 1 in R1.
  unfold Binary64.mul. cbn [JS.mul rounded].
  assert (Y0 : 0 <= r * 100) by lra.
  assert (Y1 : r * 100 <= inject_Z 100)
    by (change (inject_Z 100) with 100; lra).
  destruct (@round_between (r * 100) 100 6 Y0 Y1) as (q & -> & Q0 & Q1 & Qn);
    [reflexivity | lia |].
  change (inject_Z 100) with 100 in Q1.
  exists q. split; [reflexivity|]. split; [exact Q0|]. split; [exact Q1|].
  change (0 - 53)%Z with (-53)%Z in Rn. change (6 - 53)%Z with (-47)%Z in Qn.
  rewrite pow2_m53 in Rn. rewrite pow2_m47 in Qn. rewrite pow2_m45.
  apply Qabs_Qle_condition in Rn. apply Qabs_Qle_condition in Qn.
  apply Qabs_Qle_condition. split; lra.
Qed.

(** The tenths of a percentage. *)
Lemma nearest_percentage (q : Q) :
  0 <= q -> q <= 100 -> (0 <= nearest q 1 <= 1000)%Z.
Proof.
  intros L U. unfold nearest. change (pow10 1) with 10%Z.
  split.
  - change 0%Z with (Qfloor 0). apply Qfloor_resp_le.
    change (inject_Z 10) with 10. lra.
  - change 1000%Z with (Qfloor (inject_Z 1000)) at 1.
    apply Z.lt_succ_r. rewrite Qfloor_Z.
    apply Z.le_lt_trans with (m := Qfloor (100 * 10 + (1 # 2))).
    + apply Qfloor_resp_le. change (inject_Z 10) with 10. lra.
    + reflexivity.
Qed.

(** The reducer of [stats] keeps the sum a value of the format. *)
Lemma rrReducer_inRange (acc : number) (t : Trade) :
  inRange acc -> inRange (rrReducer acc t).
Proof.
  intro H. unfold rrReducer.
  destruct (rr t); [apply rounded_inRange|].
  destruct (_ && _)%bool; [apply rounded_inRange|].
  destruct (Outcome_eqb (outcome t) SL); [apply rounded_inRange | exact H].
Qed.

Lemma fold_rrReducer_inRange (l : list Trade) (acc : number) :
  inRange acc -> inRange (fold_left rrReducer l acc).
Proof.
  revert acc. induction l as [|t l IH]; intros acc H; simpl; [exact H|].
  apply IH, rrReducer_inRange, H.
Qed.

Lemma totalRREarned_inRange (trades : list Trade) :
  inRange (totalRREarned (stats trades)).
Proof.
  unfold stats. cbn [totalRREarned]. apply fold_rrReducer_inRange.
  cbn [inRange]. apply Qabs_Qle_condition.
  assert (M0 : 0 <= maxValue) by (apply Qle_bool_iff; vm_compute; reflexivity).
  split; lra.
Qed.

(** The guarded ratio of the weekly and of the day-of-week chart is a
    percentage. *)
Lemma winPercent_percentage (w l : nat) :
  exists q, winPercent w l = Num q /\ 0 <= q /\ q <= 100.
Proof.
  unfold winPercent. destruct (Nat.ltb_spec 0 (w + l)) as [H|H].
  - destruct (@percentage_in_binary64 w (w + l)) as (q & E & L & U & _);
      [lia | lia |].
    exists q. auto.
  - exists 0. split; [reflexivity|]. split; lra.
Qed.

Lemma weekly_rates_percentages (h : Host) (trades : list Trade) :
  Forall (fun b => exists q, wb_winRate b = Num q /\ 0 <= q /\ q <= 100)
         (weeklyWinRateData h trades).
Proof.
  unfold weeklyWinRateData.
  eapply Permutation_Forall; [apply Permutation_sym, sort_perm|].
  apply Forall_forall. intros b Hb. apply in_map_iff in Hb.
  destruct Hb as ([week data] & <- & _). simpl. apply winPercent_percentage.
Qed.

Lemma weekday_rates_percentages (h : Host) (trades : list Trade) :
  Forall (fun p => exists q, dp_winRate p = Num q /\ 0 <= q /\ q <= 100)
         (performanceByDayData h trades).
Proof.
  unfold performanceByDayData.
  apply Forall_forall. intros p Hp. apply in_map_iff in Hp.
  destruct Hp as (day & <- & _). simpl. apply winPercent_percentage.
Qed.

(** C3, as amended.  For every collection the counts are the lengths of the
    filtered collections.  [winRate] is a text: [0.0] when no record is a win
    or a loss, and otherwise [toFixed(1)] of the binary64 percentage of wins
    among wins and losses, which is a finite number from 0 to 100 within
    2^-45 of the exact percentage; the text shows the tenths nearest to that
    number.  [averageRR] is the binary64 quotient of [totalRREarned] by
    [totalTrades], or 0 when [totalTrades] is 0, and it is finite whenever
    [totalRREarned] is.  The Win Rate of every bar of the weekly and of the
    day-of-week chart is a finite number from 0 to 100, and the day bucket
    of a trade always is one of the seven day names.  The statistics of the
    empty collection are the fallback values.  [totalRREarned] is finite
    unless the sum overflows: two break-evens entered with -1e308 and a take
    profit of 1e308 against a stop of 1e-10 give [NaN] for [totalRREarned]
    and for [averageRR]. *)
Theorem stats_defined_and_guarded (trades : list Trade) :
  let s := stats trades in
  let decided := (wins s + losses s)%nat in
  let percentage :=
    inject_Z (Z.of_nat (wins s)) / inject_Z (Z.of_nat decided) * 100 in
  (totalTrades s = List.length (filter isTaken trades)
   /\ wins s
      = List.length
          (filter (fun t : Trade => Outcome_eqb (outcome t) TP) trades)
   /\ losses s
      = List.length
          (filter (fun t : Trade => Outcome_eqb (outcome t) SL) trades)
   /\ breakEvens s
      = List.length
          (filter (fun t : Trade => Outcome_eqb (outcome t) BE) trades))
  /\ (decided = 0%nat -> winRate s = "0.0"%string)
  /\ (decided <> 0%nat ->
      exists q,
        mul (div (ofNat (wins s)) (ofNat decided)) (Num 100) = Num q
        /\ 0 <= q /\ q <= 100
        /\ Qabs (q - percentage) <= pow2 (-45)
        /\ (0 <= nearest q 1 <= 1000)%Z
        /\ - (1 # 20) < inject_Z (nearest q 1) / 10 - q <= 1 # 20
        /\ winRate s
           = (decimal (nearest q 1 / 10) ++ "."
              ++ decimal (nearest q 1 mod 10))%string)
  /\ averageRR s
     = (if (totalTrades s =? 0)%nat then Num 0
        else div (totalRREarned s) (ofNat (totalTrades s)))
  /\ (finite (totalRREarned s) -> finite (averageRR s))
  /\ (forall h : Host,
         Forall (fun b => exists q, wb_winRate b = Num q /\ 0 <= q /\ q <= 100)
                (weeklyWinRateData h trades)
         /\ Forall (fun p => exists q,
                        dp_winRate p = Num q /\ 0 <= q /\ q <= 100)
                   (performanceByDayData h trades)
         /\ Forall (fun t => (0 <= dayIndex h t < 7)%Z) trades)
  /\ stats []
     = {| totalTrades := 0; wins := 0; losses := 0; breakEvens := 0;
          winRate := "0.0"; totalRREarned := Num 0; averageRR := Num 0 |}
  /\ totalRREarned (stats Examples.overflowing) = NaN
  /\ averageRR (stats Examples.overflowing) = NaN.
Proof.
  intros s decided percentage.
  pose proof (decided_are_taken trades) as Hle.
  change (decided <= totalTrades s)%nat in Hle.
  assert (A : averageRR s
              = (if (totalTrades s =? 0)%nat then Num 0
                 else div (totalRREarned s) (ofNat (totalTrades s)))).
  { unfold s, stats. cbn [averageRR totalTrades totalRREarned].
    destruct (List.length (filter isTaken trades)); reflexivity. }
  split; [repeat split|].
  split; [|split; [|split; [exact A|split; [|split; [|split; [|split]]]]]].
  - intro E. unfold s, stats. cbn [winRate].
    change (List.length (filter (fun t : Trade => Outcome_eqb (outcome t) TP)
                                trades)) with (wins s).
    change (List.length (filter (fun t : Trade => Outcome_eqb (outcome t) SL)
                                trades)) with (losses s).
    change (wins s + losses s)%nat with decided.
    rewrite E, andb_false_r. reflexivity.
  - intro E.
    destruct (@percentage_in_binary64 (wins s) decided) as (q & Eq & L & U & C);
      [lia | unfold decided; lia |].
    exists q. split; [exact Eq|]. split; [exact L|]. split; [exact U|].
    split; [exact C|]. split; [apply nearest_percentage; assumption|].
    split; [apply nearest_tenth|].
    unfold s at 1, stats. cbn [winRate].
    change (List.length (filter (fun t : Trade => Outcome_eqb (outcome t) TP)
                                trades)) with (wins s).
    change (List.length (filter (fun t : Trade => Outcome_eqb (outcome t) SL)
                                trades)) with (losses s).
    change (wins s + losses s)%nat with decided.
    change (List.length (filter isTaken trades)) with (totalTrades s).
    replace (0 <? totalTrades s)%nat with true
      by (symmetry; apply Nat.ltb_lt; lia).
    replace (0 <? decided)%nat with true
      by (symmetry; apply Nat.ltb_lt; lia).
    cbn [andb]. rewrite Eq. apply toFixed_one_decimal, L.
  - intro F. rewrite A.
    destruct (Nat.eqb_spec (totalTrades s) 0) as [E|E]; [exact I|].
    pose proof (totalRREarned_inRange trades) as R. fold s in R.
    destruct (totalRREarned s) as [q| | |]; try contradiction.
    destruct (@div_by_count_finite q _ R E) as (v & -> & _). exact I.
  - intro h. split; [apply weekly_rates_percentages|].
    split; [apply weekday_rates_percentages|].
    apply Forall_forall. intros t _. apply dayIndex_range.
  - reflexivity.
  - vm_compute. reflexivity.
  - vm_compute. reflexivity.
Qed.

(** C3, as stated, fails.  [winRate] is a text with one decimal, not the
    percentage: with one win and two losses it is [33.3], and with 23 wins
    and 57 losses it is [28.7], the percentage being 28.75.  A statistic
    need not be a number: the sum of the third collection overflows. *)
Lemma winRate_is_a_rounded_text :
  winRate (stats Examples.oneInThree) = "33.3"%string
  /\ ~ same (rounded (parseFloat (winRate (stats Examples.oneInThree))))
            (mul (div (ofNat 1) (ofNat (1 + 2))) (Num 100))
  /\ winRate (stats Examples.twentyThreeInEighty) = "28.7"%string
  /\ totalRREarned (stats Examples.overflowing) = NaN.
Proof.
  split; [vm_compute; reflexivity|].
  split; [vm_compute; discriminate|].
  split; vm_compute; reflexivity.
Qed.

End DefinedFacts.

(* ================================================================== *)
(** * The stop-sweep analysis gate *)
(* ================================================================== *)

Module AnalysisFacts.
Import JS Types GeminiService.
Local Open Scope string_scope.

(** A record passes the test of the [filter] when it has a note that is
    not empty once trimmed. *)
Lemma hasSweepNote_iff (t : Trade) :
  hasSweepNote t = true
  <-> exists s, slSweepNotes t = Some s /\ trim s <> "".
Proof.
  unfold hasSweepNote. destruct (slSweepNotes t) as [s|]; simpl.
  - split.
    + intro H. exists s. split; [reflexivity|].
      apply andb_true_iff in H. destruct H as [_ H].
      apply negb_true_iff in H. intro E. rewrite E in H. discriminate.
    + intros (s' & [= <-] & N).
      destruct s as [|c s]; [exfalso; apply N; reflexivity|].
      simpl andb. apply negb_true_iff.
      destruct (String.eqb_spec (trim (String c s)) ""); congruence.
  - split; [discriminate|]. intros (s & E & _). discriminate.
Qed.

(** C5, as amended.  When the credential is configured: with fewer than 3
    records whose stop-sweep note is not empty once trimmed, the function
    resolves with the fixed message and sends nothing to the analysis
    service; with 3 or more it sends exactly one request, the prompt built
    from those notes, and resolves with the answer of the service (or with
    the fixed failure message when the call fails).  When the credential is
    missing or empty, the function rejects with the configuration error and
    sends nothing, whatever the collection holds. *)
Theorem sweep_analysis_gate (env : Env) (trades : list Trade) :
  let qualifying := filter hasSweepNote trades in
  (forall t, In t qualifying
             <-> In t trades
                 /\ exists s, slSweepNotes t = Some s /\ trim s <> "")
  /\ (truthyStr (API_KEY env) = true ->
      ((List.length qualifying < 3)%nat ->
       analyzeSlSweepsWithAI env trades
       = {| result := Resolved notEnoughNotes; sent := [] |})
      /\ ((3 <= List.length qualifying)%nat ->
          let contents := fullPrompt (map bullet qualifying) in
          sent (analyzeSlSweepsWithAI env trades) = [contents]
          /\ result (analyzeSlSweepsWithAI env trades)
             = Resolved match generateContent env contents with
                        | Some text => text
                        | None => sweepFailure
                        end))
  /\ (truthyStr (API_KEY env) = false ->
      analyzeSlSweepsWithAI env trades
      = {| result := Rejected "API_KEY environment variable not set";
           sent := [] |}).
Proof.
  intros qualifying. split; [|split].
  - intro t. unfold qualifying. rewrite filter_In, hasSweepNote_iff.
    reflexivity.
  - intro K. split.
    + intro L. unfold analyzeSlSweepsWithAI. rewrite K. simpl negb. cbv iota.
      rewrite length_map. fold qualifying.
      replace (List.length qualifying <? 3)%nat with true
        by (symmetry; apply Nat.ltb_lt; exact L).
      reflexivity.
    + intros L contents. unfold analyzeSlSweepsWithAI. rewrite K.
      simpl negb. cbv iota. rewrite length_map. fold qualifying.
      replace (List.length qualifying <? 3)%nat with false
        by (symmetry; apply Nat.ltb_ge; exact L).
      fold contents.
      destruct (generateContent env contents); split; reflexivity.
  - intro K. unfold analyzeSlSweepsWithAI. rewrite K. reflexivity.
Qed.

Lemma sweep_analysis_gate_witness :
  analyzeSlSweepsWithAI Examples.configured Examples.twoNotes
  = {| result := Resolved notEnoughNotes; sent := [] |}
  /\ List.length (sent (analyzeSlSweepsWithAI Examples.configured
                                              Examples.threeNotes)) = 1%nat
  /\ analyzeSlSweepsWithAI Examples.unconfigured Examples.threeNotes
     = {| result := Rejected "API_KEY environment variable not set";
          sent := [] |}.
Proof.
  split; [|split].
  - destruct (sweep_analysis_gate Examples.configured Examples.twoNotes)
      as (_ & H & _).
    destruct H as [H _]; [reflexivity|]. apply H. vm_compute. lia.
  - destruct (sweep_analysis_gate Examples.configured Examples.threeNotes)
      as (_ & H & _).
    destruct H as [_ H]; [reflexivity|].
    destruct H as [H _]; [vm_compute; lia|].
    rewrite H. reflexivity.
  - destruct (sweep_analysis_gate Examples.unconfigured Examples.threeNotes)
      as (_ & _ & H).
    apply H. reflexivity.
Defined.

(** C5, as stated, fails: without a credential the function rejects, even
    for a collection with no note at all. *)
Lemma sweep_gate_needs_the_credential :
  result (analyzeSlSweepsWithAI Examples.unconfigured [])
  = Rejected "API_KEY environment variable not set"
  /\ result (analyzeSlSweepsWithAI Examples.unconfigured [])
     <> Resolved notEnoughNotes.
Proof.
  split; [reflexivity | discriminate].
Qed.

End AnalysisFacts.

(* ================================================================== *)
(** * The filters of the table *)
(* ================================================================== *)

Module FilterFacts.
Import JS JSFacts Types Dashboard.
Local Open Scope string_scope.





End FilterFacts.

(* ================================================================== *)
(** * The calendar day of a record *)
(* ================================================================== *)

Module DayFacts.
Import JS JSFacts Types Dashboard GuardFacts.
Local Open Scope Z_scope.
Local Open Scope string_scope.

(** The weekday filter and the day-of-week chart read the weekday of a
    record in the same way. *)
Lemma onDayOfWeek_dayIndex (h : Host) (k : string) (t : Trade) :
  onDayOfWeek h k t = String.eqb (decimal (dayIndex h t)) k.
Proof. reflexivity. Qed.

(** For the five values of the [select], the filter passes the records
    whose day bucket has that index. *)
Lemma onDayOfWeek_iff (h : Host) (k : Z) (t : Trade) :
  1 <= k <= 5 ->
  (onDayOfWeek h (decimal k) t = true <-> dayIndex h t = k).
Proof.
  intro K. rewrite onDayOfWeek_dayIndex.
  pose proof (dayIndex_range h t) as R.
  assert (Ck : k = 1 \/ k = 2 \/ k = 3 \/ k = 4 \/ k = 5) by lia.
  assert (Ci : dayIndex h t = 0 \/ dayIndex h t = 1 \/ dayIndex h t = 2
               \/ dayIndex h t = 3 \/ dayIndex h t = 4 \/ dayIndex h t = 5
               \/ dayIndex h t = 6) by lia.
  clear K R.
  repeat (destruct Ck as [-> | Ck]);
    try subst k;
    repeat (destruct Ci as [-> | Ci]);
    try rewrite Ci;
    (split; [intro H; first [reflexivity | discriminate H]
            | intro H; first [reflexivity | discriminate H]]).
Qed.

Lemma Day_shift (d r : Z) : 0 <= r < msPerDay -> Day (d * msPerDay + r) = d.
Proof.
  intro H. unfold Day. symmetry.
  apply (Z.div_unique _ _ d r); [left; exact H | ring].
Qed.

(** At UTC and west of it, down to a day, the day bucket of a record is the
    weekday of its calendar day. *)
Lemma dayIndex_west_of_utc (h : Host) (t : Trade) :
  -1440 < tz h <= 0 -> dayIndex h t = WeekDay (date t).
Proof.
  intro H. unfold dayIndex, getUTCDay, WeekDay, ofUTCParts, UTC, MakeDate.
  replace (Day (date t) * msPerDay + 0 - tz h * msPerMinute)
    with (Day (date t) * msPerDay + - tz h * msPerMinute) by ring.
  rewrite Day_shift; [reflexivity|].
  unfold msPerDay, msPerMinute. lia.
Qed.

(** East of UTC, up to a day, it is the weekday before. *)
Lemma dayIndex_east_of_utc (h : Host) (t : Trade) :
  0 < tz h <= 1440 -> dayIndex h t = (WeekDay (date t) + 6) mod 7.
Proof.
  intro H. unfold dayIndex, getUTCDay, WeekDay, ofUTCParts, UTC, MakeDate.
  replace (Day (date t) * msPerDay + 0 - tz h * msPerMinute)
    with ((Day (date t) - 1) * msPerDay + (msPerDay - tz h * msPerMinute))
    by ring.
  rewrite Day_shift; [|unfold msPerDay, msPerMinute; lia].
  generalize (Day (date t)). intro d.
  Z.to_euclidean_division_equations. lia.
Qed.

Lemma TimeWithinDay_shift (d r : Z) :
  0 <= r < msPerDay -> TimeWithinDay (d * msPerDay + r) = r.
Proof.
  intro H. unfold TimeWithinDay. symmetry.
  apply (Z.mod_unique _ _ d r); [left; exact H | ring].
Qed.

(** For a record with a date-only text: at UTC and east of it the week key
    is the Sunday on or before its calendar day. *)
Lemma weekKey_east_of_utc (h : Host) (t : Trade) (d : Z) :
  date t = MakeDate d 0 -> 0 <= tz h < 1440 ->
  weekKey h t = d - WeekDay (date t).
Proof.
  intros E H.
  unfold weekKey, isoDay, setDateBack, getDay, WeekDay, LocalTime, UTC.
  rewrite E.
  assert (R : 0 <= tz h * msPerMinute < msPerDay)
    by (unfold msPerDay, msPerMinute; lia).
  assert (D0 : Day (MakeDate d 0) = d)
    by (apply Day_shift; unfold msPerDay; lia).
  assert (L : Day (MakeDate d 0 + tz h * msPerMinute) = d)
    by (unfold MakeDate; rewrite Z.add_0_r; apply Day_shift, R).
  assert (W : TimeWithinDay (MakeDate d 0 + tz h * msPerMinute)
              = tz h * msPerMinute)
    by (unfold MakeDate; rewrite Z.add_0_r; apply TimeWithinDay_shift, R).
  rewrite L, W, D0. unfold MakeDate.
  replace ((d - (d + 4) mod 7) * msPerDay + tz h * msPerMinute
           - tz h * msPerMinute)
    with ((d - (d + 4) mod 7) * msPerDay + 0) by ring.
  apply Day_shift. unfold msPerDay. lia.
Qed.

(** West of UTC the local day is the day before, and the week key is the
    calendar day less the weekday of the day before: for a Monday it is the
    Monday itself. *)
Lemma weekKey_west_of_utc (h : Host) (t : Trade) (d : Z) :
  date t = MakeDate d 0 -> -1440 <= tz h < 0 ->
  weekKey h t = d - (WeekDay (date t) + 6) mod 7.
Proof.
  intros E H.
  unfold weekKey, isoDay, setDateBack, getDay, WeekDay, LocalTime, UTC.
  rewrite E.
  assert (R : 0 <= msPerDay + tz h * msPerMinute < msPerDay)
    by (unfold msPerDay, msPerMinute; lia).
  assert (D0 : Day (MakeDate d 0) = d)
    by (apply Day_shift; unfold msPerDay; lia).
  assert (S : MakeDate d 0 + tz h * msPerMinute
              = (d - 1) * msPerDay + (msPerDay + tz h * msPerMinute))
    by (unfold MakeDate; ring).
  rewrite S, (Day_shift (d - 1) R), (TimeWithinDay_shift (d - 1) R), D0.
  unfold MakeDate.
  replace ((d - 1 - (d - 1 + 4) mod 7) * msPerDay
           + (msPerDay + tz h * msPerMinute) - tz h * msPerMinute)
    with ((d - (d - 1 + 4) mod 7) * msPerDay + 0) by ring.
  rewrite Day_shift by (unfold msPerDay; lia).
  f_equal. Z.to_euclidean_division_equations. lia.
Qed.

(** In a browser at UTC the three charts attribute a record to one
    calendar day. *)
Lemma one_day_rule_at_utc (h : Host) (t : Trade) :
  tz h = 0 ->
  dayIndex h t = WeekDay (date t)
  /\ weekKey h t = dayKey t - WeekDay (date t).
Proof.
  intro H. split; [apply dayIndex_west_of_utc; lia|].
  unfold weekKey, dayKey, isoDay, setDateBack, getDay, LocalTime, UTC,
    MakeDate, TimeWithinDay.
  rewrite H. rewrite !Z.mul_0_l, !Z.add_0_r, Z.sub_0_r.
  apply Day_shift. apply Z.mod_pos_bound. reflexivity.
Qed.

(** C4: what the code does for the record of Monday 3 June 2024.  Its day
    key in the daily chart is 3 June, a Monday.  Two hours east of UTC the
    day-of-week chart counts it under Sunday, so that it is in none of the
    five bars; five hours west of UTC the weekly chart files it under the
    week that starts on Monday 3 June, and two hours east of UTC under the
    week of Sunday 2 June. *)
Theorem day_rules_disagree_off_utc :
  let t := Examples.monday in
  dayKey t = dayNumber 2024 6 3
  /\ WeekDay (date t) = 1
  /\ dayIndex Examples.berlin t = 0
  /\ dayIndex Examples.newYork t = 1
  /\ weekKey Examples.berlin t = dayNumber 2024 6 2
  /\ weekKey Examples.newYork t = dayNumber 2024 6 3
  /\ dailyTpslData Examples.berlin [t]
     = [{| db_name := dayNumber 2024 6 3; db_TP := 1; db_SL := 0 |}]
  /\ map dp_trades (performanceByDayData Examples.berlin [t])
     = [0; 0; 0; 0; 0]%nat
  /\ map dp_trades (performanceByDayData Examples.newYork [t])
     = [1; 0; 0; 0; 0]%nat
  /\ map wb_name (weeklyWinRateData Examples.newYork [t])
     = [dayNumber 2024 6 3].
Proof.
  vm_compute. repeat split.
Qed.

(** C6: what the weekday filter does two hours east of UTC.  The record of
    Monday 3 June 2024 does not pass the filter for Monday, the record of
    Tuesday 4 June does, and the table filtered on Monday shows the record
    of Tuesday. *)
Theorem weekday_filter_is_a_day_early_east_of_utc :
  WeekDay (date Examples.monday) = 1
  /\ onDayOfWeek Examples.berlin "1" Examples.monday = false
  /\ WeekDay (date Examples.tuesday) = 2
  /\ onDayOfWeek Examples.berlin "1" Examples.tuesday = true
  /\ filteredAndSortedTrades Examples.berlin Examples.journal
       (Examples.onlyDayOfWeek "1") Examples.byDateDescending
     = [Examples.tuesday].
Proof.
  vm_compute. repeat split.
Qed.

End DayFacts.

(* ================================================================== *)
(** * The sort of the table *)
(* ================================================================== *)

Module SortFacts.
Import JS JSFacts Types Dashboard.
Local Open Scope Z_scope.

(** Reads a test [ltb _ (Num 0) = true] on a result of the comparator as an
    inequality. *)
Ltac read_sign H :=
  match type of H with
  | ltb (Num 1) _ = true => discriminate H
  | ltb (Num (-1)) _ = true => clear H
  | ltb (neg (sub _ _)) _ = true => apply ltb_neg_sub in H
  | ltb (sub _ _) _ = true => apply ltb_sub in H
  | ltb (neg (Num (inject_Z _))) _ = true => apply ltb_neg_inject_Z in H
  | ltb (Num (inject_Z _)) _ = true => apply ltb_inject_Z in H
  end.

Ltac show_sign :=
  match goal with
  | |- ltb (Num (-1)) _ = true => reflexivity
  | |- ltb (neg (sub _ _)) _ = true => apply ltb_neg_sub
  | |- ltb (sub _ _) _ = true => apply ltb_sub
  | |- ltb (neg (Num (inject_Z _))) _ = true => apply ltb_neg_inject_Z
  | |- ltb (Num (inject_Z _)) _ = true => apply ltb_inject_Z
  end.

(** Splits on the optional fields that the comparator reads. *)
Ltac split_fields :=
  repeat match goal with
    | |- context [match ?o with Some _ => _ | None => _ end] =>
        destruct o
    end.

Section Collation.

(** The collation of the host is a consistent comparator, as the language
    requires of [localeCompare]. *)
Variable h : Host.
Hypothesis collation_antisym :
  forall a b, localeCompare h a b < 0 <-> 0 < localeCompare h b a.
Hypothesis collation_trans :
  forall a b c,
    localeCompare h a b < 0 -> localeCompare h b c < 0 ->
    localeCompare h a c < 0.

Lemma compareTrades_asym (sortConfig : SortConfig) (x y : Trade) :
  precedes (compareTrades h sortConfig) x y ->
  precedes (compareTrades h sortConfig) y x -> False.
Proof.
  unfold precedes, compareTrades. destruct sortConfig as [k d].
  cbv beta iota zeta delta [key direction property optional isDateKey].
  destruct k, d; split_fields; cbv beta iota zeta delta [String_];
    intros H1 H2; read_sign H1; read_sign H2.
  all: try lia.
  all: try (apply collation_antisym in H1; lia).
  all: exact (Qlt_irrefl _ (Qlt_trans _ _ _ H1 H2)).
Qed.

Lemma compareTrades_trans (sortConfig : SortConfig) (x y z : Trade) :
  precedes (compareTrades h sortConfig) x y ->
  precedes (compareTrades h sortConfig) y z ->
  precedes (compareTrades h sortConfig) x z.
Proof.
  unfold precedes, compareTrades. destruct sortConfig as [k d].
  cbv beta iota zeta delta [key direction property optional isDateKey].
  destruct k, d; split_fields; cbv beta iota zeta delta [String_];
    intros H1 H2; read_sign H1; read_sign H2; show_sign.
  all: try lia.
  all: try (eapply collation_trans; eassumption).
  all: try (apply collation_antisym; apply collation_antisym in H1;
            apply collation_antisym in H2; eapply collation_trans;
            eassumption).
  all: eapply Qlt_trans; eassumption.
Qed.

(** With the engine that asks whether the new element is less, sorting
    is idempotent for every list, key and direction: the test never tells
    apart the answers 1 and 0 that the comparator gives for two records
    without a value. *)
Lemma sorting_again_same_when_new_is_less (sortConfig : SortConfig)
    (l : list Trade) :
  engine h = NewIsLess ->
  sort (engine h) (compareTrades h sortConfig)
       (sort (engine h) (compareTrades h sortConfig) l)
  = sort (engine h) (compareTrades h sortConfig) l.
Proof.
  intros ->. apply sort_idempotent.
  - apply compareTrades_asym.
  - apply compareTrades_trans.
Qed.

End Collation.

(** The order of the code units is a consistent comparator. *)
Lemma codeUnitOrder_Lt (a b : string) :
  Examples.codeUnitOrder a b < 0 <-> String_as_OT.compare a b = Lt.
Proof.
  unfold Examples.codeUnitOrder.
  destruct (String_as_OT.compare a b); split; intro H;
    try reflexivity; try discriminate; lia.
Qed.

Lemma codeUnitOrder_Gt (a b : string) :
  0 < Examples.codeUnitOrder a b <-> String_as_OT.compare a b = Gt.
Proof.
  unfold Examples.codeUnitOrder.
  destruct (String_as_OT.compare a b); split; intro H;
    try reflexivity; try discriminate; lia.
Qed.

Lemma codeUnitOrder_antisym (a b : string) :
  Examples.codeUnitOrder a b < 0 <-> 0 < Examples.codeUnitOrder b a.
Proof.
  rewrite codeUnitOrder_Lt, codeUnitOrder_Gt.
  pose proof (@StrictOrder_Irreflexive _ _ String_as_OT.lt_strorder) as Irr.
  pose proof (@StrictOrder_Transitive _ _ String_as_OT.lt_strorder) as Tr.
  split; intro H.
  - destruct (String_as_OT.compare_spec b a) as [E|L|G]; [| |reflexivity].
    + change (b = a) in E. subst b. exfalso. exact (Irr _ H).
    + exfalso. exact (Irr _ (Tr _ _ _ H L)).
  - destruct (String_as_OT.compare_spec b a) as [E|L|G];
      try discriminate. exact G.
Qed.

Lemma codeUnitOrder_trans (a b c : string) :
  Examples.codeUnitOrder a b < 0 -> Examples.codeUnitOrder b c < 0 ->
  Examples.codeUnitOrder a c < 0.
Proof.
  rewrite !codeUnitOrder_Lt.
  exact (@StrictOrder_Transitive _ _ String_as_OT.lt_strorder a b c).
Qed.

(** In the sample browser, with the first engine, sorting again changes
    nothing. *)
Lemma sorting_again_same_in_berlin (sortConfig : SortConfig)
    (l : list Trade) :
  sort NewIsLess (compareTrades Examples.berlin sortConfig)
       (sort NewIsLess (compareTrades Examples.berlin sortConfig) l)
  = sort NewIsLess (compareTrades Examples.berlin sortConfig) l.
Proof.
  apply (@sorting_again_same_when_new_is_less Examples.berlin
           codeUnitOrder_antisym codeUnitOrder_trans sortConfig l).
  reflexivity.
Qed.

(** C8: what the code does for two records without a risk multiple when
    the table is sorted by that column.  The comparator answers 1 for the
    two records in either order.  With the engine that asks whether a placed
    element is less or equal, the sort puts the second record first, and
    sorting the sorted list again puts it back: the second sort does not
    give the list of the first. *)
Theorem sorting_again_swaps_records_without_value :
  let h := Examples.berlinOther in
  let view l :=
    filteredAndSortedTrades h l Examples.noFilter Examples.byRR in
  let l := [Examples.tuesday; Examples.monday] in
  compareTrades h Examples.byRR Examples.tuesday Examples.monday = Num 1
  /\ compareTrades h Examples.byRR Examples.monday Examples.tuesday = Num 1
  /\ view l = [Examples.monday; Examples.tuesday]
  /\ view (view l) = [Examples.tuesday; Examples.monday]
  /\ view (view l) <> view l.
Proof.
  vm_compute. repeat split. discriminate.
Qed.

End SortFacts.

(* ================================================================== *)
(** * The store over time *)
(* ================================================================== *)

Module StoreMore.
Import JS Types UseTrades Store JSFacts.

Local Abbreviation byDate :=
  (fun a b : Trade => Num (inject_Z (date b - date a))).

Lemma byDate_tests_agree (x y : Trade) :
  ltb (byDate x y) (Num 0) = negb (leb (byDate y x) (Num 0)).
Proof.
  destruct (ltb (byDate x y) (Num 0)) eqn:E1;
    destruct (leb (byDate y x) (Num 0)) eqn:E2; try reflexivity; exfalso.
  - apply ltb_inject_Z in E1. apply leb_inject_Z in E2. lia.
  - apply ltb_inject_Z_false in E1.
    assert (N : ~ (date x - date y <= 0)%Z).
    { intro C. apply leb_inject_Z in C. cbv beta in E2.
      rewrite C in E2. discriminate. }
    lia.
Qed.

Lemma byDate_atMost_trans (x y z : Trade) :
  atMost byDate x y -> atMost byDate y z -> atMost byDate x z.
Proof. unfold atMost. rewrite !leb_inject_Z. lia. Qed.

Lemma newestFirst_inOrder (l : list Trade) :
  StronglySorted newestFirst l -> StronglySorted (inOrder byDate) l.
Proof.
  apply StronglySorted_weaken. intros x y H. unfold inOrder.
  apply ltb_inject_Z_false. unfold newestFirst in H. lia.
Qed.

(** The engines sort by date alike. *)
Lemma sort_byDate_engine (e : Engine) (l : list Trade) :
  sort e byDate l = sort NewIsLess byDate l.
Proof.
  destruct e; [reflexivity|].
  apply engines_agree.
  - exact byDate_tests_agree.
  - exact byDate_atMost_trans.
Qed.

Lemma insert_byDate (p : Trade) (l : list Trade) :
  StronglySorted newestFirst l ->
  insert byDate p l
  = filter (notOlder (date p)) l ++ p :: filter (older (date p)) l.
Proof.
  induction 1 as [|x l S IH F]; [reflexivity|].
  cbn [insert filter]. unfold notOlder at 1, older at 1.
  destruct (ltb (byDate p x) (Num 0)) eqn:E.
  - apply ltb_inject_Z in E.
    assert (A1 : (date p <=? date x)%Z = false) by (apply Z.leb_gt; lia).
    assert (A2 : (date x <? date p)%Z = true) by (apply Z.ltb_lt; lia).
    rewrite A1, A2.
    assert (N : filter (notOlder (date p)) l = []).
    { clear IH S. induction F as [|y l Hy F IHF]; [reflexivity|].
      simpl. unfold notOlder at 1. unfold newestFirst in Hy.
      assert (A3 : (date p <=? date y)%Z = false) by (apply Z.leb_gt; lia).
      rewrite A3. exact IHF. }
    assert (O : filter (older (date p)) l = l).
    { clear IH S N. induction F as [|y l Hy F IHF]; [reflexivity|].
      simpl. unfold older at 1. unfold newestFirst in Hy.
      assert (A3 : (date y <? date p)%Z = true) by (apply Z.ltb_lt; lia).
      rewrite A3, IHF. reflexivity. }
    rewrite N, O. reflexivity.
  - apply ltb_inject_Z_false in E.
    assert (A1 : (date p <=? date x)%Z = true) by (apply Z.leb_le; lia).
    assert (A2 : (date x <? date p)%Z = false) by (apply Z.ltb_ge; lia).
    rewrite A1, A2, IH. reflexivity.
Qed.

Lemma addTrade_sorted_eq (h : Host) (freshId : string)
    (tradeData : TradeData) (prevTrades : list Trade) :
  StronglySorted newestFirst prevTrades ->
  addTrade h freshId tradeData prevTrades
  = filter (notOlder (date tradeData)) prevTrades
    ++ {| id := freshId; data := tradeData |}
    :: filter (older (date tradeData)) prevTrades.
Proof.
  intro S. unfold addTrade. rewrite sort_byDate_engine.
  unfold sort. rewrite fold_left_app.
  rewrite (@fold_insert_sorted_id _ byDate prevTrades []
             (newestFirst_inOrder S)).
  simpl. apply (insert_byDate {| id := freshId; data := tradeData |} S).
Qed.

Lemma filter_sorted (A : Type) (R : A -> A -> Prop) (f : A -> bool)
    (l : list A) :
  StronglySorted R l -> StronglySorted R (filter f l).
Proof.
  induction 1 as [|x l S IH F]; simpl; [constructor|].
  destruct (f x); [|exact IH].
  constructor; [exact IH|].
  rewrite Forall_forall in *. intros y Hy. apply filter_In in Hy.
  apply F, Hy.
Qed.

Lemma addTrade_sorted (h : Host) (freshId : string) (tradeData : TradeData)
    (prevTrades : list Trade) :
  StronglySorted newestFirst (addTrade h freshId tradeData prevTrades).
Proof.
  unfold addTrade. rewrite sort_byDate_engine.
  eapply StronglySorted_weaken; [|apply sort_sorted].
  - intros x y H. unfold inOrder in H.
    apply ltb_inject_Z_false in H. unfold newestFirst. lia.
  - intros x y B1 B2. unfold precedes in *.
    apply ltb_inject_Z in B1. apply ltb_inject_Z in B2. lia.
  - intros x y z B1 B2. unfold precedes in *.
    apply ltb_inject_Z. apply ltb_inject_Z in B1.
    apply ltb_inject_Z in B2. lia.
Qed.

Lemma sorted_split (d : Z) (l : list Trade) :
  StronglySorted newestFirst l ->
  filter (notOlder d) l ++ filter (older d) l = l.
Proof.
  induction 1 as [|x l S IH F]; [reflexivity|].
  simpl. unfold notOlder at 1, older at 1.
  destruct (d <=? date x)%Z eqn:E.
  - assert (A : (date x <? d)%Z = false)
      by (apply Z.ltb_ge; apply Z.leb_le in E; lia).
    rewrite A. simpl. rewrite IH. reflexivity.
  - apply Z.leb_gt in E.
    assert (A : (date x <? d)%Z = true) by (apply Z.ltb_lt; lia).
    rewrite A.
    assert (N : filter (notOlder d) l = []).
    { clear IH S. induction F as [|y l Hy F IHF]; [reflexivity|].
      simpl. unfold notOlder at 1. unfold newestFirst in Hy.
      assert (A3 : (d <=? date y)%Z = false) by (apply Z.leb_gt; lia).
      rewrite A3. exact IHF. }
    rewrite N in *. simpl in *. rewrite IH. reflexivity.
Qed.

Lemma deleteTrade_absent_id (id0 : string) (l : list Trade) :
  (forall t, In t l -> id t <> id0) <-> deleteTrade id0 l = l.
Proof.
  unfold deleteTrade. induction l as [|x l IH]; simpl.
  - split; [reflexivity | intros _ t []].
  - destruct (String.eqb (id x) id0) eqn:E; simpl.
    + split.
      * intro H. apply String.eqb_eq in E.
        exfalso. exact (H x (or_introl eq_refl) E).
      * intro H. exfalso.
        assert (L : (List.length
                       (filter (fun t : Trade =>
                                  negb (String.eqb (id t) id0)) l)
                     <= List.length l)%nat) by apply filter_length_le.
        rewrite H in L. simpl in L. lia.
    + split.
      * intro H. f_equal. apply IH. intros t Ht. apply H. right. exact Ht.
      * intros H t [Ht|Ht].
        -- subst t. intro C. apply String.eqb_neq in E. contradiction.
        -- injection H as H. apply IH; assumption.
Qed.

(** X1.  When the store is in order, newest first, [addTrade] leaves its
    records where they are and puts the new record behind the records of
    the same or a later date and in front of the older ones, whichever
    engine sorts. *)
Theorem addTrade_puts_new_record_behind_its_date (h : Host)
    (freshId : string) (tradeData : TradeData) (prevTrades : list Trade) :
  StronglySorted newestFirst prevTrades ->
  addTrade h freshId tradeData prevTrades
  = filter (notOlder (date tradeData)) prevTrades
    ++ {| id := freshId; data := tradeData |}
    :: filter (older (date tradeData)) prevTrades
  /\ filter (notOlder (date tradeData)) prevTrades
     ++ filter (older (date tradeData)) prevTrades = prevTrades.
Proof.
  intro S. split.
  - apply addTrade_sorted_eq, S.
  - apply sorted_split, S.
Qed.

Lemma addTrade_puts_new_record_behind_its_date_witness :
  addTrade Examples.berlinOther "n" Examples.tuesday
           [Examples.tuesday; Examples.monday]
  = [Examples.tuesday; {| id := "n"; data := Examples.tuesday |};
     Examples.monday].
Proof.
  assert (S : StronglySorted newestFirst [Examples.tuesday; Examples.monday]).
  { repeat constructor. unfold newestFirst. vm_compute. discriminate. }
  exact (proj1 (addTrade_puts_new_record_behind_its_date
                  Examples.berlinOther "n" Examples.tuesday S)).
Defined.

(** X2.  Deleting the record that was just added gives the store back: when
    the store is in order and none of its records has the fresh identifier,
    [deleteTrade freshId] after [addTrade] is the store as it was. *)
Theorem deleteTrade_undoes_addTrade (h : Host) (freshId : string)
    (tradeData : TradeData) (prevTrades : list Trade) :
  StronglySorted newestFirst prevTrades ->
  (forall t, In t prevTrades -> id t <> freshId) ->
  deleteTrade freshId (addTrade h freshId tradeData prevTrades) = prevTrades.
Proof.
  intros S Fresh. rewrite (addTrade_sorted_eq h freshId tradeData S).
  unfold deleteTrade. rewrite filter_app. simpl.
  rewrite String.eqb_refl. simpl.
  fold (deleteTrade freshId (filter (notOlder (date tradeData)) prevTrades)).
  fold (deleteTrade freshId (filter (older (date tradeData)) prevTrades)).
  rewrite (proj1 (deleteTrade_absent_id freshId _)).
  - rewrite (proj1 (deleteTrade_absent_id freshId _)).
    + apply sorted_split, S.
    + intros t Ht. apply filter_In in Ht. apply Fresh, Ht.
  - intros t Ht. apply filter_In in Ht. apply Fresh, Ht.
Qed.

Lemma deleteTrade_undoes_addTrade_witness :
  deleteTrade "n"
    (addTrade Examples.berlin "n" Examples.wednesday
              [Examples.tuesday; Examples.monday])
  = [Examples.tuesday; Examples.monday].
Proof.
  apply deleteTrade_undoes_addTrade.
  - repeat constructor. unfold newestFirst. vm_compute. discriminate.
  - intros t [E|[E|[]]]; subst t; vm_compute; discriminate.
Defined.

(** X3.  A store that starts empty is in order by date, newest first, after
    every sequence of [addTrade] and [deleteTrade] calls. *)
Theorem store_is_always_newest_first (h : Host) (actions : list Action) :
  StronglySorted newestFirst (run h actions []).
Proof.
  unfold run.
  assert (G : forall trades,
             StronglySorted newestFirst trades ->
             StronglySorted newestFirst (fold_left (step h) actions trades)).
  { induction actions as [|a actions IH]; intros trades S; [exact S|].
    simpl. apply IH. destruct a as [freshId tradeData|id0]; simpl.
    - apply addTrade_sorted.
    - apply filter_sorted, S. }
  apply G. constructor.
Qed.

(** X4.  [deleteTrade id0] changes the store exactly when a record has the
    identifier; a second call changes nothing more, and two deletions give
    the same store in either order. *)
Theorem deleteTrade_only_touches_its_identifier (a b : string)
    (trades : list Trade) :
  ((forall t, In t trades -> id t <> a) <-> deleteTrade a trades = trades)
  /\ deleteTrade a (deleteTrade a trades) = deleteTrade a trades
  /\ deleteTrade a (deleteTrade b trades)
     = deleteTrade b (deleteTrade a trades).
Proof.
  split; [apply deleteTrade_absent_id|]. split.
  - apply deleteTrade_absent_id. intros t Ht.
    unfold deleteTrade in Ht. apply filter_In in Ht. destruct Ht as [_ N].
    apply negb_true_iff in N. apply String.eqb_neq in N. exact N.
  - unfold deleteTrade. induction trades as [|x l IH]; [reflexivity|].
    simpl.
    destruct (String.eqb (id x) a) eqn:Ea;
      destruct (String.eqb (id x) b) eqn:Eb; simpl;
      rewrite ?Ea, ?Eb; simpl; rewrite IH; reflexivity.
Qed.

End StoreMore.

(* ================================================================== *)
(** * The table: filters, sort requests and records without a value *)
(* ================================================================== *)

Module ViewFacts.
Import JS Types UseTrades Store Dashboard DashboardView JSFacts StoreMore.

Lemma filter_and (A : Type) (f g : A -> bool) (l : list A) :
  filter g (filter f l) = filter (fun x => f x && g x) l.
Proof.
  induction l as [|x l IH]; simpl; [reflexivity|].
  destruct (f x); simpl; [destruct (g x)|]; rewrite IH; reflexivity.
Qed.

Lemma filter_all (A : Type) (l : list A) : filter (fun _ => true) l = l.
Proof. induction l as [|x l IH]; simpl; [|rewrite IH]; reflexivity. Qed.

Lemma unlessAll_filter (choice : string) (test : Trade -> bool)
    (l : list Trade) :
  unlessAll choice test l
  = filter (fun t => String.eqb choice "all"%string || test t) l.
Proof.
  unfold unlessAll. destruct (String.eqb choice "all"%string); simpl.
  - symmetry. apply filter_all.
  - reflexivity.
Qed.

(** The view sorts the records that pass the filters. *)
Lemma view_sorts_the_passing (h : Host) (trades : list Trade)
    (filters : Filters) (sortConfig : SortConfig) :
  filteredAndSortedTrades h trades filters sortConfig
  = sort (engine h) (compareTrades h sortConfig)
         (filter (passes h filters) trades).
Proof.
  unfold filteredAndSortedTrades. f_equal.
  rewrite !unlessAll_filter.
  assert (E1 : match startDate filters with
               | Some s => filter (fun t : Trade => (s <=? date t)%Z) trades
               | None => trades
               end
               = filter (fun t : Trade =>
                           match startDate filters with
                           | Some s => (s <=? date t)%Z
                           | None => true
                           end) trades).
  { destruct (startDate filters); [reflexivity|]. symmetry. apply filter_all. }
  rewrite E1.
  assert (E2 : forall l : list Trade,
             match endDate filters with
             | Some e => filter (fun t : Trade => (date t <=? e)%Z) l
             | None => l
             end
             = filter (fun t : Trade =>
                         match endDate filters with
                         | Some e => (date t <=? e)%Z
                         | None => true
                         end) l).
  { intro l. destruct (endDate filters); [reflexivity|].
    symmetry. apply filter_all. }
  rewrite E2, !filter_and. apply filter_ext. intro t. unfold passes.
  rewrite !andb_assoc. reflexivity.
Qed.

Lemma passes_reset (h : Host) (t : Trade) : passes h resetFilters t = true.
Proof. reflexivity. Qed.

(** ** Records without a value for the sort key *)

Section NoValue.

Variable h : Host.
Variable sortConfig : SortConfig.

Local Abbreviation cmp := (compareTrades h sortConfig).
Local Abbreviation valued := (hasValue (key sortConfig)).
Local Abbreviation unvalued := (fun t : Trade => negb (valued t)).

Lemma compare_unvalued (p x : Trade) :
  valued p = false -> cmp p x = Num 1.
Proof.
  unfold hasValue, compareTrades. intro H.
  destruct (property (key sortConfig) p); try discriminate. reflexivity.
Qed.

Lemma compare_valued_unvalued (p x : Trade) :
  valued p = true -> valued x = false -> cmp p x = Num (-1).
Proof.
  unfold hasValue, compareTrades. intros Hp Hx.
  destruct (property (key sortConfig) x); try discriminate.
  destruct (property (key sortConfig) p); try discriminate; reflexivity.
Qed.

Local Abbreviation valuedFirst := (DashboardView.valuedFirst (key sortConfig)).

Lemma insert_valued (p : Trade) (vs ns : list Trade) :
  valued p = true ->
  Forall (fun t => valued t = false) ns ->
  insert cmp p (vs ++ ns) = insert cmp p vs ++ ns.
Proof.
  intros Hp Hn. induction vs as [|v vs IH]; simpl.
  - destruct Hn as [|n ns Hx Hn]; [reflexivity|]. simpl.
    rewrite (@compare_valued_unvalued _ _ Hp Hx). reflexivity.
  - destruct (ltb (cmp p v) (Num 0)); [reflexivity|].
    rewrite IH. reflexivity.
Qed.

Lemma insert_unvalued (p : Trade) (l : list Trade) :
  valued p = false -> insert cmp p l = l ++ [p].
Proof.
  intro Hp. apply insert_last. apply Forall_forall. intros x _.
  unfold inOrder. rewrite (@compare_unvalued _ x Hp). reflexivity.
Qed.

Lemma none_at_most_unvalued (p : Trade) (ns : list Trade) :
  valued p = true ->
  Forall (fun t => valued t = false) ns ->
  existsb (fun s => leb (cmp s p) (Num 0)) ns = false.
Proof.
  intros Hp Hn. induction Hn as [|n ns Hx Hn IH]; [reflexivity|].
  simpl. rewrite (@compare_unvalued _ p Hx), IH. reflexivity.
Qed.

Lemma insertFromRight_valued (p : Trade) (vs ns : list Trade) :
  valued p = true ->
  Forall (fun t => valued t = false) ns ->
  insertFromRight cmp p (vs ++ ns) = insertFromRight cmp p vs ++ ns.
Proof.
  intros Hp Hn. induction vs as [|v vs IH].
  - simpl. destruct ns as [|n ns]; [reflexivity|].
    cbn [insertFromRight].
    rewrite (@none_at_most_unvalued _ _ Hp Hn). reflexivity.
  - change ((v :: vs) ++ ns) with (v :: (vs ++ ns)).
    cbn [insertFromRight].
    change (v :: (vs ++ ns)) with ((v :: vs) ++ ns).
    rewrite existsb_app, (@none_at_most_unvalued _ _ Hp Hn), orb_false_r.
    destruct (existsb _ (v :: vs)); [|reflexivity].
    rewrite IH. reflexivity.
Qed.

Lemma insertFromRight_unvalued (p : Trade) (vs ns : list Trade) :
  valued p = false ->
  Forall (fun t => valued t = true) vs ->
  Forall (fun t => valued t = false) ns ->
  insertFromRight cmp p (vs ++ ns) = vs ++ p :: ns.
Proof.
  intros Hp Hv Hn. induction Hv as [|v vs Hx Hv IH].
  - simpl. destruct ns as [|n ns]; [reflexivity|].
    cbn [insertFromRight].
    assert (E : existsb (fun s => leb (cmp s p) (Num 0)) (n :: ns) = false).
    { clear - Hn. induction Hn as [|m ms Hm Hn IH]; [reflexivity|].
      simpl. rewrite (@compare_unvalued _ p Hm), IH. reflexivity. }
    rewrite E. reflexivity.
  - change ((v :: vs) ++ ns) with (v :: (vs ++ ns)).
    cbn [insertFromRight]. cbn [existsb].
    rewrite (@compare_valued_unvalued _ _ Hx Hp). simpl.
    rewrite IH. reflexivity.
Qed.

Lemma place_valuedFirst (e : Engine) (l : list Trade) (p : Trade) :
  valuedFirst l -> valuedFirst (place e cmp l p).
Proof.
  intros (vs & ns & -> & Hv & Hn).
  destruct (valued p) eqn:Hp.
  - exists (place e cmp vs p), ns. split; [|split].
    + destruct e; simpl.
      * apply (@insert_valued _ vs _ Hp Hn).
      * apply (@insertFromRight_valued _ vs _ Hp Hn).
    + eapply Permutation_Forall.
      * apply Permutation_sym, place_perm.
      * constructor; assumption.
    + exact Hn.
  - destruct e; simpl.
    + exists vs, (ns ++ [p]). split; [|split].
      * rewrite (@insert_unvalued _ _ Hp), app_assoc. reflexivity.
      * exact Hv.
      * apply Forall_app. split; [exact Hn|]. constructor; [exact Hp|].
        constructor.
    + exists vs, (p :: ns). split; [|split].
      * apply (@insertFromRight_unvalued _ _ _ Hp Hv Hn).
      * exact Hv.
      * constructor; assumption.
Qed.

Lemma sort_valuedFirst (e : Engine) (l : list Trade) :
  valuedFirst (sort e cmp l).
Proof.
  unfold sort.
  assert (G : forall placed,
             valuedFirst placed ->
             valuedFirst (fold_left (place e cmp) l placed)).
  { induction l as [|p l IH]; intros placed V; [exact V|].
    simpl. apply IH, place_valuedFirst, V. }
  apply G. exists [], []. repeat split; constructor.
Qed.

Lemma valuedFirst_filter (l : list Trade) :
  valuedFirst l -> l = filter valued l ++ filter unvalued l.
Proof.
  intros (vs & ns & -> & Hv & Hn). rewrite !filter_app.
  assert (V1 : filter valued vs = vs).
  { clear - Hv. induction Hv as [|v vs Hx Hv IH]; [reflexivity|].
    simpl. rewrite Hx, IH. reflexivity. }
  assert (V2 : filter unvalued vs = []).
  { clear - Hv. induction Hv as [|v vs Hx Hv IH]; [reflexivity|].
    simpl. rewrite Hx. exact IH. }
  assert (N1 : filter valued ns = []).
  { clear - Hn. induction Hn as [|v vs Hx Hv IH]; [reflexivity|].
    simpl. rewrite Hx. exact IH. }
  assert (N2 : filter unvalued ns = ns).
  { clear - Hn. induction Hn as [|v vs Hx Hv IH]; [reflexivity|].
    simpl. rewrite Hx, IH. reflexivity. }
  rewrite V1, V2, N1, N2, app_nil_r. reflexivity.
Qed.

End NoValue.

(** ** Sorting by date, newest first *)

Local Abbreviation byDate :=
  (fun a b : Trade => Num (inject_Z (date b - date a))).

Lemma insert_ext (A : Type) (f g : A -> A -> number) (p : A) (l : list A) :
  (forall x y, f x y = g x y) -> insert f p l = insert g p l.
Proof.
  intro E. induction l as [|x l IH]; simpl; [reflexivity|].
  rewrite E, IH. reflexivity.
Qed.

Lemma insertFromRight_ext (A : Type) (f g : A -> A -> number) (p : A)
    (l : list A) :
  (forall x y, f x y = g x y) -> insertFromRight f p l = insertFromRight g p l.
Proof.
  intro E. induction l as [|x l IH]; [reflexivity|].
  cbn [insertFromRight]. rewrite IH.
  assert (X : existsb (fun s => leb (f s p) (Num 0)) (x :: l)
              = existsb (fun s => leb (g s p) (Num 0)) (x :: l)).
  { generalize (x :: l). intro m. induction m as [|y m IHm]; simpl;
      [reflexivity|]. rewrite E, IHm. reflexivity. }
  rewrite X. reflexivity.
Qed.

Lemma sort_ext (A : Type) (e : Engine) (f g : A -> A -> number)
    (l : list A) :
  (forall x y, f x y = g x y) -> sort e f l = sort e g l.
Proof.
  intro E. unfold sort. generalize (@nil A).
  induction l as [|p l IH]; intro placed; [reflexivity|].
  simpl. rewrite IH. f_equal.
  destruct e; simpl; [apply insert_ext | apply insertFromRight_ext]; exact E.
Qed.

Lemma initial_comparator (h : Host) (a b : Trade) :
  compareTrades h initialSortConfig a b = byDate a b.
Proof.
  unfold compareTrades. simpl. f_equal.
  unfold inject_Z, Qopp. simpl. f_equal. lia.
Qed.

(** X5.  The table holds exactly the records that pass the filters that are
    switched on, each as often as the store holds it; after [resetFilters]
    it holds every record of the store. *)
Theorem view_holds_the_records_that_pass (h : Host) (trades : list Trade)
    (filters : Filters) (sortConfig : SortConfig) :
  Permutation (filteredAndSortedTrades h trades filters sortConfig)
              (filter (passes h filters) trades)
  /\ Permutation (filteredAndSortedTrades h trades resetFilters sortConfig)
                 trades.
Proof.
  rewrite !view_sorts_the_passing. split; [apply sort_perm|].
  eapply perm_trans; [apply sort_perm|].
  rewrite (filter_ext (passes h resetFilters) (fun _ => true)
             (passes_reset h)).
  rewrite filter_all. apply Permutation_refl.
Qed.

(** X6.  Whatever the sort key, the direction and the engine, the table
    shows the records that have a value for the sort key first and the
    records without one last. *)
Theorem records_without_value_come_last (h : Host) (trades : list Trade)
    (filters : Filters) (sortConfig : SortConfig) :
  let view := filteredAndSortedTrades h trades filters sortConfig in
  view = filter (hasValue (key sortConfig)) view
         ++ filter (fun t => negb (hasValue (key sortConfig) t)) view.
Proof.
  intro view. apply valuedFirst_filter. unfold view.
  rewrite view_sorts_the_passing. apply sort_valuedFirst.
Qed.

(** X7.  A click on a header sorts by its key.  A click on another header
    than the one the table is sorted by sorts ascending; a further click on
    the same header turns the direction round, so that three clicks give
    what one click gives. *)
Theorem requestSort_toggles (sortConfig : SortConfig)
    (k : SortableTradeKeys) :
  key (requestSort sortConfig k) = k
  /\ (sameKey (key sortConfig) k = false ->
      direction (requestSort sortConfig k) = ascending)
  /\ direction (requestSort (requestSort sortConfig k) k)
     <> direction (requestSort sortConfig k)
  /\ requestSort (requestSort (requestSort sortConfig k) k) k
     = requestSort sortConfig k.
Proof.
  destruct sortConfig as [k0 d]. unfold requestSort. simpl.
  split; [reflexivity|]. split.
  - intro H. rewrite H. reflexivity.
  - assert (R : sameKey k k = true) by (destruct k; reflexivity).
    rewrite R. simpl.
    destruct (sameKey k0 k && isAscending d); simpl; split;
      try reflexivity; discriminate.
Qed.

(** X8.  With the sort the dashboard starts with (by date, descending) and
    a store that is in order, newest first, the table is the store without
    the records that the filters turn away, in the order of the store. *)
Theorem initial_view_keeps_the_order_of_the_store (h : Host)
    (trades : list Trade) (filters : Filters) :
  StronglySorted newestFirst trades ->
  filteredAndSortedTrades h trades filters initialSortConfig
  = filter (passes h filters) trades.
Proof.
  intro S. rewrite view_sorts_the_passing.
  rewrite (sort_ext (engine h) _ byDate _ (initial_comparator h)).
  rewrite sort_byDate_engine. apply sort_sorted_id.
  apply newestFirst_inOrder, filter_sorted, S.
Qed.

Lemma initial_view_keeps_the_order_of_the_store_witness :
  filteredAndSortedTrades Examples.berlinOther
    [Examples.wednesday; Examples.tuesday; Examples.monday]
    (Examples.onlyDayOfWeek "1") initialSortConfig
  = filter (passes Examples.berlinOther (Examples.onlyDayOfWeek "1"))
      [Examples.wednesday; Examples.tuesday; Examples.monday].
Proof.
  apply initial_view_keeps_the_order_of_the_store.
  repeat constructor; unfold newestFirst; vm_compute; discriminate.
Defined.

End ViewFacts.

(* ================================================================== *)
(** * The cards, the pie chart and the R/R cell *)
(* ================================================================== *)

Module CardFacts.
Import JS Types UseTrades Dashboard DashboardView JSFacts GuardFacts.

Local Abbreviation count := (fun (o : Outcome) (l : list Trade) =>
  List.length (filter (fun t : Trade => Outcome_eqb (outcome t) o) l)).

Lemma counts_add_up (l : list Trade) :
  (List.length (filter isTaken l) = count TP l + count SL l + count BE l
   /\ List.length (filter isTaken l) + count NO_TRADE l = List.length l)%nat.
Proof.
  induction l as [|t l [IH1 IH2]]; simpl; [split; reflexivity|].
  replace (isTaken t) with (negb (Outcome_eqb (outcome t) NO_TRADE))
    by reflexivity.
  destruct (outcome t); simpl; lia.
Qed.

Lemma filter_perm (A : Type) (f : A -> bool) (l l' : list A) :
  Permutation l l' -> Permutation (filter f l) (filter f l').
Proof.
  induction 1 as [|x l l' _ IH|x y l|l l' l'' _ IH1 _ IH2]; simpl.
  - constructor.
  - destruct (f x); [constructor|]; exact IH.
  - destruct (f x), (f y); try apply Permutation_refl. apply perm_swap.
  - eapply perm_trans; eassumption.
Qed.

Lemma count_perm (f : Trade -> bool) (l l' : list Trade) :
  Permutation l l' ->
  List.length (filter f l) = List.length (filter f l').
Proof. intro P. apply Permutation_length, filter_perm, P. Qed.

Lemma addTrade_perm (h : Host) (freshId : string) (tradeData : TradeData)
    (prevTrades : list Trade) :
  Permutation (addTrade h freshId tradeData prevTrades)
              ({| id := freshId; data := tradeData |} :: prevTrades).
Proof.
  unfold addTrade. eapply perm_trans; [apply sort_perm|].
  apply Permutation_sym, Permutation_cons_append.
Qed.

(** X9.  The trades counted are the wins, the losses and the break-evens,
    and with the days without a trade they are all the records. *)
Theorem stats_counts_add_up (trades : list Trade) :
  (totalTrades (stats trades)
   = wins (stats trades) + losses (stats trades) + breakEvens (stats trades)
   /\ totalTrades (stats trades)
      + List.length
          (filter (fun t : Trade => Outcome_eqb (outcome t) NO_TRADE) trades)
      = List.length trades)%nat.
Proof.
  unfold stats, totalTrades, wins, losses, breakEvens.
  induction trades as [|t l [IH1 IH2]]; simpl; [split; reflexivity|].
  replace (isTaken t) with (negb (Outcome_eqb (outcome t) NO_TRADE))
    by reflexivity.
  destruct (outcome t); simpl; lia.
Qed.

(** X10.  The pie chart has the slices of the outcomes that occur, under
    their names and in the order Take Profit, Stop Loss, Break Even, No
    Trade Days, each with the number of the records of the outcome; so it
    has at most four slices with different names, every value is positive,
    the values add up to the number of records, and the chart is empty
    exactly when there is no record. *)
Theorem outcomeData_covers_every_record (trades : list Trade) :
  outcomeData trades
  = filter (fun d => (0 <? slice_value d)%nat)
      [ {| slice_name := "Take Profit"; slice_value := count TP trades |};
        {| slice_name := "Stop Loss"; slice_value := count SL trades |};
        {| slice_name := "Break Even"; slice_value := count BE trades |};
        {| slice_name := "No Trade Days";
           slice_value := count NO_TRADE trades |} ]
  /\ (forall name n,
         In {| slice_name := name; slice_value := n |} (outcomeData trades)
         <-> (0 < n)%nat
             /\ ((name = "Take Profit"%string /\ n = count TP trades)
                 \/ (name = "Stop Loss"%string /\ n = count SL trades)
                 \/ (name = "Break Even"%string /\ n = count BE trades)
                 \/ (name = "No Trade Days"%string
                     /\ n = count NO_TRADE trades)))
  /\ NoDup (map slice_name (outcomeData trades))
  /\ Forall (fun d => (0 < slice_value d)%nat) (outcomeData trades)
  /\ (List.length (outcomeData trades) <= 4)%nat
  /\ list_sum (map slice_value (outcomeData trades)) = List.length trades
  /\ (outcomeData trades = [] <-> trades = []).
Proof.
  destruct (counts_add_up trades) as [E1 E2].
  unfold outcomeData, stats, wins, losses, breakEvens.
  set (w := count TP trades) in *. set (l := count SL trades) in *.
  set (b := count BE trades) in *. set (n := count NO_TRADE trades) in *.
  clearbody w l b n.
  assert (S : list_sum
                (map slice_value
                   (filter (fun d => (0 <? slice_value d)%nat)
                      [ {| slice_name := "Take Profit"; slice_value := w |};
                        {| slice_name := "Stop Loss"; slice_value := l |};
                        {| slice_name := "Break Even"; slice_value := b |};
                        {| slice_name := "No Trade Days";
                           slice_value := n |} ]))
              = (w + l + b + n)%nat).
  { simpl. destruct w, l, b, n; simpl; lia. }
  split; [reflexivity|].
  split; [|split; [|split; [|split; [|split; [|split]]]]].
  - intros name k. rewrite filter_In. cbn [In slice_value].
    rewrite Nat.ltb_lt. split.
    + intros [[H|[H|[H|[H|[]]]]] P]; injection H as <- <-; split; auto.
    + intros [P [[-> ->]|[[-> ->]|[[-> ->]|[-> ->]]]]]; split; auto.
  - cbn [filter slice_value].
    destruct (0 <? w)%nat, (0 <? l)%nat, (0 <? b)%nat, (0 <? n)%nat;
      cbn [map slice_name];
      repeat (constructor; [cbn [In]; intuition discriminate|]);
      constructor.
  - apply Forall_forall. intros d Hd. apply filter_In in Hd.
    apply Nat.ltb_lt, Hd.
  - eapply Nat.le_trans; [apply filter_length_le|]. simpl. lia.
  - rewrite S. lia.
  - intro E. rewrite E in S. simpl in S.
    apply length_zero_iff_nil. lia.
  - intro E. subst trades. simpl in E1, E2.
    assert (Z0 : w = 0%nat /\ l = 0%nat /\ b = 0%nat /\ n = 0%nat) by lia.
    destruct Z0 as (-> & -> & -> & ->). reflexivity.
Qed.

(** ** The colour of the win rate *)

Lemma winRate_text (trades : list Trade) :
  let w := wins (stats trades) in
  let d := (wins (stats trades) + losses (stats trades))%nat in
  winRate (stats trades)
  = if (d =? 0)%nat then "0.0"%string
    else toFixed
           (Num (inject_Z (Z.of_nat w) / inject_Z (Z.of_nat d) * 100)) 1.
Proof.
  intros w d. unfold stats at 1, winRate.
  change (List.length (filter (fun t : Trade => Outcome_eqb (outcome t) TP)
                              trades)) with w.
  change (List.length (filter (fun t : Trade => Outcome_eqb (outcome t) SL)
                              trades)) with (losses (stats trades)).
  change (w + losses (stats trades))%nat with d.
  pose proof (decided_are_taken trades) as Hle.
  change (d <= List.length (filter isTaken trades))%nat in Hle.
  destruct (Nat.eqb_spec d 0) as [E|E].
  - rewrite E, andb_false_r. reflexivity.
  - replace (0 <? List.length (filter isTaken trades))%nat with true
      by (symmetry; apply Nat.ltb_lt; lia).
    replace (0 <? d)%nat with true by (symmetry; apply Nat.ltb_lt; lia).
    simpl andb. cbv iota.
    change (ofNat w) with (Num (inject_Z (Z.of_nat w))).
    rewrite (div_ofNat _ E). reflexivity.
Qed.

(** The number read back from a text of tenths between 0.0 and 100.0 is at
    least 50 exactly from 50.0 on. *)
Lemma parse_tenths (n : Z) :
  (0 <= n <= 1000)%Z ->
  geb (parseFloat (decimal (n / 10) ++ "." ++ decimal (n mod 10))%string)
      (Num 50)
  = (500 <=? n)%Z.
Proof.
  intro H.
  assert (A : forallb
                (fun i : nat =>
                   Bool.eqb
                     (geb (parseFloat
                             (decimal (Z.of_nat i / 10) ++ "."
                              ++ decimal (Z.of_nat i mod 10))%string)
                          (Num 50))
                     (500 <=? Z.of_nat i)%Z)
                (seq 0 1001) = true) by (vm_compute; reflexivity).
  rewrite forallb_forall in A.
  specialize (A (Z.to_nat n)).
  rewrite Z2Nat.id in A by lia.
  apply eqb_prop, A. apply in_seq. lia.
Qed.

Lemma tenths_of_rate (w d : Z) :
  (0 <= w <= d)%Z -> (0 < d)%Z ->
  let n := nearest (inject_Z w / inject_Z d * 100) 1 in
  (0 <= n <= 1000)%Z
  /\ ((999 * d < 2000 * w)%Z -> (500 <= n)%Z)
  /\ ((2000 * w < 999 * d)%Z -> (n < 500)%Z).
Proof.
  intros Hw Hd n. unfold nearest in n. change (pow10 1) with 10%Z in n.
  set (y := inject_Z w / inject_Z d * 100 * inject_Z 10 + (1 # 2)) in *.
  assert (D : 0 < inject_Z d) by (rewrite <- (Zlt_Qlt 0); exact Hd).
  assert (Y : y == (2000 * inject_Z w + inject_Z d) / (2 * inject_Z d)).
  { unfold y. change (inject_Z 10) with 10. field.
    intro Z0. rewrite Z0 in D. exact (Qlt_irrefl _ D). }
  assert (D2 : 0 < 2 * inject_Z d).
  { apply Qmult_lt_0_compat; [reflexivity | exact D]. }
  assert (below : forall k : Z,
             (2000 * w + d < k * (2 * d))%Z -> (n < k)%Z).
  { intros k Hk. rewrite Zlt_Qlt.
    eapply Qle_lt_trans; [apply Qfloor_le|]. fold y. rewrite Y.
    apply Qlt_shift_div_r; [exact D2|].
    change 2000 with (inject_Z 2000). change 2 with (inject_Z 2).
    rewrite <- !inject_Z_mult, <- inject_Z_plus, <- Zlt_Qlt. exact Hk. }
  assert (above : forall k : Z,
             (k * (2 * d) <= 2000 * w + d)%Z -> (k <= n)%Z).
  { intros k Hk. rewrite <- (Qfloor_Z k). apply Qfloor_resp_le.
    fold y. rewrite Y.
    apply Qle_shift_div_l; [exact D2|].
    change 2000 with (inject_Z 2000). change 2 with (inject_Z 2).
    rewrite <- !inject_Z_mult, <- inject_Z_plus, <- Zle_Qle. exact Hk. }
  split; [split|split].
  - apply above. lia.
  - assert (L : (n < 1001)%Z) by (apply below; lia). lia.
  - intro H. apply above. lia.
  - intro H. apply below. lia.
Qed.

(** X14.  The win rate card is green from a rate of 49.95 per cent on: it
    is green when wins are more than 999 in 2000 of the wins and losses,
    and red when they are fewer, or when there is no win and no loss. *)
Theorem winRate_card_is_green_from_49_95 (trades : list Trade) :
  let w := Z.of_nat (wins (stats trades)) in
  let l := Z.of_nat (losses (stats trades)) in
  ((999 * (w + l) < 2000 * w)%Z ->
   winRateColor (stats trades) = "text-success"%string)
  /\ ((2000 * w < 999 * (w + l))%Z ->
      winRateColor (stats trades) = "text-danger"%string)
  /\ ((w + l = 0)%Z -> winRateColor (stats trades) = "text-danger"%string).
Proof.
  intros w l. unfold winRateColor. rewrite winRate_text.
  destruct (Nat.eqb_spec (wins (stats trades) + losses (stats trades)) 0)
    as [E|E].
  - repeat split; intros; try reflexivity. exfalso. unfold w, l in *. lia.
  - rewrite (toFixed_one_decimal (percentage_nonneg _ _)).
    rewrite Nat2Z.inj_add. fold w l.
    assert (Hw : (0 <= w <= w + l)%Z) by (unfold w, l; lia).
    assert (Hd : (0 < w + l)%Z) by (unfold w, l; lia).
    destruct (tenths_of_rate Hw Hd) as (R & G & B).
    rewrite (parse_tenths R).
    split; [|split].
    + intro H. specialize (G H).
      replace (500 <=? _)%Z with true by (symmetry; apply Z.leb_le, G).
      reflexivity.
    + intro H. specialize (B H).
      replace (500 <=? _)%Z with false by (symmetry; apply Z.leb_gt, B).
      reflexivity.
    + intro H. exfalso. lia.
Qed.

End CardFacts.

(* ================================================================== *)
(** * The cards and the R/R cell, the values in binary64 *)
(* ================================================================== *)

Module CardFacts64.
Import JS Types UseTrades Dashboard DashboardView JSFacts GuardFacts
       Store StoreMore CardFacts.
Import Binary64 Binary64Facts Dashboard64 DashboardView64.

Lemma colorClass_green (b : bool) :
  colorClass b = "text-success"%string <-> b = true.
Proof. destruct b; simpl; split; congruence. Qed.

Lemma round_sign (q : Q) : (0 <= q)%Q -> geb (round q) (Num 0) = true.
Proof.
  intro H. destruct (round q) as [v| | |] eqn:E.
  - apply Qle_bool_iff. apply (round_nonneg H E).
  - reflexivity.
  - exfalso. destruct (Q_dec q 0) as [[N|P]|Z0].
    + lra.
    + rewrite (round_positive P) in E.
      pose proof (roundPositive_cases (Qred q)) as RC. cbv zeta in RC.
      destruct RC as [[C _]|[C _]]; congruence.
    + rewrite (round_zero Z0) in E. discriminate.
  - exfalso. destruct (Q_dec q 0) as [[N|P]|Z0].
    + lra.
    + rewrite (round_positive P) in E.
      pose proof (roundPositive_cases (Qred q)) as RC. cbv zeta in RC.
      destruct RC as [[C _]|[C _]]; congruence.
    + rewrite (round_zero Z0) in E. discriminate.
Qed.

(** X11.  When the card of the total is green the card of the average is
    green too.  The converse fails: for two break-evens entered with
    -2^-1074 and with 0 the total is negative and its card red, and the
    average rounds to 0 and its card is green. *)
Theorem total_green_makes_average_green (trades : list Trade) :
  (totalColor (stats trades) = "text-success"%string ->
   averageColor (stats trades) = "text-success"%string)
  /\ totalColor (stats Examples.underflowing) = "text-danger"%string
  /\ averageColor (stats Examples.underflowing) = "text-success"%string.
Proof.
  split; [|split; vm_compute; reflexivity].
  unfold totalColor, averageColor. rewrite !colorClass_green.
  unfold stats. cbn [totalRREarned averageRR].
  set (total := fold_left rrReducer (filter isTaken trades) (Num 0)).
  destruct (Nat.ltb_spec 0 (List.length (filter isTaken trades))) as [L|L];
    [|reflexivity].
  intro G. destruct total as [q| | |]; try discriminate G.
  - unfold div. rewrite div_ofNat by lia. cbn [rounded].
    apply round_sign. apply Qle_bool_iff in G.
    apply Qle_shift_div_l.
    + change 0%Q with (inject_Z 0). rewrite <- Zlt_Qlt. lia.
    + lra.
  - unfold div, JS.div, ofNat.
    destruct (List.length (filter isTaken trades)) as [|k]; [lia|].
    reflexivity.
Qed.

(** X12.  For a stop loss the R/R cell of the table shows the risk multiple
    that was entered, when it is not 0, or else the planned one, with two
    decimals, while the statistics and the equity curve count the record as
    -1.  (Numbers below 10^21 in magnitude; the numbers are those of the
    format.) *)
Theorem rrCell_of_a_stop_loss_is_not_what_is_counted (t : Trade) :
  outcome t = SL ->
  tradeRR t = Num (-1)
  /\ (forall acc, rrReducer acc t = add acc (Num (-1)))
  /\ (forall r, ofField (rr t) = Num r -> ~ (r == 0)%Q ->
        (Qabs r < inject_Z (10 ^ 21))%Q ->
        rrCell t = (toFixed (Num r) 2 ++ "R")%string)
  /\ (forall tp sl q,
        truthy (rr t) = false ->
        ofField (tpSize t) = Num tp -> ofField (slSize t) = Num sl ->
        ~ (tp == 0)%Q -> (0 < sl)%Q ->
        div (Num tp) (Num sl) = Num q ->
        (Qabs q < inject_Z (10 ^ 21))%Q ->
        rrCell t = (toFixed (Num q) 2 ++ "R")%string).
Proof.
  intro H. split; [|split; [|split]].
  - unfold tradeRR. rewrite H. destruct (rr t); reflexivity.
  - intro acc. unfold rrReducer. rewrite H. destruct (rr t); reflexivity.
  - intros r E N _. unfold rrCell, truthy. rewrite E.
    apply Qeq_bool_false in N. rewrite N. reflexivity.
  - intros tp sl q F Etp Esl Ntp Psl E _. unfold rrCell. rewrite F.
    unfold truthy. rewrite Etp, Esl.
    apply Qeq_bool_false in Ntp. rewrite Ntp.
    assert (Nsl : Qeq_bool sl 0 = false).
    { apply Qeq_bool_false. intro Z0. rewrite Z0 in Psl.
      exact (Qlt_irrefl _ Psl). }
    rewrite Nsl. unfold gtb, ltb. apply Qltb_lt in Psl. rewrite Psl.
    cbn [negb andb]. rewrite E. reflexivity.
Qed.

Lemma rrCell_of_a_stop_loss_is_not_what_is_counted_witness :
  tradeRR Examples.overridden = Num (-1)
  /\ rrCell Examples.overridden = "3.00R"%string.
Proof.
  destruct (rrCell_of_a_stop_loss_is_not_what_is_counted Examples.overridden)
    as (H1 & _ & H2 & _).
  - reflexivity.
  - split; [exact H1|].
    apply (H2 3%Q); [reflexivity | discriminate | reflexivity].
Defined.

Lemma filter_around (A : Type) (f : A -> bool) (x : A) (l1 l2 : list A) :
  filter f (l1 ++ x :: l2)
  = (filter f l1 ++ (if f x then [x] else []) ++ filter f l2)%list.
Proof.
  rewrite filter_app. cbn [filter]. destruct (f x); reflexivity.
Qed.

(** X13.  [addTrade] raises the count of the outcome of the new record by
    one and leaves the other counts alone.  When the store is in order,
    newest first, the total after the call is the sum over the records of
    the same or a later date, then the new record, then the older records:
    the reducer takes the new record where the sort has put it.  This need
    not be the old total plus the risk multiple of the new record: adding
    the trade of 0.1 to the store of the trades of 0.2 and 0.3 gives
    0.6000000000000001, and 0.5 + 0.1 is 0.6. *)
Theorem stats_after_addTrade (h : Host) (freshId : string)
    (tradeData : TradeData) (prevTrades : list Trade) :
  let newTrade := {| id := freshId; data := tradeData |} in
  let before := stats prevTrades in
  let after := stats (addTrade h freshId tradeData prevTrades) in
  let oneIf := fun b : bool => if b then 1%nat else 0%nat in
  let kept :=
    filter isTaken (filter (notOlder (date tradeData)) prevTrades) in
  let moved := filter isTaken (filter (older (date tradeData)) prevTrades) in
  (totalTrades after = totalTrades before + oneIf (isTaken newTrade)
   /\ wins after = wins before + oneIf (Outcome_eqb (outcome tradeData) TP)
   /\ losses after
      = losses before + oneIf (Outcome_eqb (outcome tradeData) SL)
   /\ breakEvens after
      = breakEvens before + oneIf (Outcome_eqb (outcome tradeData) BE))%nat
  /\ (StronglySorted newestFirst prevTrades ->
      totalRREarned before
      = fold_left rrReducer moved (fold_left rrReducer kept (Num 0))
      /\ totalRREarned after
         = fold_left rrReducer moved
             (if isTaken newTrade
              then rrReducer (fold_left rrReducer kept (Num 0)) newTrade
              else fold_left rrReducer kept (Num 0)))
  /\ (addTrade h (id Examples.newestTenth) (data Examples.newestTenth)
               Examples.olderTenths = Examples.tenths
      /\ totalRREarned (stats Examples.tenths)
         = Num (1351079888211149 # 2251799813685248)
      /\ add (totalRREarned (stats Examples.olderTenths))
             (tradeRR Examples.newestTenth)
         = Num (5404319552844595 # 9007199254740992)).
Proof.
  intros newTrade before after oneIf kept moved.
  pose proof (addTrade_perm h freshId tradeData prevTrades) as P.
  fold newTrade in P.
  assert (C : forall f : Trade -> bool,
             List.length
               (filter f (addTrade h freshId tradeData prevTrades))
             = (List.length (filter f prevTrades) + oneIf (f newTrade))%nat).
  { intro f. rewrite (count_perm f P). simpl.
    destruct (f newTrade); simpl; lia. }
  split; [|split].
  - unfold after, before, stats; simpl. rewrite !C. repeat split.
  - intro S. split.
    + unfold before, stats. cbn [totalRREarned].
      rewrite <- (sorted_split (date tradeData) S) at 1.
      rewrite filter_app, fold_left_app. reflexivity.
    + unfold after, stats. cbn [totalRREarned].
      rewrite (addTrade_sorted_eq h freshId tradeData S).
      fold newTrade. rewrite filter_around, !fold_left_app.
      destruct (isTaken newTrade); reflexivity.
  - split; [|split; vm_compute; reflexivity].
    destruct h as [tz lc nt dt e]; destruct e; vm_compute; reflexivity.
Qed.

End CardFacts64.

(* ================================================================== *)
(** * The charts *)
(* ================================================================== *)

Module SeriesFacts.
Import JS Types Dashboard Series JSFacts GuardFacts.

Local Open Scope Z_scope.

(** ** Maps *)

Lemma get_set_same (V : Type) (m : Map V) (k : Z) (v : V) :
  get (set m k v) k = Some v.
Proof.
  induction m as [|[k' v'] m IH]; simpl.
  - rewrite Z.eqb_refl. reflexivity.
  - destruct (k' =? k) eqn:E; simpl; rewrite E; [reflexivity | exact IH].
Qed.

Lemma get_set_other (V : Type) (m : Map V) (k k' : Z) (v : V) :
  k' <> k -> get (set m k v) k' = get m k'.
Proof.
  intro N. induction m as [|[k0 v0] m IH]; simpl.
  - destruct (Z.eqb_spec k k'); [congruence | reflexivity].
  - destruct (Z.eqb_spec k0 k) as [E|E]; simpl.
    + subst k0. destruct (Z.eqb_spec k k'); [congruence | reflexivity].
    + rewrite IH. reflexivity.
Qed.

Lemma get_None_keys (V : Type) (m : Map V) (k : Z) :
  get m k = None <-> ~ In k (map fst m).
Proof.
  induction m as [|[k' v'] m IH]; simpl.
  - split; [intros _ [] | reflexivity].
  - destruct (Z.eqb_spec k' k) as [E|E].
    + split; [discriminate | intro H; exfalso; apply H; left; exact E].
    + rewrite IH. split; [intros H [C|C]; [exact (E C) | exact (H C)]|].
      intros H C. apply H. right. exact C.
Qed.

Lemma get_Some_keys (V : Type) (m : Map V) (k : Z) (v : V) :
  get m k = Some v -> In k (map fst m).
Proof.
  induction m as [|[k' v'] m IH]; simpl; [discriminate|].
  destruct (Z.eqb_spec k' k) as [E|E]; [intros _; left; exact E|].
  intro H. right. apply IH, H.
Qed.

Lemma keys_set (V : Type) (m : Map V) (k : Z) (v : V) :
  map fst (set m k v)
  = match get m k with
    | Some _ => map fst m
    | None => map fst m ++ [k]
    end.
Proof.
  induction m as [|[k' v'] m IH]; simpl; [reflexivity|].
  destruct (k' =? k) eqn:E; simpl; [reflexivity|].
  rewrite IH. destruct (get m k); reflexivity.
Qed.

Lemma keys_set_NoDup (V : Type) (m : Map V) (k : Z) (v : V) :
  NoDup (map fst m) -> NoDup (map fst (set m k v)).
Proof.
  intro N. rewrite keys_set. destruct (get m k) eqn:E; [exact N|].
  apply get_None_keys in E.
  apply (Permutation_NoDup (l := k :: map fst m)).
  - apply Permutation_cons_append.
  - constructor; assumption.
Qed.

Lemma get_In (V : Type) (m : Map V) (k : Z) (v : V) :
  NoDup (map fst m) -> (In (k, v) m <-> get m k = Some v).
Proof.
  induction m as [|[k' v'] m IH]; simpl; intro N.
  - split; [intros [] | discriminate].
  - inversion N as [|? ? Hn N']; subst.
    destruct (Z.eqb_spec k' k) as [E|E].
    + subst k'. split.
      * intros [H|H]; [congruence|]. exfalso. apply Hn.
        apply (in_map fst) in H. exact H.
      * intro H. left. congruence.
    + rewrite <- (IH N'). split; [intros [H|H]; [congruence | exact H]|].
      intro H. right. exact H.
Qed.

(** ** The counting loops *)

Section Tally.

Variable C : Type.
Variable zero : C.
Variable key : Trade -> Z.
Variable counted : Trade -> bool.
Variable bump : Trade -> C -> C.

Local Abbreviation tally := (Series.tally zero key counted bump).
Local Abbreviation entryAfter := (Series.entryAfter zero key counted bump).

Lemma get_fold_tally (l : list Trade) (m : Map C) (k : Z) :
  get (fold_left tally l m) k = fold_left (entryAfter k) l (get m k).
Proof.
  revert m. induction l as [|t l IH]; intro m; simpl; [reflexivity|].
  rewrite IH. f_equal. unfold Series.tally, Series.entryAfter.
  destruct (counted t); simpl; [|reflexivity].
  destruct (Z.eqb_spec (key t) k) as [E|E].
  - subst k. apply get_set_same.
  - apply get_set_other. congruence.
Qed.

Lemma keys_fold_tally (l : list Trade) (m : Map C) :
  NoDup (map fst m) -> NoDup (map fst (fold_left tally l m)).
Proof.
  revert m. induction l as [|t l IH]; intros m N; simpl; [exact N|].
  apply IH. unfold Series.tally. destruct (counted t); [|exact N].
  apply keys_set_NoDup, N.
Qed.

(** An entry exists exactly for the keys of the records that count. *)
Lemma entry_exists (l : list Trade) (k : Z) (o : option C) :
  fold_left (entryAfter k) l o <> None
  <-> o <> None \/ exists t, In t l /\ counted t = true /\ key t = k.
Proof.
  revert o. induction l as [|t l IH]; intro o; simpl.
  - split; [intro H; left; exact H|]. intros [H|(t & [] & _)]. exact H.
  - rewrite IH. unfold Series.entryAfter.
    destruct (counted t) eqn:Ec; simpl.
    + destruct (Z.eqb_spec (key t) k) as [E|E].
      * split; [|intros _; left; discriminate].
        intros _. right. exists t. auto.
      * split.
        -- intros [H|(x & Hx & Hc & Hk)]; [left; exact H|].
           right. exists x. auto.
        -- intros [H|(x & [Hx|Hx] & Hc & Hk)]; [left; exact H | |].
           ++ subst x. contradiction.
           ++ right. exists x. auto.
    + split.
      * intros [H|(x & Hx & Hc & Hk)]; [left; exact H|].
        right. exists x. auto.
      * intros [H|(x & [Hx|Hx] & Hc & Hk)]; [left; exact H | |].
        -- subst x. congruence.
        -- right. exists x. auto.
Qed.

Lemma entry_of_empty (l : list Trade) (k : Z) :
  fold_left (entryAfter k) l None <> None
  <-> exists t, In t l /\ counted t = true /\ key t = k.
Proof.
  rewrite entry_exists. split.
  - intros [N|H]; [congruence | exact H].
  - intro H. right. exact H.
Qed.

End Tally.

Lemma fold_left_ext (A B : Type) (f g : A -> B -> A) (l : list B) (a : A) :
  (forall x y, f x y = g x y) -> fold_left f l a = fold_left g l a.
Proof.
  intro E. revert a. induction l as [|b l IH]; intro a; simpl;
    [reflexivity|]. rewrite E. apply IH.
Qed.

(** ** Bars sorted by their key *)

Lemma byKey_lt (A : Type) (name : A -> Z) (x y : A) :
  ltb (byKey name x y) (Num 0) = true <-> name x < name y.
Proof.
  unfold byKey. rewrite ltb_inject_Z. unfold keyTime, MakeDate, msPerDay.
  lia.
Qed.

Lemma byKey_ge (A : Type) (name : A -> Z) (x y : A) :
  ltb (byKey name x y) (Num 0) = false <-> name y <= name x.
Proof.
  unfold byKey. rewrite ltb_inject_Z_false. unfold keyTime, MakeDate, msPerDay.
  lia.
Qed.

Lemma byKey_le (A : Type) (name : A -> Z) (x y : A) :
  leb (byKey name x y) (Num 0) = true <-> name x <= name y.
Proof.
  unfold byKey. rewrite leb_inject_Z. unfold keyTime, MakeDate, msPerDay.
  lia.
Qed.

Lemma sort_byKey_sorted (A : Type) (name : A -> Z) (e : Engine)
    (l : list A) :
  StronglySorted (fun a b => name a <= name b) (sort e (byKey name) l).
Proof.
  destruct e.
  - eapply StronglySorted_weaken; [|apply sort_sorted].
    + intros x y H. apply byKey_ge in H. exact H.
    + intros x y B1 B2. apply byKey_lt in B1. apply byKey_lt in B2. lia.
    + intros x y z B1 B2. apply byKey_lt. apply byKey_lt in B1.
      apply byKey_lt in B2. lia.
  - eapply StronglySorted_weaken; [|apply sort_from_right_sorted].
    + intros x y H. apply byKey_le in H. exact H.
    + intros x y. unfold atMost. rewrite !byKey_le. lia.
    + intros x y z. unfold atMost. rewrite !byKey_le. lia.
Qed.

Lemma sorted_NoDup_strict (A : Type) (name : A -> Z) (l : list A) :
  StronglySorted (fun a b => name a <= name b) l ->
  NoDup (map name l) ->
  StronglySorted (fun a b => name a < name b) l.
Proof.
  induction 1 as [|x l S IH F]; intro N; [constructor|].
  simpl in N. inversion N as [|? ? Hn N']; subst.
  constructor; [apply IH, N'|].
  rewrite Forall_forall in *. intros y Hy.
  specialize (F y Hy).
  assert (name x <> name y).
  { intro E. apply Hn. rewrite E. apply in_map, Hy. }
  lia.
Qed.

(** The bars made from the entries of a map and sorted by their key are in
    strictly ascending order, one for each entry. *)
Lemma bars_of_map (V B : Type) (name : B -> Z) (mk : Z * V -> B)
    (e : Engine) (m : Map V) :
  (forall x, name (mk x) = fst x) ->
  NoDup (map fst m) ->
  StronglySorted (fun a b => name a < name b)
                 (sort e (byKey name) (map mk m))
  /\ (forall b, In b (sort e (byKey name) (map mk m))
                <-> exists k v, get m k = Some v /\ b = mk (k, v)).
Proof.
  intros Hname N.
  pose proof (sort_perm (byKey name) e (map mk m)) as P.
  split.
  - apply sorted_NoDup_strict; [apply sort_byKey_sorted|].
    apply (Permutation_NoDup (l := map name (map mk m))).
    + apply Permutation_map, Permutation_sym, P.
    + rewrite map_map. rewrite (map_ext _ fst Hname). exact N.
  - intro b. split.
    + intro H. apply (Permutation_in _ P) in H.
      apply in_map_iff in H. destruct H as ([k v] & <- & H).
      exists k, v. split; [apply get_In; assumption | reflexivity].
    + intros (k & v & G & ->).
      apply (Permutation_in _ (Permutation_sym P)).
      apply in_map. apply get_In; assumption.
Qed.

(** ** [weeklyWinRateData] and [dailyTpslData] *)

Lemma countWhere_cons (f : Trade -> bool) (t : Trade) (l : list Trade) :
  countWhere f (t :: l)
  = ((if f t then 1 else 0) + countWhere f l)%nat.
Proof. unfold countWhere. simpl. destruct (f t); reflexivity. Qed.


Lemma day_entry (k : Z) (l : list Trade) (o : option DayCount)
    (c : DayCount) :
  fold_left (entryAfter noDay dayKey isTPorSL bumpDay k) l o = Some c ->
  (dc_TP c
   = dc_TP (orElse noDay o) + countWhere (fun t => isTP t && onDay k t) l
   /\ dc_SL c
      = dc_SL (orElse noDay o)
        + countWhere (fun t => isSL t && onDay k t) l)%nat.
Proof.
  revert o. induction l as [|t l IH]; intros o H.
  - simpl in H. subst o. unfold countWhere. simpl. lia.
  - simpl in H. apply IH in H. rewrite !countWhere_cons.
    unfold entryAfter, isTPorSL, bumpDay, isTP, isSL, onDay in *.
    destruct (outcome t); simpl in *;
      destruct (dayKey t =? k); simpl in *; lia.
Qed.


(** X16.  The daily chart has one bar for each day on which a trade was won
    or lost, in ascending order of the days, and a bar shows the number of
    wins and of losses of its day, in both engines. *)
Theorem daily_bars_count_each_day (h : Host) (trades : list Trade) :
  let bars := dailyTpslData h trades in
  StronglySorted (fun a b => db_name a < db_name b) bars
  /\ (forall k, In k (map db_name bars)
                <-> exists t, In t trades /\ isTPorSL t = true
                              /\ dayKey t = k)
  /\ Forall (fun b =>
               db_TP b
               = countWhere (fun t => isTP t && onDay (db_name b) t) trades
               /\ db_SL b
                  = countWhere (fun t => isSL t && onDay (db_name b) t)
                               trades)
            bars.
Proof.
  intro bars. unfold bars, dailyTpslData.
  set (mk := fun e : Z * DayCount =>
               let (day, data) := e in
               {| db_name := day; db_TP := dc_TP data;
                  db_SL := dc_SL data |}).
  set (m := fold_left countDay trades []).
  assert (G : forall k,
             get m k
             = fold_left (entryAfter noDay dayKey isTPorSL bumpDay k)
                         trades None).
  { intro k. unfold m.
    rewrite (fold_left_ext countDay (tally noDay dayKey isTPorSL bumpDay));
      [|reflexivity].
    apply (get_fold_tally noDay dayKey isTPorSL bumpDay trades []). }
  assert (N : NoDup (map fst m)).
  { unfold m.
    rewrite (fold_left_ext countDay (tally noDay dayKey isTPorSL bumpDay));
      [|reflexivity].
    apply keys_fold_tally. constructor. }
  assert (Hname : forall x, db_name (mk x) = fst x)
    by (intros [k v]; reflexivity).
  destruct (@bars_of_map _ _ db_name mk (engine h) m Hname N) as [S B].
  split; [exact S|]. split.
  - intro k. rewrite in_map_iff. split.
    + intros (b & E & Hb). apply B in Hb. destruct Hb as (k' & v & Gk & ->).
      simpl in E. subst k'.
      apply (entry_of_empty noDay dayKey isTPorSL bumpDay trades k).
      rewrite <- G, Gk. discriminate.
    + intro Ht.
      assert (X : get m k <> None).
      { rewrite G. apply entry_of_empty. exact Ht. }
      destruct (get m k) as [v|] eqn:Gk; [|congruence].
      exists (mk (k, v)). split; [reflexivity|].
      apply B. exists k, v. split; [exact Gk | reflexivity].
  - apply Forall_forall. intros b Hb. apply B in Hb.
    destruct Hb as (k & v & Gk & ->). simpl.
    rewrite G in Gk. apply day_entry in Gk. simpl in Gk.
    destruct Gk as [G1 G2]. rewrite G1, G2. repeat split.
Qed.

(** ** [performanceByDayData] *)







(** ** [cumulativeRRData] *)

Local Abbreviation oldestFirst :=
  (fun a b : Trade => Num (inject_Z (date a - date b))).

Lemma sort_oldestFirst_sorted (e : Engine) (l : list Trade) :
  StronglySorted (fun a b : Trade => date a <= date b)
                 (sort e oldestFirst l).
Proof.
  destruct e.
  - eapply StronglySorted_weaken; [|apply sort_sorted].
    + intros x y H. unfold inOrder in H.
      apply ltb_inject_Z_false in H. lia.
    + intros x y B1 B2. unfold precedes in *.
      apply ltb_inject_Z in B1. apply ltb_inject_Z in B2. lia.
    + intros x y z B1 B2. unfold precedes in *.
      apply ltb_inject_Z. apply ltb_inject_Z in B1.
      apply ltb_inject_Z in B2. lia.
  - eapply StronglySorted_weaken; [|apply sort_from_right_sorted].
    + intros x y H. unfold atMost in H. apply leb_inject_Z in H. lia.
    + intros x y. unfold atMost. rewrite !leb_inject_Z. lia.
    + intros x y z. unfold atMost. rewrite !leb_inject_Z. lia.
Qed.

Lemma dayKey_mono (a b : Trade) : date a <= date b -> dayKey a <= dayKey b.
Proof.
  unfold dayKey, isoDay, Day, msPerDay. intro H.
  apply Z.div_le_mono; lia.
Qed.

Lemma sorted_snoc (l : list Z) (k : Z) :
  StronglySorted Z.lt l -> Forall (fun x => x < k) l ->
  StronglySorted Z.lt (l ++ [k]).
Proof.
  induction 1 as [|x l S IH F]; intro B; simpl.
  - repeat constructor.
  - inversion B as [|? ? Hx B']; subst.
    constructor; [apply IH, B'|].
    apply Forall_app. split; [exact F|]. repeat constructor. exact Hx.
Qed.

Lemma chartData_days (c : number) (m : Map number) :
  curveDays (chartData c m) = map fst m.
Proof.
  revert c. induction m as [|[k v] m IH]; intro c; simpl; [reflexivity|].
  rewrite IH. reflexivity.
Qed.

Lemma keys_fold_addToDay (l : list Trade) (m : Map number) :
  StronglySorted (fun a b : Trade => date a <= date b) l ->
  StronglySorted Z.lt (map fst m) ->
  Forall (fun k => Forall (fun t => k <= dayKey t) l) (map fst m) ->
  StronglySorted Z.lt (map fst (fold_left addToDay l m))
  /\ (forall d, In d (map fst (fold_left addToDay l m))
                <-> In d (map fst m) \/ exists t, In t l /\ dayKey t = d).
Proof.
  intro S. revert m. induction S as [|t l S IH F]; intros m Sm B; simpl.
  - split; [exact Sm|]. intro d. split; [intro H; left; exact H|].
    intros [H|(t & [] & _)]. exact H.
  - assert (B1 : Forall (fun k => k <= dayKey t) (map fst m)).
    { eapply Forall_impl; [|exact B]. intros k Hk.
      inversion Hk; assumption. }
    assert (B2 : Forall (fun k => Forall (fun t => k <= dayKey t) l)
                        (map fst m)).
    { eapply Forall_impl; [|exact B]. intros k Hk.
      inversion Hk; assumption. }
    assert (Ft : Forall (fun x : Trade => dayKey t <= dayKey x) l).
    { eapply Forall_impl; [|exact F]. intros x. apply dayKey_mono. }
    assert (K : map fst (addToDay m t)
                = map fst m
                \/ (map fst (addToDay m t) = map fst m ++ [dayKey t]
                    /\ ~ In (dayKey t) (map fst m))).
    { unfold addToDay. rewrite keys_set.
      destruct (get m (dayKey t)) eqn:G; [left; reflexivity|].
      right. split; [reflexivity|]. apply get_None_keys, G. }
    assert (In_t : In (dayKey t) (map fst (addToDay m t))).
    { unfold addToDay. eapply get_Some_keys. apply get_set_same. }
    destruct (IH (addToDay m t)) as [R1 R2].
    + destruct K as [->|[-> Hn]]; [exact Sm|].
      apply sorted_snoc; [exact Sm|].
      rewrite Forall_forall in *. intros x Hx.
      specialize (B1 x Hx).
      assert (x <> dayKey t) by (intro E; subst x; contradiction).
      lia.
    + destruct K as [->|[-> Hn]]; [exact B2|].
      apply Forall_app. split; [exact B2|]. repeat constructor. exact Ft.
    + split; [exact R1|]. intro d. rewrite R2. split.
      * intros [H|(x & Hx & Ex)].
        -- destruct K as [K|[K Hn]]; rewrite K in H; [left; exact H|].
           apply in_app_or in H. destruct H as [H|[H|[]]]; [left; exact H|].
           right. exists t. split; [left; reflexivity | exact H].
        -- right. exists x. split; [right; exact Hx | exact Ex].
      * intros [H|(x & [Hx|Hx] & Ex)].
        -- left. destruct K as [K|[K Hn]]; rewrite K; [exact H|].
           apply in_or_app. left. exact H.
        -- left. subst x. rewrite <- Ex. exact In_t.
        -- right. exists x. split; assumption.
Qed.

(** X18.  After [Start] the equity curve has one point for each day on
    which a trade was taken, and the days ascend, in both engines. *)
Theorem curve_days_ascend (h : Host) (trades : list Trade) :
  let points := cumulativeRRData h trades in
  StronglySorted Z.lt (curveDays points)
  /\ (forall d, In d (curveDays points)
                <-> exists t, In t trades /\ isTaken t = true
                              /\ dayKey t = d)
  /\ (points = []
      \/ map cp_name points = Start :: map OnDay (curveDays points)).
Proof.
  intro points. unfold points, cumulativeRRData.
  set (sorted := sort (engine h) oldestFirst (filter isTaken trades)).
  pose proof (sort_oldestFirst_sorted (engine h) (filter isTaken trades))
    as S.
  fold sorted in S.
  pose proof (sort_perm oldestFirst (engine h) (filter isTaken trades)) as P.
  fold sorted in P.
  destruct (@keys_fold_addToDay sorted [] S) as [R1 R2];
    [constructor | constructor |].
  destruct (List.length sorted =? 0)%nat eqn:E.
  - apply Nat.eqb_eq, length_zero_iff_nil in E.
    split; [constructor|]. split; [|left; reflexivity].
    intro d. simpl. split; [intros []|].
    intros (t & Ht & Tk & _). 
    assert (I : In t sorted).
    { apply (Permutation_in _ (Permutation_sym P)).
      apply filter_In. split; assumption. }
    rewrite E in I. exact I.
  - cbn [curveDays cp_name]. rewrite chartData_days.
    split; [exact R1|]. split.
    + intro d. rewrite R2. split.
      * intros [[]|(t & Ht & Ed)].
        apply (Permutation_in _ P) in Ht. apply filter_In in Ht.
        exists t. split; [apply Ht|]. split; [apply Ht | exact Ed].
      * intros (t & Ht & Tk & Ed). right. exists t.
        split; [|exact Ed].
        apply (Permutation_in _ (Permutation_sym P)).
        apply filter_In. split; assumption.
    + right. cbn [map cp_name]. f_equal.
      generalize (Num 0). generalize (fold_left addToDay sorted []).
      intro m. induction m as [|[k v] m IH]; intro c; simpl; [reflexivity|].
      rewrite IH. reflexivity.
Qed.

End SeriesFacts.

(* ================================================================== *)
(** * The images of a request and the chat *)
(* ================================================================== *)

Module ChatFacts.
Import JS Types GeminiService GeminiChat.
Local Open Scope string_scope.

(** ** [dataURIToPart] *)

Lemma dropPrefix_app (p s : string) : dropPrefix p (p ++ s) = Some s.
Proof.
  induction p as [|c p IH]; simpl; [reflexivity|].
  rewrite Ascii.eqb_refl. exact IH.
Qed.

Lemma dropPrefix_Some (p s r : string) :
  dropPrefix p s = Some r -> s = p ++ r.
Proof.
  revert s. induction p as [|c p IH]; intros s H; simpl in *.
  - congruence.
  - destruct s as [|b s]; [discriminate|].
    destruct (Ascii.eqb_spec c b) as [E|E]; [|discriminate].
    subst b. rewrite (IH _ H). reflexivity.
Qed.

Lemma anyLineTerminator_app (a b : string) :
  anyLineTerminator (a ++ b) = anyLineTerminator a || anyLineTerminator b.
Proof.
  induction a as [|c a IH]; simpl; [reflexivity|].
  rewrite IH, orb_assoc. reflexivity.
Qed.

Lemma base64_no_terminator (s : string) :
  allChars isBase64Char s = true -> anyLineTerminator s = false.
Proof.
  induction s as [|c s IH]; simpl; [reflexivity|].
  intro H. apply andb_prop in H. destruct H as [Hc Hs].
  rewrite (IH Hs), orb_false_r.
  unfold isBase64Char, isLineTerminator in *.
  destruct (Nat.eqb_spec (code c) 10) as [E|E];
    [rewrite E in Hc; discriminate|].
  destruct (Nat.eqb_spec (code c) 13) as [E'|E'];
    [rewrite E' in Hc; discriminate|].
  reflexivity.
Qed.

Local Abbreviation notSemicolon := (fun c : ascii => negb (Ascii.eqb ";" c)).

Lemma no_semicolon_lastMarker (s : string) :
  allChars notSemicolon s = true -> lastMarker s = None.
Proof.
  induction s as [|c s IH]; [reflexivity|].
  intro H. cbn [allChars] in H. apply andb_prop in H.
  destruct H as [Hc Hs]. cbv beta in Hc. apply negb_true_iff in Hc.
  cbn [lastMarker]. rewrite (IH Hs).
  unfold marker. cbn [dropPrefix]. rewrite Hc. reflexivity.
Qed.

Lemma base64_no_semicolon (s : string) :
  allChars isBase64Char s = true -> allChars notSemicolon s = true.
Proof.
  induction s as [|c s IH]; [reflexivity|]. cbn [allChars].
  intro H. apply andb_prop in H. destruct H as [Hc Hs].
  rewrite (IH Hs), andb_true_r.
  destruct (Ascii.eqb_spec ";"%char c) as [E|E]; [|reflexivity].
  subst c. discriminate.
Qed.

Lemma lastMarker_encoded (mime payload : string) :
  payload <> "" ->
  allChars isBase64Char payload = true ->
  lastMarker (mime ++ marker ++ payload) = Some (mime, payload).
Proof.
  intros N B. induction mime as [|c mime IH].
  - change ("" ++ marker ++ payload)
      with (String ";" ("base64," ++ payload)).
    cbn [lastMarker].
    assert (X : lastMarker ("base64," ++ payload) = None).
    { apply no_semicolon_lastMarker.
      change (allChars notSemicolon payload = true).
      apply base64_no_semicolon, B. }
    rewrite X.
    change (String ";" ("base64," ++ payload)) with (marker ++ payload).
    rewrite dropPrefix_app.
    destruct payload; [congruence | reflexivity].
  - change ((String c mime) ++ marker ++ payload)
      with (String c (mime ++ marker ++ payload)).
    cbn [lastMarker]. rewrite IH. reflexivity.
Qed.

Lemma lastMarker_Some (s front back : string) :
  lastMarker s = Some (front, back) ->
  s = front ++ marker ++ back /\ back <> "".
Proof.
  revert front. induction s as [|c s IH]; intros front H; [discriminate|].
  cbn [lastMarker] in H.
  destruct (lastMarker s) as [[f b]|].
  - injection H as <- <-. destruct (IH f eq_refl) as [E N].
    split; [|exact N].
    change (String c s = String c (f ++ marker ++ b)). f_equal. exact E.
  - destruct (dropPrefix marker (String c s)) as [[|b r]|] eqn:D;
      try discriminate.
    injection H as <- <-. apply dropPrefix_Some in D.
    split; [exact D | discriminate].
Qed.

(** X19.  What [readAsDataURL] makes is read back: the data URI of a type
    without a line break and of a base64 text, neither of them empty, gives
    the type and the text. *)
Theorem dataURIToPart_reads_a_data_URI (mime payload : string) :
  mime <> "" -> anyLineTerminator mime = false ->
  payload <> "" -> allChars isBase64Char payload = true ->
  dataURIToPart (dataURI mime payload)
  = Some {| mimeType := mime; imageData := payload |}.
Proof.
  intros Nm Tm Np Bp. unfold dataURIToPart, dataURI.
  rewrite dropPrefix_app.
  rewrite !anyLineTerminator_app, Tm, (base64_no_terminator _ Bp).
  simpl orb. cbv iota.
  rewrite (lastMarker_encoded mime Np Bp).
  destruct mime; [congruence | reflexivity].
Qed.

Lemma dataURIToPart_reads_a_data_URI_witness :
  dataURIToPart "data:image/png;base64,iVBORw0KGgo="
  = Some {| mimeType := "image/png"; imageData := "iVBORw0KGgo=" |}.
Proof.
  apply (@dataURIToPart_reads_a_data_URI "image/png" "iVBORw0KGgo=");
    first [discriminate | reflexivity].
Defined.

(** X20.  Whatever [dataURIToPart] accepts is a data URI: the text is
    [data:], the type, [;base64,] and the data, the type and the data are
    not empty, and no line break is in them. *)
Theorem dataURIToPart_accepts_only_data_URIs (text : string)
    (d : InlineData) :
  dataURIToPart text = Some d ->
  text = dataURI (mimeType d) (imageData d)
  /\ mimeType d <> "" /\ imageData d <> ""
  /\ anyLineTerminator (mimeType d) = false
  /\ anyLineTerminator (imageData d) = false.
Proof.
  unfold dataURIToPart, dataURI. intro H.
  destruct (dropPrefix "data:" text) as [rest|] eqn:D; [|discriminate].
  apply dropPrefix_Some in D.
  destruct (anyLineTerminator rest) eqn:T; [discriminate|].
  destruct (lastMarker rest) as [[[|c front] back]|] eqn:L;
    try discriminate.
  injection H as <-. cbn [mimeType imageData].
  apply lastMarker_Some in L. destruct L as [E N].
  rewrite E in T. rewrite !anyLineTerminator_app in T.
  apply orb_false_elim in T. destruct T as [T1 T2].
  apply orb_false_elim in T2. destruct T2 as [_ T2].
  split; [rewrite D, E; reflexivity|].
  split; [discriminate|]. split; [exact N|]. split; assumption.
Qed.

Lemma dataURIToPart_accepts_only_data_URIs_witness :
  "data:a;base64,;base64,b" = dataURI "a;base64," "b".
Proof.
  exact (proj1 (@dataURIToPart_accepts_only_data_URIs
                  "data:a;base64,;base64,b"
                  {| mimeType := "a;base64,"; imageData := "b" |}
                  eq_refl)).
Defined.

(** ** [analyzeTradesWithAI] *)

Lemma inlineImages_app (a b : list Part) :
  inlineImages (a ++ b)%list = (inlineImages a ++ inlineImages b)%list.
Proof.
  induction a as [|[text|d] a IH]; simpl; [reflexivity | exact IH|].
  rewrite IH. reflexivity.
Qed.

Lemma inlineImages_imageParts (es : list (string * string)) :
  inlineImages (flat_map imageParts es)
  = flat_map (fun e : string * string =>
                match snd e with
                | EmptyString => []
                | _ => match dataURIToPart (snd e) with
                       | Some d => [d]
                       | None => []
                       end
                end) es.
Proof.
  induction es as [|[k v] es IH]; [reflexivity|].
  cbn [flat_map]. rewrite inlineImages_app, IH. f_equal.
  unfold imageParts. cbn [snd].
  destruct v; [reflexivity|].
  destruct (dataURIToPart _); reflexivity.
Qed.

Lemma inlineImages_tradeParts (env : ChatEnv) (trades : list Trade) :
  inlineImages (flat_map (tradeParts env) trades)
  = flat_map usableImages trades.
Proof.
  induction trades as [|t l IH]; [reflexivity|].
  cbn [flat_map]. rewrite inlineImages_app, IH. f_equal.
  unfold tradeParts, usableImages.
  destruct (attached t) as [|e es] eqn:A; [reflexivity|].
  cbn [inlineImages]. apply inlineImages_imageParts.
Qed.

Lemma imagesFollowText_imageParts (es : list (string * string))
    (rest : list Part) :
  (forall b, imagesFollowText b rest = true) ->
  forall b, imagesFollowText b (flat_map imageParts es ++ rest)%list = true.
Proof.
  intro R. induction es as [|[k v] es IH]; intro b; [apply R|].
  cbn [flat_map]. rewrite <- app_assoc.
  unfold imageParts at 1.
  destruct v; [apply IH|].
  destruct (dataURIToPart _); [|apply IH].
  cbn [app imagesFollowText andb]. apply IH.
Qed.

Lemma imagesFollowText_tradeParts (env : ChatEnv) (trades : list Trade) :
  forall b, imagesFollowText b (flat_map (tradeParts env) trades) = true.
Proof.
  induction trades as [|t l IH]; intro b; [reflexivity|].
  cbn [flat_map]. unfold tradeParts at 1.
  destruct (attached t) as [|e es]; [apply IH|].
  cbn [app imagesFollowText].
  apply imagesFollowText_imageParts. exact IH.
Qed.

(** X21.  Without the credential [analyzeTradesWithAI] rejects and sends
    nothing.  With it, it sends one request and always resolves: the
    request starts with the text of the question, holds the images of the
    trades that are not empty and are well-formed data URIs, in the order
    of the trades, each right behind a text, and the answer is the text of
    the response, or the apology when the call fails. *)
Theorem analyzeTradesWithAI_sends_the_usable_images (env : ChatEnv)
    (prompt : string) (trades : list Trade) :
  let run := analyzeTradesWithAI env prompt trades in
  (truthyStr (chat_API_KEY env) = false ->
   run = {| chat_result := Rejected "API_KEY environment variable not set";
            chat_sent := [] |})
  /\ (truthyStr (chat_API_KEY env) = true ->
      exists rest,
        chat_sent run
        = [TextPart (textPromptPart env prompt trades) :: rest]
        /\ inlineImages rest = flat_map usableImages trades
        /\ imagesFollowText false rest = true
        /\ chat_result run
           = Resolved
               match generate env
                       (TextPart (textPromptPart env prompt trades) :: rest)
               with
               | Some text => text
               | None => chatFailure
               end).
Proof.
  intro run. unfold run, analyzeTradesWithAI. split; intro K; rewrite K.
  - reflexivity.
  - cbn [negb]. cbv iota. unfold contentParts.
    exists (flat_map (tradeParts env) trades).
    split; [destruct (generate env _); reflexivity|].
    split; [apply inlineImages_tradeParts|].
    split; [apply imagesFollowText_tradeParts|].
    destruct (generate env _); reflexivity.
Qed.

End ChatFacts.

(* ================================================================== *)
(** * The analyzers *)
(* ================================================================== *)

Module AnalyzerFacts.
Import JS Types GeminiService GeminiChat.
Local Open Scope string_scope.

(** X22.  When [handleAnalyze] has run the component is not loading, and
    what it shows does not depend on what it showed before: without the
    credential the start page with the message of the error, and nothing
    was sent; with it no error, and the text of the analysis, or the start
    page again when that text is empty. *)
Theorem handleAnalyze_ends_with_a_result_or_an_error (env : Env)
    (trades : list Trade) (st : SlSweepAnalyzer.State) :
  let after := fst (SlSweepAnalyzer.handleAnalyze env trades st) in
  let requests := snd (SlSweepAnalyzer.handleAnalyze env trades st) in
  SlSweepAnalyzer.isLoading after = false
  /\ (forall st', SlSweepAnalyzer.handleAnalyze env trades st'
                  = SlSweepAnalyzer.handleAnalyze env trades st)
  /\ (truthyStr (API_KEY env) = false ->
      SlSweepAnalyzer.screen after
      = SlSweepAnalyzer.StartPage
          (Some "API_KEY environment variable not set")
      /\ requests = [])
  /\ (truthyStr (API_KEY env) = true ->
      SlSweepAnalyzer.error after = None
      /\ exists text,
           SlSweepAnalyzer.analysis after = Some text
           /\ SlSweepAnalyzer.screen after
              = match text with
                | EmptyString => SlSweepAnalyzer.StartPage None
                | _ => SlSweepAnalyzer.Results text
                end).
Proof.
  intros after requests.
  unfold after, requests, SlSweepAnalyzer.handleAnalyze.
  split; [destruct (result _); reflexivity|].
  split; [reflexivity|].
  unfold analyzeSlSweepsWithAI. split; intro K; rewrite K.
  - split; reflexivity.
  - cbn [negb]. cbv iota.
    destruct (_ <? 3)%nat.
    + split; [reflexivity|]. exists notEnoughNotes. split; reflexivity.
    + destruct (generateContent env _) as [text|].
      * split; [reflexivity|]. exists text. split; [reflexivity|].
        destruct text; reflexivity.
      * split; [reflexivity|]. exists sweepFailure. split; reflexivity.
Qed.

(** X23.  [handleSubmit] of the chat does nothing for a blank question or
    while an answer is awaited.  Otherwise it clears the input, ends not
    loading and adds two messages: the question of the user and a message
    of the analyst, which is the warning about the connection exactly when
    the credential is missing; the request it sends is that of
    [analyzeTradesWithAI]. *)
Theorem chat_handleSubmit_adds_question_and_answer (env : ChatEnv)
    (trades : list Trade) (st : ChatAnalyzer.State) :
  let after := fst (ChatAnalyzer.handleSubmit env trades st) in
  let requests := snd (ChatAnalyzer.handleSubmit env trades st) in
  (trim (ChatAnalyzer.prompt st) = "" \/ ChatAnalyzer.isLoading st = true ->
   after = st /\ requests = [])
  /\ (trim (ChatAnalyzer.prompt st) <> "" ->
      ChatAnalyzer.isLoading st = false ->
      ChatAnalyzer.prompt after = ""
      /\ ChatAnalyzer.isLoading after = false
      /\ requests
         = chat_sent (analyzeTradesWithAI env (ChatAnalyzer.prompt st) trades)
      /\ exists reply,
           ChatAnalyzer.messages after
           = (ChatAnalyzer.messages st
              ++ [ {| ChatAnalyzer.sender := ChatAnalyzer.user;
                      ChatAnalyzer.text := ChatAnalyzer.prompt st |};
                   {| ChatAnalyzer.sender := ChatAnalyzer.ai;
                      ChatAnalyzer.text := reply |} ])%list
           /\ (truthyStr (chat_API_KEY env) = false ->
               reply = ChatAnalyzer.connectionTrouble /\ requests = [])
           /\ (truthyStr (chat_API_KEY env) = true ->
               chat_result
                 (analyzeTradesWithAI env (ChatAnalyzer.prompt st) trades)
               = Resolved reply)).
Proof.
  intros after requests.
  unfold after, requests, ChatAnalyzer.handleSubmit. split.
  - intros [B|L].
    + rewrite B. simpl. split; reflexivity.
    + rewrite L, orb_true_r. split; reflexivity.
  - intros B L. rewrite L, orb_false_r.
    replace (String.eqb (trim (ChatAnalyzer.prompt st)) "") with false
      by (symmetry; apply String.eqb_neq, B).
    cbn [fst snd ChatAnalyzer.prompt ChatAnalyzer.isLoading
         ChatAnalyzer.messages].
    split; [reflexivity|]. split; [reflexivity|]. split; [reflexivity|].
    unfold analyzeTradesWithAI.
    destruct (truthyStr (chat_API_KEY env)); cbn [negb]; cbv iota.
    + destruct (generate env _) as [text|]; cbn [chat_result chat_sent];
        eexists; (split; [rewrite <- app_assoc; reflexivity|]);
        (split; [discriminate | reflexivity]).
    + cbn [chat_result chat_sent]. eexists.
      split; [rewrite <- app_assoc; reflexivity|].
      split; [split; reflexivity | discriminate].
Qed.

Lemma chat_handleSubmit_adds_question_and_answer_witness :
  List.length
    (ChatAnalyzer.messages
       (fst (ChatAnalyzer.handleSubmit
               {| chat_API_KEY := None; stringify := fun _ => "[]";
                  dateString := fun _ => ""; generate := fun _ => None |}
               []
               {| ChatAnalyzer.prompt := "why"; ChatAnalyzer.messages := [];
                  ChatAnalyzer.isLoading := false |})))
  = 2%nat.
Proof.
  destruct (proj2 (chat_handleSubmit_adds_question_and_answer
                     {| chat_API_KEY := None; stringify := fun _ => "[]";
                        dateString := fun _ => "";
                        generate := fun _ => None |}
                     []
                     {| ChatAnalyzer.prompt := "why";
                        ChatAnalyzer.messages := [];
                        ChatAnalyzer.isLoading := false |}))
    as (_ & _ & _ & reply & E & _).
  - vm_compute. discriminate.
  - reflexivity.
  - rewrite E. reflexivity.
Defined.

End AnalyzerFacts.

(* ================================================================== *)
(** * The form *)
(* ================================================================== *)

Module FormFacts.
Import JS Types UseTrades Dashboard TradeForm JSFacts GuardFacts DayFacts
       Store StoreMore CardFacts.

Local Open Scope Z_scope.

Lemma WeekDay_range (t : Z) : 0 <= WeekDay t < 7.
Proof. unfold WeekDay. apply Z.mod_pos_bound. lia. Qed.

Lemma dayOfWeek_calendar (h : Host) (f : Form) :
  dayOfWeek h f
  = nth (Z.to_nat (WeekDay (MakeDate (f_day f) 0))) days ""%string.
Proof.
  unfold dayOfWeek, getDay, LocalTime, UTC. do 3 f_equal. ring.
Qed.

(** X24.  For a date from the year 100 on, the weekday that the form shows
    beside the date is the weekday of the calendar day in every time zone.
    The dashboard puts the record that the form stores under the same
    weekday at UTC and west of it, and under the weekday before east of
    UTC. *)
Theorem form_weekday_and_dashboard_weekday (h : Host) (f : Form)
    (freshId : string) (tradeData : TradeData) :
  dayNumber 100 1 1 <= f_day f < dayNumber 275760 1 1 ->
  handleSubmit f = Some tradeData ->
  let stored := {| id := freshId; data := tradeData |} in
  let shown := WeekDay (MakeDate (f_day f) 0) in
  dayOfWeek h f = nth (Z.to_nat shown) days ""%string
  /\ (-1440 < tz h <= 0 -> dayIndex h stored = shown)
  /\ (0 < tz h <= 1440 ->
      dayIndex h stored = (shown + 6) mod 7
      /\ nth (Z.to_nat (dayIndex h stored)) days ""%string
         <> dayOfWeek h f).
Proof.
  intros _ H stored shown.
  assert (D : date stored = MakeDate (f_day f) 0).
  { unfold handleSubmit in H. destruct (f_isUploading f); [discriminate|].
    injection H as <-. reflexivity. }
  split; [apply dayOfWeek_calendar|]. split.
  - intro W. rewrite (dayIndex_west_of_utc h stored W), D. reflexivity.
  - intro E. rewrite (dayIndex_east_of_utc h stored E), D.
    split; [reflexivity|].
    rewrite dayOfWeek_calendar. fold shown.
    pose proof (WeekDay_range (MakeDate (f_day f) 0)) as R. fold shown in R.
    assert (C : shown = 0 \/ shown = 1 \/ shown = 2 \/ shown = 3
                \/ shown = 4 \/ shown = 5 \/ shown = 6) by lia.
    clearbody shown.
    repeat (destruct C as [->|C]; [discriminate|]). subst shown.
    discriminate.
Qed.

Lemma form_weekday_and_dashboard_weekday_witness :
  dayOfWeek Examples.berlin FormExamples.mondayForm = "Monday"%string
  /\ dayIndex Examples.berlin
       {| id := "n"; data := FormExamples.mondayData |} = 0.
Proof.
  assert (Y : dayNumber 100 1 1 <= f_day FormExamples.mondayForm
              < dayNumber 275760 1 1) by (vm_compute; split; [discriminate | reflexivity]).
  destruct (form_weekday_and_dashboard_weekday Examples.berlin
              FormExamples.mondayForm "n" (tradeData := FormExamples.mondayData)
              Y eq_refl) as (S & _ & E).
  split; [exact S|]. apply E. vm_compute. split; [reflexivity|discriminate].
Defined.

Lemma filter_without (A : Type) (f : A -> bool) (x : A) (l1 l2 : list A) :
  f x = false -> filter f (l1 ++ x :: l2) = filter f (l1 ++ l2).
Proof.
  intro H. rewrite !filter_app. cbn [filter]. rewrite H. reflexivity.
Qed.

(** X25.  A submitted form for a day without a trade stores a record
    without type, sizes, risk multiple, time and sweep note, whatever the
    form still holds in these fields; the counts and the win rate stay as
    they were, and when the store is in order, newest first, so do all the
    statistics. *)
Theorem no_trade_form_leaves_the_statistics (h : Host) (freshId : string)
    (f : Form) (trades : list Trade) :
  f_isUploading f = false ->
  TradeForm.f_outcome f = NO_TRADE ->
  exists tradeData,
    handleSubmit f = Some tradeData
    /\ outcome tradeData = NO_TRADE
    /\ type tradeData = None /\ slSize tradeData = None
    /\ tpSize tradeData = None /\ rr tradeData = None
    /\ activationTime tradeData = None /\ slSweepNotes tradeData = None
    /\ Permutation (submit h freshId f trades)
                   ({| id := freshId; data := tradeData |} :: trades)
    /\ totalTrades (Dashboard64.stats (submit h freshId f trades))
       = totalTrades (Dashboard64.stats trades)
    /\ wins (Dashboard64.stats (submit h freshId f trades))
       = wins (Dashboard64.stats trades)
    /\ losses (Dashboard64.stats (submit h freshId f trades))
       = losses (Dashboard64.stats trades)
    /\ breakEvens (Dashboard64.stats (submit h freshId f trades))
       = breakEvens (Dashboard64.stats trades)
    /\ winRate (Dashboard64.stats (submit h freshId f trades))
       = winRate (Dashboard64.stats trades)
    /\ (StronglySorted newestFirst trades ->
        Dashboard64.stats (submit h freshId f trades)
        = Dashboard64.stats trades).
Proof.
  intros U N. unfold submit, handleSubmit. rewrite U, N.
  cbn [Outcome_eqb]. eexists. split; [reflexivity|].
  cbn [outcome type slSize tpSize rr activationTime slSweepNotes].
  do 7 (split; [reflexivity|]).
  match goal with
  | |- Permutation (addTrade h freshId ?d trades) _ /\ _ =>
      set (tradeData := d)
  end.
  pose proof (addTrade_perm h freshId tradeData trades) as P.
  split; [exact P|].
  assert (C : forall g : Trade -> bool,
             g {| id := freshId; data := tradeData |} = false ->
             List.length (filter g (addTrade h freshId tradeData trades))
             = List.length (filter g trades)).
  { intros g G. rewrite (count_perm g P). simpl. rewrite G. reflexivity. }
  assert (C1 := C isTaken eq_refl).
  assert (C2 := C (fun t : Trade => Outcome_eqb (outcome t) TP) eq_refl).
  assert (C3 := C (fun t : Trade => Outcome_eqb (outcome t) SL) eq_refl).
  assert (C4 := C (fun t : Trade => Outcome_eqb (outcome t) BE) eq_refl).
  split; [exact C1|]. split; [exact C2|]. split; [exact C3|].
  split; [exact C4|]. split.
  - unfold Dashboard64.stats, winRate. rewrite C1, C2, C3. reflexivity.
  - intro S.
    assert (T : filter isTaken (addTrade h freshId tradeData trades)
                = filter isTaken trades).
    { rewrite (addTrade_sorted_eq h freshId tradeData S).
      rewrite filter_without by reflexivity.
      rewrite (sorted_split (date tradeData) S). reflexivity. }
    unfold Dashboard64.stats. rewrite T, C2, C3, C4. reflexivity.
Qed.

Lemma no_trade_form_leaves_the_statistics_witness :
  exists tradeData,
    handleSubmit FormExamples.dayOffForm = Some tradeData
    /\ rr tradeData = None
    /\ wins (Dashboard64.stats
               (submit Examples.berlin "n" FormExamples.dayOffForm
                       Examples.journal))
       = wins (Dashboard64.stats Examples.journal).
Proof.
  destruct (no_trade_form_leaves_the_statistics Examples.berlin "n"
              FormExamples.dayOffForm Examples.journal eq_refl eq_refl)
    as (d & H & _ & _ & _ & _ & R & _ & _ & _ & _ & W & _).
  exists d. repeat split; assumption.
Defined.

End FormFacts.

(* ================================================================== *)
(** * The effect of the form *)
(* ================================================================== *)

Module EffectFacts.
Import JS Types TradeForm GeminiChat.

(** X26.  The effect of the form settles in one run.  Once it has run, a
    form that is submitted stores the fields as they were entered, a trade
    has a type, and a day without a trade has no image to send. *)
Theorem effect_settles_and_prepares_the_form (f : Form) :
  effect (effect f) = effect f
  /\ (f_isUploading f = false ->
      handleSubmit (effect f) = Some (fieldsAsEntered (effect f)))
  /\ (TradeForm.f_outcome f <> NO_TRADE -> f_type (effect f) <> None)
  /\ (TradeForm.f_outcome f = NO_TRADE ->
      forall freshId,
        attached {| id := freshId; data := fieldsAsEntered (effect f) |}
        = []).
Proof.
  unfold effect, handleSubmit, fieldsAsEntered.
  destruct f as [day o ty sl tp rg r at_ sw im up nt]; simpl.
  split; [|split; [|split]].
  - destruct o; simpl; try reflexivity; destruct ty; reflexivity.
  - intros ->. destruct o; simpl; try reflexivity; destruct ty; reflexivity.
  - intro N. destruct o; simpl; try congruence; destruct ty; discriminate.
  - intros -> freshId. reflexivity.
Qed.

End EffectFacts.
